(** * minify-modules: the walker of [bin/index.js]

  A shallow embedding of the command-line script that reinstalls the
  production dependencies of a package and then walks [node_modules],
  deleting documentation, type definitions and lint artefacts and
  minifying the JavaScript and JSON files that remain.

  JavaScript strings are sequences of UTF-16 code units; numbers that the
  script counts with are integers well inside the exact range of a double
  and are modelled in [Z]. *)

From Stdlib Require Import List ZArith NArith Bool Lia String Ascii.
From Stdlib Require DecimalFacts DecimalN.
Import ListNotations.
Local Open Scope Z_scope.

(** ** JavaScript strings *)

Module JsString.

(** A string is the list of its UTF-16 code units. *)
Definition jsstring := list N.

(** Literals are written as Rocq strings; every character of a literal is
    one code unit. *)
Definition js (s : string) : jsstring :=
  List.map N_of_ascii (list_ascii_of_string s).

(** [a === b] on strings. *)
Fixpoint eqb (a b : jsstring) : bool :=
  match a, b with
  | [], [] => true
  | x :: a', y :: b' => N.eqb x y && eqb a' b'
  | _, _ => false
  end.

(** [s.length] *)
Definition length (s : jsstring) : Z := Z.of_nat (List.length s).

(** [Array.prototype.includes] on an array of strings. *)
Definition includes (arr : list jsstring) (s : jsstring) : bool :=
  existsb (eqb s) arr.

(** [s.slice(from, to)] for [0 <= from <= to]. *)
Definition slice (s : jsstring) (from to : nat) : jsstring :=
  firstn (to - from) (skipn from s).

(** [String.prototype.toLowerCase], code unit by code unit.  The Latin
    capitals go to their small letters; of the characters outside ASCII
    only KELVIN SIGN (U+212A) has an ASCII lower case, and LATIN CAPITAL
    LETTER I WITH DOT ABOVE (U+0130) becomes [i] followed by U+0307.  The
    other letters outside ASCII are mapped by JavaScript to letters that
    are again outside ASCII; they are left as they are here, which makes no
    difference to a comparison with an ASCII-only literal. *)
Definition lower_unit (c : N) : jsstring :=
  if (65 <=? c)%N && (c <=? 90)%N then [(c + 32)%N]
  else if (c =? 8490)%N then [107%N]
  else if (c =? 304)%N then [105%N; 775%N]
  else [c].

Definition toLowerCase (s : jsstring) : jsstring := flat_map lower_unit s.

End JsString.
Import JsString.

(** ** [path] of Node.js (POSIX flavour) *)

Module Path.

Definition CHAR_FORWARD_SLASH : N := 47.
Definition CHAR_DOT : N := 46.

(** The variables of the loop of [path.extname]; [-1] is the source's
    "not seen yet". *)
Record ExtState := mkExt {
  startDot : Z;
  startPart : Z;
  end_ : Z;
  matchedSlash : bool;
  preDotState : Z
}.

Definition ext_init : ExtState := mkExt (-1) 0 (-1) true 0.

(** One iteration of [for (let i = path.length - 1; i >= 0; --i)], at
    index [i]; the boolean is [true] on [break]. *)
Definition ext_step (path : jsstring) (i : nat) (st : ExtState)
  : ExtState * bool :=
  let code := nth i path 0%N in
  if (code =? CHAR_FORWARD_SLASH)%N then
    if negb (matchedSlash st)
    then (mkExt (startDot st) (Z.of_nat i + 1) (end_ st)
                (matchedSlash st) (preDotState st), true)
    else (st, false)
  else
    let st1 :=
      if end_ st =? -1
      then mkExt (startDot st) (startPart st) (Z.of_nat i + 1) false
                 (preDotState st)
      else st in
    let st2 :=
      if (code =? CHAR_DOT)%N then
        if startDot st1 =? -1
        then mkExt (Z.of_nat i) (startPart st1) (end_ st1)
                   (matchedSlash st1) (preDotState st1)
        else if negb (preDotState st1 =? 1)
             then mkExt (startDot st1) (startPart st1) (end_ st1)
                        (matchedSlash st1) 1
             else st1
      else if negb (startDot st1 =? -1)
           then mkExt (startDot st1) (startPart st1) (end_ st1)
                      (matchedSlash st1) (-1)
           else st1 in
    (st2, false).

(** The loop, run on the indices [n-1], ..., [0]. *)
Fixpoint ext_loop (path : jsstring) (n : nat) (st : ExtState) : ExtState :=
  match n with
  | O => st
  | S i =>
      let '(st', brk) := ext_step path i st in
      if brk then st' else ext_loop path i st'
  end.

(** [path.extname(path)] *)
Definition extname (path : jsstring) : jsstring :=
  let st := ext_loop path (List.length path) ext_init in
  if (startDot st =? -1)
     || (end_ st =? -1)
     || (preDotState st =? 0)
     || ((preDotState st =? 1)
         && (startDot st =? end_ st - 1)
         && (startDot st =? startPart st + 1))
  then []
  else slice path (Z.to_nat (startDot st)) (Z.to_nat (end_ st)).

(** [path.join(dir, name)] for a normalized, non-empty [dir] and the name
    of a directory entry (non-empty, without [/], neither [.] nor [..]):
    the two joined by a separator, which normalization leaves alone. *)
Definition join (dir name : jsstring) : jsstring :=
  dir ++ CHAR_FORWARD_SLASH :: name.

End Path.

(** ** The collaborators: file system, console, minifier, JSON *)

Module Node.

(** What a rejected promise or a [throw] carries. *)
Inductive JsError :=
| FsError (syscall : string) (path : jsstring)
| ExecError (command : jsstring)
| SyntaxError
| TypeError
| MinifyError (message : jsstring).

(** A file of the tree: its name, what [fs.stat] reports as its size in
    bytes, its text as [fs.readFile(path, 'utf8')] decodes it, and which of
    the four operations the script performs on it fail.  A write that fails
    does so at the open, which changes nothing ([write_breaks] is [None]),
    or after it ([Some k]): [fs.writeFile] opens the file with the flag
    ['w'], which truncates it, and is not atomic, so that the file is then
    left with the first [k] bytes of the data, those written until then. *)
Record File := mkFile {
  f_name : jsstring;
  f_size : Z;
  f_text : jsstring;
  stat_fails : bool;
  unlink_fails : bool;
  read_fails : bool;
  write_fails : bool;
  write_breaks : option Z
}.

(** A directory entry as [fs.readdir(dir, { withFileTypes: true })] yields
    it: one for which [isDirectory()] holds, with the entries below it (and
    whether listing it is refused), or anything else. *)
#[warnings="-register-all"] Inductive Dirent :=
| DFile (f : File)
| DDir (name : jsstring) (readdir_fails : bool) (files : list Dirent).

Definition dirent_name (e : Dirent) : jsstring :=
  match e with
  | DFile f => f_name f
  | DDir name _ _ => name
  end.

(** Number of bytes of the UTF-8 encoding of a string: what [fs.stat]
    reports after [fs.writeFile(path, text)].  A surrogate pair takes four
    bytes, a lone surrogate is written as U+FFFD. *)
Definition is_high_surrogate (c : N) : bool := (55296 <=? c)%N && (c <=? 56319)%N.
Definition is_low_surrogate (c : N) : bool := (56320 <=? c)%N && (c <=? 57343)%N.

Fixpoint utf8_length (s : jsstring) : Z :=
  match s with
  | [] => 0
  | c :: rest =>
      if (c <? 128)%N then 1 + utf8_length rest
      else if (c <? 2048)%N then 2 + utf8_length rest
      else if is_high_surrogate c then
        match rest with
        | d :: rest' =>
            if is_low_surrogate d then 4 + utf8_length rest'
            else 3 + utf8_length rest
        | [] => 3
        end
      else 3 + utf8_length rest
  end.

(** What a read decodes from the first [k] bytes of the UTF-8 encoding of
    a string: the characters that are there whole, and U+FFFD for one that
    has been cut. *)
Definition REPLACEMENT_CHARACTER : N := 65533.

Fixpoint utf8_prefix (k : Z) (s : jsstring) : jsstring :=
  match s with
  | [] => []
  | c :: rest =>
      if k <=? 0 then []
      else if (c <? 128)%N then c :: utf8_prefix (k - 1) rest
      else if (c <? 2048)%N then
        if 2 <=? k then c :: utf8_prefix (k - 2) rest
        else [REPLACEMENT_CHARACTER]
      else if is_high_surrogate c then
        match rest with
        | d :: rest' =>
            if is_low_surrogate d then
              if 4 <=? k then c :: d :: utf8_prefix (k - 4) rest'
              else [REPLACEMENT_CHARACTER]
            else if 3 <=? k then c :: utf8_prefix (k - 3) rest
                 else [REPLACEMENT_CHARACTER]
        | [] => if 3 <=? k then [c] else [REPLACEMENT_CHARACTER]
        end
      else if 3 <=? k then c :: utf8_prefix (k - 3) rest
           else [REPLACEMENT_CHARACTER]
  end.

(** [fs.stat(path)], [fs.readFile(path, 'utf8')], [fs.unlink(path)] and
    [fs.writeFile(path, data)] on one file.  The first three change nothing
    when they fail. *)
Definition fs_stat (path : jsstring) (f : File) : JsError + Z :=
  if stat_fails f then inl (FsError "stat" path) else inr (f_size f).

Definition fs_readFile (path : jsstring) (f : File) : JsError + jsstring :=
  if read_fails f then inl (FsError "open" path) else inr (f_text f).

Definition fs_unlink (path : jsstring) (f : File) : JsError + unit :=
  if unlink_fails f then inl (FsError "unlink" path) else inr tt.

(** The file with another content. *)
Definition holding (size : Z) (text : jsstring) (f : File) : File :=
  mkFile (f_name f) size text (stat_fails f) (unlink_fails f) (read_fails f)
         (write_fails f) (write_breaks f).

(** The file as [fs.writeFile] leaves it, and the error it rejects with
    when it fails. *)
Definition fs_writeFile (path : jsstring) (data : jsstring) (f : File)
  : File * option JsError :=
  if write_fails f then
    match write_breaks f with
    | None => (f, Some (FsError "open" path))
    | Some k =>
        (holding (Z.max 0 (Z.min k (utf8_length data))) (utf8_prefix k data) f,
         Some (FsError "write" path))
    end
  else (holding (utf8_length data) data f, None).

End Node.
Import Node.

(** ** The script *)

Definition EXT_JS : jsstring := js ".js".
Definition EXT_JSON : jsstring := js ".json".
Definition EXT_MD : jsstring := js ".md".
Definition EXT_TS : jsstring := js ".ts".
Definition ESLINT_FILES : list jsstring :=
  List.map js
    [".eslintrc"; ".eslintrc.js"; ".eslintrc.json"; ".eslintrc.yml";
     ".eslintrc.yaml"; ".eslintrc.cjs"; ".eslintrc.config.js";
     ".eslintrc.config.cjs"; ".eslintrc.base.js"; ".eslintrc.base.cjs";
     ".eslintrc.jsonc"; ".eslintrc.ymlc"; ".eslintrc.yamlc";
     ".eslintrc.toml"; ".eslintrc.cjson"; ".eslintrc.json5"; ".eslintrc5";
     ".eslintignore"; ".eslintcache"; ".eslintresult"]%string.

(** The global [stats] object. *)
Record Stats := mkStats {
  jsFilesCompressed : Z;
  jsonFilesCompressed : Z;
  deletedFiles : Z;
  spaceSaved : Z;
  spaceFreed : Z
}.

Definition stats0 : Stats := mkStats 0 0 0 0 0.

(** The lines the script prints, by the statement that prints them. *)
Inductive LogLine :=
| Log_DeletedFolder (dir : jsstring)
| Log_NpmInstalled
| Err_Caught (err : JsError)
| Err_CommandExecution (err : JsError)
| Err_Deleting (path : jsstring) (err : JsError)
| Log_Deleted (path : jsstring) (size : Z)
| Log_Compressing (path : jsstring)
| Err_Compressing (path : jsstring) (err : JsError)
| Err_CompressingJavaScript (path : jsstring) (err : JsError)
| Err_Json (path : jsstring) (err : JsError)
| Log_Summary (s : Stats).

(** What the script mutates besides the tree: [stats] and the console.
    [visited] is a ghost counter of the calls of [processFile]; the script
    has no such variable. *)
Record World := mkWorld {
  stats : Stats;
  console : list LogLine;
  visited : Z
}.

Definition world0 : World := mkWorld stats0 [] 0.

Definition print (l : LogLine) (w : World) : World :=
  mkWorld (stats w) (console w ++ [l]) (visited w).

Definition set_stats (f : Stats -> Stats) (w : World) : World :=
  mkWorld (f (stats w)) (console w) (visited w).

Definition visit (w : World) : World :=
  mkWorld (stats w) (console w) (visited w + 1).

(** How an awaited call ends. *)
Inductive Outcome :=
| Resolved
| Rejected (err : JsError).

(** /import\s|export\s/ : the characters [\s] matches (white space and line
    terminators), a literal followed by one of them at the head of a text,
    and [RegExp.prototype.test]: a match at some position. *)
Definition is_space (c : N) : bool :=
  ((9 <=? c) && (c <=? 13) || (c =? 32) || (c =? 160) || (c =? 5760)
   || (8192 <=? c) && (c <=? 8202) || (c =? 8232) || (c =? 8233)
   || (c =? 8239) || (c =? 8287) || (c =? 12288) || (c =? 65279))%N.

Fixpoint starts_with (lit text : jsstring) : option jsstring :=
  match lit, text with
  | [], _ => Some text
  | c :: lit', d :: text' => if (c =? d)%N then starts_with lit' text' else None
  | _ :: _, [] => None
  end.

Definition keyword_space_at (kw text : jsstring) : bool :=
  match starts_with kw text with
  | Some (c :: _) => is_space c
  | _ => false
  end.

Definition module_marker_at (text : jsstring) : bool :=
  keyword_space_at (js "import") text || keyword_space_at (js "export") text.

Fixpoint module_regex_test (text : jsstring) : bool :=
  module_marker_at text
  || match text with
     | [] => false
     | _ :: rest => module_regex_test rest
     end.

(** [node_modules] as the script finds it: missing, or a directory. *)
Inductive Disk :=
| Absent
| Present (readdir_fails : bool) (files : list Dirent).

(** What the script cannot see in advance: whether removing the directory
    fails and what is then left of it (all of it, or what had not yet been
    removed), how [npm install --omit=dev] ends, and the directory it leaves
    behind. *)
Record Env := mkEnv {
  rm_refused : bool;
  rm_leaves : Disk;
  npm_error : option JsError;
  npm_disk : Disk
}.

(** [fs.rm(dir, { recursive: true })]: what it leaves, and the error it
    rejects with when it fails.  Without [force] a missing directory is an
    error. *)
Definition fs_rm (dir : jsstring) (refused : bool) (leaves : Disk) (d : Disk)
  : Disk * option JsError :=
  match d with
  | Absent => (Absent, Some (FsError "rm" dir))
  | Present _ _ =>
      if refused then (leaves, Some (FsError "rm" dir)) else (Absent, None)
  end.

Section Script.

(** [Terser.minify(code, minifyOptions)] awaited: it throws, or resolves to
    a result whose [code] is a string or is missing. *)
Variable Terser_minify : jsstring -> JsError + option jsstring.

(** [JSON.parse] (which throws a [SyntaxError] on a text that is not JSON)
    and [JSON.stringify] on the values [JSON.parse] returns. *)
Variable JsValue : Type.
Variable JSON_parse : jsstring -> option JsValue.
Variable JSON_stringify : JsValue -> jsstring.

(** [stats.jsFilesCompressed++], [stats.spaceSaved += n] and the like. *)
Definition incr_jsFilesCompressed (s : Stats) : Stats :=
  mkStats (jsFilesCompressed s + 1) (jsonFilesCompressed s) (deletedFiles s)
          (spaceSaved s) (spaceFreed s).
Definition incr_jsonFilesCompressed (s : Stats) : Stats :=
  mkStats (jsFilesCompressed s) (jsonFilesCompressed s + 1) (deletedFiles s)
          (spaceSaved s) (spaceFreed s).
Definition incr_deletedFiles (s : Stats) : Stats :=
  mkStats (jsFilesCompressed s) (jsonFilesCompressed s) (deletedFiles s + 1)
          (spaceSaved s) (spaceFreed s).
Definition add_spaceSaved (n : Z) (s : Stats) : Stats :=
  mkStats (jsFilesCompressed s) (jsonFilesCompressed s) (deletedFiles s)
          (spaceSaved s + n) (spaceFreed s).
Definition add_spaceFreed (n : Z) (s : Stats) : Stats :=
  mkStats (jsFilesCompressed s) (jsonFilesCompressed s) (deletedFiles s)
          (spaceSaved s) (spaceFreed s + n).

(** A string in a condition: the empty string is falsy. *)
Definition truthy (s : jsstring) : bool :=
  match s with [] => false | _ :: _ => true end.

(** [executeCommand(command)] *)
Definition executeCommand (env : Env) (command : jsstring) (w : World)
  : World * Outcome :=
  match npm_error env with
  | Some error => (print (Err_CommandExecution error) w, Rejected error)
  | None => (w, Resolved)
  end.

(** [compressJavaScriptFile(filePath)]; the file after the call is
    returned with the world. *)
Definition compressJavaScriptFile (filePath : jsstring) (file : File) (w : World)
  : World * File * Outcome :=
  match fs_readFile filePath file with
  | inl err => (w, file, Rejected err)
  | inr originalCode =>
      if negb (module_regex_test originalCode) then
        match Terser_minify originalCode with
        | inl err =>
            (print (Err_CompressingJavaScript filePath err) w, file, Resolved)
        | inr None => (w, file, Resolved)
        | inr (Some code) =>
            if truthy code && (length code <? length originalCode) then
              match fs_writeFile filePath code file with
              | (file', Some err) =>
                  (print (Err_CompressingJavaScript filePath err) w, file',
                   Resolved)
              | (file', None) =>
                  let w1 := set_stats incr_jsFilesCompressed w in
                  let w2 :=
                    set_stats
                      (add_spaceSaved (length originalCode - length code)) w1 in
                  (w2, file', Resolved)
              end
            else (w, file, Resolved)
        end
      else (w, file, Resolved)
  end.

(** [compressJsonFile(filePath)] *)
Definition compressJsonFile (filePath : jsstring) (file : File) (w : World)
  : World * File * Outcome :=
  match fs_readFile filePath file with
  | inl err => (w, file, Rejected err)
  | inr originalContent =>
      match JSON_parse originalContent with
      | None => (print (Err_Json filePath SyntaxError) w, file, Resolved)
      | Some json =>
          let compressedContent := JSON_stringify json in
          if length compressedContent <? length originalContent then
            match fs_writeFile filePath compressedContent file with
            | (file', Some e) => (print (Err_Json filePath e) w, file', Resolved)
            | (file', None) =>
                let w1 := set_stats incr_jsonFilesCompressed w in
                let w2 :=
                  set_stats
                    (add_spaceSaved
                       (length originalContent - length compressedContent))
                    w1 in
                (w2, file', Resolved)
            end
          else (w, file, Resolved)
      end
  end.

(** The [catch] clause of [compressFile]: a rejection of either compressor
    becomes a line on the console. *)
Definition catch_compress (filePath : jsstring) (r : World * File * Outcome)
  : World * File * Outcome :=
  match r with
  | (w, file, Resolved) => (w, file, Resolved)
  | (w, file, Rejected err) =>
      (print (Err_Compressing filePath err) w, file, Resolved)
  end.

(** [compressFile(filePath)] *)
Definition compressFile (filePath : jsstring) (file : File) (w : World)
  : World * File * Outcome :=
  let ext := Path.extname filePath in
  let w := print (Log_Compressing filePath) w in
  catch_compress filePath
    (if eqb ext EXT_JS then compressJavaScriptFile filePath file w
     else if eqb ext EXT_JSON then compressJsonFile filePath file w
     else (w, file, Resolved)).

(** The first branch of [processFile]: the file is measured, removed and
    counted. *)
Definition deleteFile (file : File) (fullPath : jsstring) (w : World)
  : World * option File * Outcome :=
  match fs_stat fullPath file with
  | inl err => (w, Some file, Rejected err)
  | inr size =>
      let '(w1, remains) :=
        match fs_unlink fullPath file with
        | inr _ => (w, None)
        | inl err => (print (Err_Deleting fullPath err) w, Some file)
        end in
      let w2 := print (Log_Deleted fullPath size) w1 in
      let w3 := set_stats incr_deletedFiles w2 in
      let w4 := set_stats (add_spaceFreed size) w3 in
      (w4, remains, Resolved)
  end.

(** [processFile(file, fullPath)]; [None] is a file that is no longer
    there. *)
Definition processFile (file : File) (fullPath : jsstring) (w : World)
  : World * option File * Outcome :=
  let w := visit w in
  let ext := Path.extname (f_name file) in
  if eqb ext EXT_MD || eqb ext EXT_TS
     || includes ESLINT_FILES (toLowerCase (f_name file))
  then deleteFile file fullPath w
  else
    let '(w', file', o) := compressFile fullPath file w in
    (w', Some file', o).

(** [for (const file of files) { await body(file) }]: a rejection leaves
    the loop, and the entries not reached stay as they are. *)
Section ForOf.
Variable body : Dirent -> World -> World * option Dirent * Outcome.

Fixpoint for_of (files : list Dirent) (w : World)
  : World * list Dirent * Outcome :=
  match files with
  | [] => (w, [], Resolved)
  | file :: rest =>
      match body file w with
      | (w1, remains, Rejected err) =>
          (w1, match remains with Some e => e :: rest | None => rest end,
           Rejected err)
      | (w1, remains, Resolved) =>
          let '(w2, rest', o) := for_of rest w1 in
          (w2, match remains with Some e => e :: rest' | None => rest' end, o)
      end
  end.
End ForOf.

(** The body of the loop of [processDirectory(dir)] on one entry, with
    the recursive call of [processDirectory] unfolded in it. *)
Fixpoint processDirent (dir : jsstring) (file : Dirent) (w : World)
  : World * option Dirent * Outcome :=
  let fullPath := Path.join dir (dirent_name file) in
  match file with
  | DDir name fails files =>
      if fails then (w, Some file, Rejected (FsError "scandir" fullPath))
      else
        let '(w', files', o) := for_of (processDirent fullPath) files w in
        (w', Some (DDir name fails files'), o)
  | DFile f =>
      let '(w', remains, o) := processFile f fullPath w in
      (w', option_map DFile remains, o)
  end.

(** [processDirectory(dir)] *)
Definition processDirectory (dir : jsstring) (d : Disk) (w : World)
  : World * Disk * Outcome :=
  match d with
  | Absent => (w, Absent, Rejected (FsError "scandir" dir))
  | Present fails files =>
      if fails then (w, d, Rejected (FsError "scandir" dir))
      else
        let '(w', files', o) := for_of (processDirent dir) files w in
        (w', Present fails files', o)
  end.

(** [deleteAndCompress(dir)]: never rejects. *)
Definition deleteAndCompress (env : Env) (dir : jsstring) (d : Disk) (w : World)
  : World * Disk :=
  match fs_rm dir (rm_refused env) (rm_leaves env) d with
  | (rest, Some err) => (print (Err_Caught err) w, rest)
  | (_, None) =>
      let w := print (Log_DeletedFolder dir) w in
      match executeCommand env (js "npm install --omit=dev") w with
      | (w, Rejected err) => (print (Err_Caught err) w, npm_disk env)
      | (w, Resolved) =>
          let w := print Log_NpmInstalled w in
          match processDirectory dir (npm_disk env) w with
          | (w, d', Rejected err) => (print (Err_Caught err) w, d')
          | (w, d', Resolved) => (w, d')
          end
      end
  end.

(** The last statement of the script:
    [deleteAndCompress('node_modules').then(() => console.log(...))]. *)
Definition main (env : Env) (d : Disk) : World * Disk :=
  let '(w, d') := deleteAndCompress env (js "node_modules") d world0 in
  (print (Log_Summary (stats w)) w, d').

End Script.

Arguments compressJsonFile {JsValue} JSON_parse JSON_stringify.
Arguments compressFile Terser_minify {JsValue} JSON_parse JSON_stringify.
Arguments processFile Terser_minify {JsValue} JSON_parse JSON_stringify.
Arguments processDirent Terser_minify {JsValue} JSON_parse JSON_stringify.
Arguments processDirectory Terser_minify {JsValue} JSON_parse JSON_stringify.
Arguments deleteAndCompress Terser_minify {JsValue} JSON_parse JSON_stringify.
Arguments main Terser_minify {JsValue} JSON_parse JSON_stringify.

(** ** The classifier of the specification

    The script has no classifier of its own: the decision is the path taken
    through [processFile] and [compressFile].  This is the function the
    specification describes, to be compared with that path. *)

Inductive Decision := Delete | CompressJS | CompressJSON | Skip.

Definition deletable (name : jsstring) : bool :=
  eqb (Path.extname name) EXT_MD || eqb (Path.extname name) EXT_TS
  || includes ESLINT_FILES (toLowerCase name).

Definition classify (name : jsstring) : Decision :=
  if deletable name then Delete
  else if eqb (Path.extname name) EXT_JS then CompressJS
  else if eqb (Path.extname name) EXT_JSON then CompressJSON
  else Skip.

Section Dispatch.
Variable Terser_minify : jsstring -> JsError + option jsstring.
Variable JsValue : Type.
Variable JSON_parse : jsstring -> option JsValue.
Variable JSON_stringify : JsValue -> jsstring.

(** What the walker does with a file once the decision is taken. *)
Definition dispatch (d : Decision) (file : File) (fullPath : jsstring) (w : World)
  : World * option File * Outcome :=
  let some r := match r with (w', file', o) => (w', Some file', o) end in
  match d with
  | Delete => deleteFile file fullPath (visit w)
  | CompressJS =>
      some (catch_compress fullPath
              (compressJavaScriptFile Terser_minify fullPath file
                 (print (Log_Compressing fullPath) (visit w))))
  | CompressJSON =>
      some (catch_compress fullPath
              (compressJsonFile JSON_parse JSON_stringify fullPath file
                 (print (Log_Compressing fullPath) (visit w))))
  | Skip => (print (Log_Compressing fullPath) (visit w), Some file, Resolved)
  end.

End Dispatch.

Arguments dispatch Terser_minify {JsValue} JSON_parse JSON_stringify.

(** The files of a tree, in the order of the walk. *)
Fixpoint files_of_dirent (e : Dirent) : list File :=
  match e with
  | DFile f => [f]
  | DDir _ _ files => flat_map files_of_dirent files
  end.

Definition files_of (d : Disk) : list File :=
  match d with
  | Absent => []
  | Present _ files => flat_map files_of_dirent files
  end.


(** The marker of the specification: the word [import] or [export]
    followed by a white-space character, anywhere in the text. *)
Definition has_module_marker (text : jsstring) : Prop :=
  exists before c after,
    is_space c = true /\
    (text = before ++ js "import" ++ c :: after \/
     text = before ++ js "export" ++ c :: after).

(** One visit of a file, as the specification lets it change the
    statistics: not at all, or by one deletion of a file that is classified
    Delete, or by one compression of a file that is classified CompressJS
    or CompressJSON. *)
Inductive file_step (f : File) (s : Stats) : Stats -> Prop :=
| step_nothing : file_step f s s
| step_deleted :
    classify (f_name f) = Delete ->
    file_step f s
      (mkStats (jsFilesCompressed s) (jsonFilesCompressed s)
               (deletedFiles s + 1) (spaceSaved s) (spaceFreed s + f_size f))
| step_js (n : Z) :
    classify (f_name f) = CompressJS -> 0 < n <= length (f_text f) ->
    file_step f s
      (mkStats (jsFilesCompressed s + 1) (jsonFilesCompressed s)
               (deletedFiles s) (spaceSaved s + n) (spaceFreed s))
| step_json (n : Z) :
    classify (f_name f) = CompressJSON -> 0 < n <= length (f_text f) ->
    file_step f s
      (mkStats (jsFilesCompressed s) (jsonFilesCompressed s + 1)
               (deletedFiles s) (spaceSaved s + n) (spaceFreed s)).

(** The statistics along the files visited, in order. *)
Inductive run_steps : list File -> Stats -> Stats -> Prop :=
| run_done (s : Stats) : run_steps [] s s
| run_file (f : File) (fs : list File) (s1 s2 s3 : Stats) :
    file_step f s1 s2 -> run_steps fs s2 s3 -> run_steps (f :: fs) s1 s3.

(** A tree in which every directory can be listed. *)
Fixpoint listable (e : Dirent) : bool :=
  match e with
  | DFile _ => true
  | DDir _ fails files => negb fails && forallb listable files
  end.

(** A name as a directory listing gives it: not empty, no separator. *)
Definition entry_name (name : jsstring) : Prop :=
  name <> [] /\ ~ In Path.CHAR_FORWARD_SLASH name.

(** A walk over a tree whose files are [all]: the files it has visited are
    the first ones of [all], all of them when it resolves, the ghost counter
    has counted them, and the statistics have moved along them. *)
Definition walked (all : list File) (w w' : World) (o : Outcome) : Prop :=
  exists seen rest,
    all = seen ++ rest /\
    (o = Resolved -> rest = []) /\
    visited w' = visited w + Z.of_nat (List.length seen) /\
    run_steps seen (stats w) (stats w').

(** The files for which [processFile] rejects: those it measures and
    cannot. *)
Definition stat_refused (f : File) : bool :=
  deletable (f_name f) && stat_fails f.

(** The files on which a write fails after the open. *)
Definition write_breaks_off (f : File) : bool :=
  write_fails f
  && match write_breaks f with Some _ => true | None => false end.

(** Trees whose files bear names of directory entries, and lists of files
    none of which makes [processFile] reject. *)
Definition names_ok (fs : list File) : Prop :=
  Forall (fun f => entry_name (f_name f)) fs.

Definition no_stat_refused (fs : list File) : Prop :=
  Forall (fun f => stat_refused f = false) fs.


(** The two steps of the run that are fatal: the removal of the directory
    and the reinstallation. *)
Definition removal_fails (env : Env) (d : Disk) : Prop :=
  exists err,
    snd (fs_rm (js "node_modules") (rm_refused env) (rm_leaves env) d)
    = Some err.

Definition reinstall_fails (env : Env) : Prop :=
  exists err, npm_error env = Some err.

Definition is_summary (l : LogLine) : bool :=
  match l with Log_Summary _ => true | _ => false end.

(** ** Numbers of JavaScript *)

Module Number.

(** A Number is an IEEE 754 binary64 value: its sign bit and the other 63
    bits, exponent and fraction, read as an integer.  [JSON.parse] never
    yields a NaN; the magnitudes it yields go from 0 up to that of
    Infinity. *)
Record float64 := mkFloat { negative : bool; magnitude : Z }.

Definition infinity_bits : Z := 2047 * 2 ^ 52.

Definition isFinite (x : float64) : bool := magnitude x <? infinity_bits.

(** The value of a magnitude, in units of 2^-1074: a subnormal number is its
    fraction, a normal one has the hidden bit and is scaled by its
    exponent. *)
Definition scaled (i : Z) : Z :=
  let e := i / 2 ^ 52 in
  let f := i mod 2 ^ 52 in
  if e =? 0 then f else Z.shiftl (2 ^ 52 + f) (e - 1).

(** [scaled i / 2^1074 <= num / den] *)
Definition below (num den : Z) (i : Z) : bool :=
  (i <=? infinity_bits) && (scaled i * den <=? Z.shiftl num 1074).

(** The greatest magnitude not above [num / den], bit by bit from the
    top. *)
Fixpoint floor_bits (num den : Z) (bit : nat) (acc : Z) : Z :=
  match bit with
  | O => acc
  | S b =>
      let candidate := acc + 2 ^ Z.of_nat b in
      floor_bits num den b (if below num den candidate then candidate else acc)
  end.

(** The magnitude nearest to [num / den], ties to the even one: the Number
    value for a positive rational. *)
Definition round_magnitude (num den : Z) : Z :=
  let i := floor_bits num den 63 0 in
  if i =? infinity_bits then i
  else
    let twice := Z.shiftl num 1075 in
    let mid := (scaled i + scaled (i + 1)) * den in
    if twice <? mid then i
    else if mid <? twice then i + 1
    else if Z.even i then i else i + 1.

(** The Number value for [d * 10^e], [d] positive. *)
Definition round_decimal (d e : Z) : Z :=
  if 0 <=? e then round_magnitude (d * 10 ^ e) 1
  else round_magnitude d (10 ^ (- e)).

(** *** Numeric literals of JSON *)

Definition is_digit (c : N) : bool := ((48 <=? c) && (c <=? 57))%N.

Fixpoint span_digits (s : jsstring) : jsstring * jsstring :=
  match s with
  | c :: rest =>
      if is_digit c
      then let '(ds, rest') := span_digits rest in (c :: ds, rest')
      else ([], s)
  | [] => ([], [])
  end.

(** The digits of a string as a decimal numeral, and its value. *)
Definition digit (c : N) (d : Decimal.uint) : Decimal.uint :=
  if (c =? 48)%N then Decimal.D0 d
  else if (c =? 49)%N then Decimal.D1 d
  else if (c =? 50)%N then Decimal.D2 d
  else if (c =? 51)%N then Decimal.D3 d
  else if (c =? 52)%N then Decimal.D4 d
  else if (c =? 53)%N then Decimal.D5 d
  else if (c =? 54)%N then Decimal.D6 d
  else if (c =? 55)%N then Decimal.D7 d
  else if (c =? 56)%N then Decimal.D8 d
  else Decimal.D9 d.

Definition digits_uint (ds : jsstring) : Decimal.uint :=
  fold_right digit Decimal.Nil ds.

Definition digits_value (ds : jsstring) : Z :=
  Z.of_N (N.of_uint (digits_uint ds)).

(** A literal is an optional minus sign, an integer part without a
    superfluous leading zero, an optional point with digits after it, and an
    optional exponent, [e] or [E], signed or not.  The result is the sign, the
    digits before and after the point, and the exponent. *)
Definition scan_sign (s : jsstring) : bool * jsstring :=
  match s with
  | c :: r => if (c =? 45)%N then (true, r) else (false, s)
  | [] => (false, s)
  end.

Definition scan_fraction (s : jsstring) : option (jsstring * jsstring) :=
  match s with
  | c :: r =>
      if (c =? 46)%N then
        match span_digits r with
        | ([], _) => None
        | (ds, r') => Some (ds, r')
        end
      else Some ([], s)
  | [] => Some ([], s)
  end.

Definition scan_exponent (s : jsstring) : option (Z * jsstring) :=
  match s with
  | c :: r =>
      if (c =? 101)%N || (c =? 69)%N then
        let '(minus, r1) :=
          match r with
          | d :: r' =>
              if (d =? 45)%N then (true, r')
              else if (d =? 43)%N then (false, r')
              else (false, r)
          | [] => (false, r)
          end in
        match span_digits r1 with
        | ([], _) => None
        | (ds, r2) =>
            Some (if minus then - digits_value ds else digits_value ds, r2)
        end
      else Some (0, s)
  | [] => Some (0, s)
  end.

Definition scan_number (s : jsstring) : option (bool * jsstring * jsstring * Z) :=
  let '(neg, s1) := scan_sign s in
  let '(int_part, s2) := span_digits s1 in
  match int_part with
  | [] => None
  | first :: more =>
      if (first =? 48)%N && negb (match more with [] => true | _ => false end)
      then None
      else
        match scan_fraction s2 with
        | None => None
        | Some (frac_part, s3) =>
            match scan_exponent s3 with
            | Some (e, []) => Some (neg, int_part, frac_part, e)
            | _ => None
            end
        end
  end.

(** The Number a literal denotes. *)
Definition number_value (s : jsstring) : option float64 :=
  match scan_number s with
  | None => None
  | Some (neg, int_part, frac_part, e) =>
      let d := digits_value (int_part ++ frac_part) in
      if d =? 0 then Some (mkFloat neg 0)
      else Some (mkFloat neg
                   (round_decimal d (e - Z.of_nat (List.length frac_part))))
  end.

(** *** [Number::toString] *)

Fixpoint uint_digits (d : Decimal.uint) : jsstring :=
  match d with
  | Decimal.Nil => []
  | Decimal.D0 d => 48%N :: uint_digits d
  | Decimal.D1 d => 49%N :: uint_digits d
  | Decimal.D2 d => 50%N :: uint_digits d
  | Decimal.D3 d => 51%N :: uint_digits d
  | Decimal.D4 d => 52%N :: uint_digits d
  | Decimal.D5 d => 53%N :: uint_digits d
  | Decimal.D6 d => 54%N :: uint_digits d
  | Decimal.D7 d => 55%N :: uint_digits d
  | Decimal.D8 d => 56%N :: uint_digits d
  | Decimal.D9 d => 57%N :: uint_digits d
  end.

(** The decimal representation of a natural number, without leading
    zeros. *)
Definition decimal (n : Z) : jsstring := uint_digits (N.to_uint (Z.to_N n)).

(** [a / 2^1074 < 10^n] *)
Definition below_pow10 (a n : Z) : bool :=
  if 0 <=? n then a <? Z.shiftl (10 ^ n) 1074
  else a * 10 ^ (- n) <? Z.shiftl 1 1074.

(** The least [n], from [n] on, with [a / 2^1074 < 10^n]. *)
Fixpoint decimal_exponent (fuel : nat) (a n : Z) : Z :=
  match fuel with
  | O => n
  | S f => if below_pow10 a n then n else decimal_exponent f a (n + 1)
  end.

(** The two integers around [a / 2^1074 / 10^p], the nearer first (the
    even one when they are as near). *)
Definition candidates (a p : Z) : list Z :=
  let '(lo, below, above) :=
    if 0 <=? p then
      let unit := Z.shiftl (10 ^ p) 1074 in
      let lo := a / unit in
      (lo, a - lo * unit, (lo + 1) * unit - a)
    else
      let x := a * 10 ^ (- p) in
      let lo := Z.shiftr x 1074 in
      (lo, x - Z.shiftl lo 1074, Z.shiftl (lo + 1) 1074 - x) in
  if (below <? above) || ((below =? above) && Z.even lo)
  then [lo; lo + 1] else [lo + 1; lo].

(** Decimal digits [s] and the exponent [p] of the last of them, for the
    magnitude [i]: the fewest digits that denote it, from [k] digits on. *)
Fixpoint shortest (ks : list Z) (i a n : Z) : option (Z * Z) :=
  match ks with
  | [] => None
  | k :: ks' =>
      let p := n - k in
      match filter (fun s => round_decimal s p =? i) (candidates a p) with
      | s :: _ => Some (s, p)
      | [] => shortest ks' i a n
      end
  end.

Fixpoint strip_zeros (fuel : nat) (s p : Z) : Z * Z :=
  match fuel with
  | O => (s, p)
  | S f => if s mod 10 =? 0 then strip_zeros f (s / 10) (p + 1) else (s, p)
  end.

(** The digits and the position of the decimal point ([s], [n] of the
    standard): the shortest digits, or, had seventeen digits not been
    enough, the exact expansion. *)
Definition digits_and_point (i : Z) : jsstring * Z :=
  let a := scaled i in
  let n := decimal_exponent 640 a (-323) in
  let '(s, p) :=
    match shortest (List.map Z.of_nat (seq 1 17)) i a n with
    | Some sp => sp
    | None => (a * 5 ^ 1074, -1074)
    end in
  let '(s, p) := strip_zeros 1100 s p in
  let ds := decimal s in
  (ds, p + Z.of_nat (List.length ds)).

Definition zeros (n : Z) : jsstring := repeat 48%N (Z.to_nat n).

(** Steps 6 to 10 of [Number::toString] for radix 10. *)
Definition format_decimal (ds : jsstring) (n : Z) : jsstring :=
  let k := Z.of_nat (List.length ds) in
  if (k <=? n) && (n <=? 21) then ds ++ zeros (n - k)
  else if (0 <? n) && (n <=? 21)
  then firstn (Z.to_nat n) ds ++ 46%N :: skipn (Z.to_nat n) ds
  else if (-6 <? n) && (n <=? 0)
  then 48%N :: 46%N :: zeros (- n) ++ ds
  else
    let e := n - 1 in
    let exponent :=
      101%N :: (if e <? 0 then 45%N else 43%N) :: decimal (Z.abs e) in
    match ds with
    | [d] => d :: exponent
    | d :: more => d :: 46%N :: more ++ exponent
    | [] => exponent
    end.

Definition toString (x : float64) : jsstring :=
  if magnitude x =? 0 then js "0"
  else
    (if negative x then [45%N] else [])
    ++ (if isFinite x then
          let '(ds, n) := digits_and_point (magnitude x) in
          format_decimal ds n
        else js "Infinity").

End Number.

(** ** [JSON.parse] and [JSON.stringify] *)

Module JSON.

(** The values [JSON.parse] returns.  An object is the list of its own
    properties in the order in which they are enumerated. *)
#[warnings="-register-all"] Inductive JsValue :=
| JNull
| JBool (b : bool)
| JNumber (x : Number.float64)
| JString (s : jsstring)
| JArray (items : list JsValue)
| JObject (props : list (jsstring * JsValue)).

(** *** Strings *)

Definition hex_digit_value (c : N) : option N :=
  if ((48 <=? c) && (c <=? 57))%N then Some (c - 48)%N
  else if ((97 <=? c) && (c <=? 102))%N then Some (c - 87)%N
  else if ((65 <=? c) && (c <=? 70))%N then Some (c - 55)%N
  else None.

Definition hex4_value (a b c d : N) : option N :=
  match hex_digit_value a, hex_digit_value b, hex_digit_value c,
        hex_digit_value d with
  | Some x, Some y, Some z, Some t =>
      Some (((x * 16 + y) * 16 + z) * 16 + t)%N
  | _, _, _, _ => None
  end.

(** What follows the opening quote of a string, up to the closing one. *)
Fixpoint parse_chars (s : jsstring) : option (jsstring * jsstring) :=
  let cons c r :=
    match r with
    | Some (str, rest) => Some (c :: str, rest)
    | None => None
    end in
  match s with
  | [] => None
  | c :: rest =>
      if (c =? 34)%N then Some ([], rest)
      else if (c =? 92)%N then
        match rest with
        | [] => None
        | e :: rest1 =>
            if (e =? 34)%N then cons 34%N (parse_chars rest1)
            else if (e =? 92)%N then cons 92%N (parse_chars rest1)
            else if (e =? 47)%N then cons 47%N (parse_chars rest1)
            else if (e =? 98)%N then cons 8%N (parse_chars rest1)
            else if (e =? 102)%N then cons 12%N (parse_chars rest1)
            else if (e =? 110)%N then cons 10%N (parse_chars rest1)
            else if (e =? 114)%N then cons 13%N (parse_chars rest1)
            else if (e =? 116)%N then cons 9%N (parse_chars rest1)
            else if (e =? 117)%N then
              match rest1 with
              | h1 :: h2 :: h3 :: h4 :: rest2 =>
                  match hex4_value h1 h2 h3 h4 with
                  | Some u => cons u (parse_chars rest2)
                  | None => None
                  end
              | _ => None
              end
            else None
        end
      else if (c <? 32)%N then None
      else cons c (parse_chars rest)
  end.

Definition hex_digit (n : N) : N :=
  if (n <? 10)%N then (48 + n)%N else (87 + n)%N.

(** [UnicodeEscape] *)
Definition unicode_escape (c : N) : jsstring :=
  [92; 117; hex_digit (c / 4096); hex_digit ((c / 256) mod 16);
   hex_digit ((c / 16) mod 16); hex_digit (c mod 16)]%N.

(** One code point of [QuoteJSONString] that is a single code unit. *)
Definition quote_unit (c : N) : jsstring :=
  if (c =? 8)%N then [92; 98]%N
  else if (c =? 9)%N then [92; 116]%N
  else if (c =? 10)%N then [92; 110]%N
  else if (c =? 12)%N then [92; 102]%N
  else if (c =? 13)%N then [92; 114]%N
  else if (c =? 34)%N then [92; 34]%N
  else if (c =? 92)%N then [92; 92]%N
  else if (c <? 32)%N || is_high_surrogate c || is_low_surrogate c
  then unicode_escape c
  else [c].

(** The code points of a string in turn: a leading surrogate followed by a
    trailing one is one code point and is copied. *)
Fixpoint quote_chars (s : jsstring) : jsstring :=
  match s with
  | [] => []
  | c :: rest =>
      if is_high_surrogate c then
        match rest with
        | d :: rest' =>
            if is_low_surrogate d then c :: d :: quote_chars rest'
            else quote_unit c ++ quote_chars rest
        | [] => quote_unit c
        end
      else quote_unit c ++ quote_chars rest
  end.

(** [QuoteJSONString] *)
Definition quote (s : jsstring) : jsstring := 34%N :: quote_chars s ++ [34%N].

(** *** Objects *)

(** An array index: the canonical numeric string of an integer from 0 to
    2^32 - 2. *)
Definition array_index (key : jsstring) : option Z :=
  match key with
  | [] => None
  | first :: more =>
      if forallb Number.is_digit key
         && negb ((first =? 48)%N && negb (match more with [] => true | _ => false end))
         && (Number.digits_value key <=? 4294967294)
      then Some (Number.digits_value key)
      else None
  end.

Definition has_key (key : jsstring) (props : list (jsstring * JsValue)) : bool :=
  existsb (fun p => eqb (fst p) key) props.

Fixpoint replace_value (key : jsstring) (v : JsValue)
  (props : list (jsstring * JsValue)) : list (jsstring * JsValue) :=
  match props with
  | [] => []
  | (k, old) :: rest =>
      if eqb k key then (k, v) :: rest
      else (k, old) :: replace_value key v rest
  end.

(** A new array index goes before the first property that is not an array
    index or is a greater one. *)
Fixpoint insert_index (n : Z) (key : jsstring) (v : JsValue)
  (props : list (jsstring * JsValue)) : list (jsstring * JsValue) :=
  match props with
  | [] => [(key, v)]
  | (k, old) :: rest =>
      match array_index k with
      | Some m =>
          if m <? n then (k, old) :: insert_index n key v rest
          else (key, v) :: props
      | None => (key, v) :: props
      end
  end.

(** [CreateDataProperty(object, key, v)], on the properties as
    [OrdinaryOwnPropertyKeys] orders them: array indices first, ascending,
    then the other keys in the order of their creation. *)
Definition define_property (props : list (jsstring * JsValue))
  (member : jsstring * JsValue) : list (jsstring * JsValue) :=
  let '(key, v) := member in
  if has_key key props then replace_value key v props
  else
    match array_index key with
    | Some n => insert_index n key v props
    | None => props ++ [member]
    end.

(** *** [JSON.parse] *)

Definition is_json_space (c : N) : bool :=
  ((c =? 9) || (c =? 10) || (c =? 13) || (c =? 32))%N.

Fixpoint skip_ws (s : jsstring) : jsstring :=
  match s with
  | c :: rest => if is_json_space c then skip_ws rest else s
  | [] => []
  end.

Definition is_number_char (c : N) : bool :=
  (Number.is_digit c || (c =? 43) || (c =? 45) || (c =? 46) || (c =? 69)
   || (c =? 101))%N.

(** The characters of a numeric literal, as far as they go. *)
Fixpoint span_number (s : jsstring) : jsstring * jsstring :=
  match s with
  | c :: rest =>
      if is_number_char c
      then let '(tok, rest') := span_number rest in (c :: tok, rest')
      else ([], s)
  | [] => ([], [])
  end.

(** A value, the elements of an array after its bracket, and the members of
    an object after its brace; [fuel] bounds the depth of the calls. *)
Fixpoint parse_value (fuel : nat) (s : jsstring) {struct fuel}
  : option (JsValue * jsstring) :=
  match fuel with
  | O => None
  | S fuel' =>
      let s := skip_ws s in
      match s with
      | [] => None
      | c :: rest =>
          if (c =? 34)%N then
            match parse_chars rest with
            | Some (str, rest') => Some (JString str, rest')
            | None => None
            end
          else if (c =? 91)%N then
            match skip_ws rest with
            | d :: rest' =>
                if (d =? 93)%N then Some (JArray [], rest')
                else
                  match parse_elements fuel' rest with
                  | Some (items, rest'') => Some (JArray items, rest'')
                  | None => None
                  end
            | [] => None
            end
          else if (c =? 123)%N then
            match skip_ws rest with
            | d :: rest' =>
                if (d =? 125)%N then Some (JObject [], rest')
                else
                  match parse_members fuel' rest with
                  | Some (members, rest'') =>
                      Some (JObject (fold_left define_property members []),
                            rest'')
                  | None => None
                  end
            | [] => None
            end
          else if (c =? 45)%N || Number.is_digit c then
            let '(tok, rest') := span_number s in
            match Number.number_value tok with
            | Some x => Some (JNumber x, rest')
            | None => None
            end
          else
            match starts_with (js "null") s with
            | Some rest' => Some (JNull, rest')
            | None =>
                match starts_with (js "true") s with
                | Some rest' => Some (JBool true, rest')
                | None =>
                    match starts_with (js "false") s with
                    | Some rest' => Some (JBool false, rest')
                    | None => None
                    end
                end
            end
      end
  end
with parse_elements (fuel : nat) (s : jsstring) {struct fuel}
  : option (list JsValue * jsstring) :=
  match fuel with
  | O => None
  | S fuel' =>
      match parse_value fuel' s with
      | None => None
      | Some (v, rest) =>
          match skip_ws rest with
          | c :: rest' =>
              if (c =? 44)%N then
                match parse_elements fuel' rest' with
                | Some (vs, rest'') => Some (v :: vs, rest'')
                | None => None
                end
              else if (c =? 93)%N then Some ([v], rest')
              else None
          | [] => None
          end
      end
  end
with parse_members (fuel : nat) (s : jsstring) {struct fuel}
  : option (list (jsstring * JsValue) * jsstring) :=
  match fuel with
  | O => None
  | S fuel' =>
      match skip_ws s with
      | q :: rest =>
          if (q =? 34)%N then
            match parse_chars rest with
            | None => None
            | Some (key, rest1) =>
                match skip_ws rest1 with
                | colon :: rest2 =>
                    if (colon =? 58)%N then
                      match parse_value fuel' rest2 with
                      | None => None
                      | Some (v, rest3) =>
                          match skip_ws rest3 with
                          | c :: rest4 =>
                              if (c =? 44)%N then
                                match parse_members fuel' rest4 with
                                | Some (ms, rest5) =>
                                    Some ((key, v) :: ms, rest5)
                                | None => None
                                end
                              else if (c =? 125)%N then Some ([(key, v)], rest4)
                              else None
                          | [] => None
                          end
                      end
                    else None
                | [] => None
                end
            end
          else None
      | [] => None
      end
  end.

(** [JSON.parse(text)]: one value, white space around it and nothing
    else; [None] is the [SyntaxError]. *)
Definition parse (text : jsstring) : option JsValue :=
  match parse_value (S (List.length text)) text with
  | Some (v, rest) =>
      match skip_ws rest with
      | [] => Some v
      | _ :: _ => None
      end
  | None => None
  end.

(** *** [JSON.stringify] *)

Fixpoint join (sep : jsstring) (parts : list jsstring) : jsstring :=
  match parts with
  | [] => []
  | [p] => p
  | p :: more => p ++ sep ++ join sep more
  end.

(** [JSON.stringify(value)] without replacer and indentation. *)
Fixpoint stringify (v : JsValue) : jsstring :=
  match v with
  | JNull => js "null"
  | JBool true => js "true"
  | JBool false => js "false"
  | JNumber x => if Number.isFinite x then Number.toString x else js "null"
  | JString s => quote s
  | JArray items => 91%N :: join [44%N] (List.map stringify items) ++ [93%N]
  | JObject props =>
      123%N
      :: join [44%N]
           (List.map (fun p => quote (fst p) ++ 58%N :: stringify (snd p)) props)
      ++ [125%N]
  end.

(** *** Deep equality

    Numbers are compared as [===] compares them, for which the two zeros
    are equal; arrays element by element; objects property by property in
    the order of enumeration. *)
Definition number_equal (x y : Number.float64) : bool :=
  (Number.magnitude x =? Number.magnitude y)
  && ((Number.magnitude x =? 0) || Bool.eqb (Number.negative x) (Number.negative y)).

Fixpoint deep_equal (a b : JsValue) {struct a} : bool :=
  match a, b with
  | JNull, JNull => true
  | JBool x, JBool y => Bool.eqb x y
  | JNumber x, JNumber y => number_equal x y
  | JString x, JString y => eqb x y
  | JArray xs, JArray ys =>
      (fix all2 (xs ys : list JsValue) {struct xs} : bool :=
         match xs, ys with
         | [], [] => true
         | x :: xs', y :: ys' => deep_equal x y && all2 xs' ys'
         | _, _ => false
         end) xs ys
  | JObject ps, JObject qs =>
      (fix all2 (ps qs : list (jsstring * JsValue)) {struct ps} : bool :=
         match ps, qs with
         | [], [] => true
         | p :: ps', q :: qs' =>
             eqb (fst p) (fst q) && deep_equal (snd p) (snd q) && all2 ps' qs'
         | _, _ => false
         end) ps qs
  | _, _ => false
  end.

(** *** What [JSON.parse] returns, and what can be read back *)

(** Keys in the order of enumeration: distinct, an array index before
    every greater array index and before every other key. *)
Fixpoint canonical (keys : list jsstring) : Prop :=
  match keys with
  | [] => True
  | k :: rest =>
      ~ In k rest /\ canonical rest /\
      match array_index k with
      | Some n =>
          Forall (fun k' => match array_index k' with
                            | Some m => n < m
                            | None => True
                            end) rest
      | None => Forall (fun k' => array_index k' = None) rest
      end
  end.

#[warnings="-register-all"] Inductive well_formed : JsValue -> Prop :=
| wf_null : well_formed JNull
| wf_bool (b : bool) : well_formed (JBool b)
| wf_number (x : Number.float64) : well_formed (JNumber x)
| wf_string (s : jsstring) : well_formed (JString s)
| wf_array (items : list JsValue) :
    Forall well_formed items -> well_formed (JArray items)
| wf_object (props : list (jsstring * JsValue)) :
    canonical (List.map fst props) ->
    Forall (fun p => well_formed (snd p)) props ->
    well_formed (JObject props).

(** No number of the value is an infinity. *)
Fixpoint finite_numbers (v : JsValue) : bool :=
  match v with
  | JNumber x => Number.isFinite x
  | JArray items => forallb finite_numbers items
  | JObject props => forallb (fun p => finite_numbers (snd p)) props
  | _ => true
  end.

(** The digits [Number::toString] gives a number are a literal that
    denotes it. *)
Definition reads_back (x : Number.float64) : bool :=
  forallb is_number_char (Number.toString x)
  && match Number.number_value (Number.toString x) with
     | Some y => number_equal x y
     | None => false
     end.

Fixpoint numbers_read_back (v : JsValue) : bool :=
  match v with
  | JNumber x => reads_back x
  | JArray items => forallb numbers_read_back items
  | JObject props => forallb (fun p => numbers_read_back (snd p)) props
  | _ => true
  end.

(** The depth of calls that parsing the text of a value takes. *)
Fixpoint fuel_needed (v : JsValue) : nat :=
  match v with
  | JArray items =>
      S ((fix all (vs : list JsValue) : nat :=
            match vs with
            | [] => O
            | v :: vs' => S (Nat.max (fuel_needed v) (all vs'))
            end) items)
  | JObject props =>
      S ((fix all (ps : list (jsstring * JsValue)) : nat :=
            match ps with
            | [] => O
            | p :: ps' => S (Nat.max (fuel_needed (snd p)) (all ps'))
            end) props)
  | _ => 1%nat
  end.

End JSON.

(** ** Vocabulary of the proofs about JSON *)

Module JsonVocabulary.
Import JSON.

(** What [parse_chars] does with one more character in front. *)
Definition more (c : N) (r : option (jsstring * jsstring))
  : option (jsstring * jsstring) :=
  match r with
  | Some (str, rest) => Some (c :: str, rest)
  | None => None
  end.

(** What can follow a value in the text [JSON.stringify] writes: nothing,
    a comma, or a closing bracket or brace. *)
Definition value_follow (rest : jsstring) : Prop :=
  match rest with
  | [] => True
  | c :: _ => c = 44%N \/ c = 93%N \/ c = 125%N
  end.

(** The characters such a text of a value can begin with. *)
Definition head_char (c : N) : Prop :=
  c = 110%N \/ c = 116%N \/ c = 102%N \/ c = 34%N \/ c = 91%N \/ c = 123%N
  \/ c = 45%N \/ Number.is_digit c = true.

Definition fuel_elements (items : list JsValue) : nat :=
  fold_right (fun v n => S (Nat.max (fuel_needed v) n)) O items.

Definition fuel_members (props : list (jsstring * JsValue)) : nat :=
  fold_right (fun p n => S (Nat.max (fuel_needed (snd p)) n)) O props.

Definition member_text (p : jsstring * JsValue) : jsstring :=
  quote (fst p) ++ 58%N :: stringify (snd p).

(** A value whose text is read back as a value deeply equal to it. *)
Definition reads (v : JsValue) : Prop :=
  well_formed v -> finite_numbers v = true -> numbers_read_back v = true ->
  forall fuel rest,
    (fuel_needed v <= fuel)%nat -> value_follow rest ->
    exists v',
      parse_value fuel (stringify v ++ rest) = Some (v', rest) /\
      deep_equal v v' = true.

(** No number is negative as a magnitude or beyond the infinity. *)
Fixpoint numbers_in_range (v : JsValue) : bool :=
  match v with
  | JNumber x =>
      (0 <=? Number.magnitude x) && (Number.magnitude x <=? Number.infinity_bits)
  | JArray items => forallb numbers_in_range items
  | JObject props => forallb (fun p => numbers_in_range (snd p)) props
  | _ => true
  end.

(** The value with [null] in the place of every infinity: what
    [JSON.stringify] writes for. *)
Fixpoint nulled (v : JsValue) : JsValue :=
  match v with
  | JNumber x => if Number.isFinite x then v else JNull
  | JArray items => JArray (List.map nulled items)
  | JObject props => JObject (List.map (fun p => (fst p, nulled (snd p))) props)
  | _ => v
  end.

End JsonVocabulary.

(** ** Vocabulary of the proofs about numeric literals *)

Module NumberVocabulary.
Import Number.

(** What ends a run of digits. *)
Definition no_digit_first (rest : jsstring) : Prop :=
  match rest with
  | [] => True
  | c :: _ => is_digit c = false
  end.

(** A literal from its parts: the digits before the point, those after it
    and the exponent, with its sign and its digits. *)
Definition exponent_text (e : option (bool * jsstring)) : jsstring :=
  match e with
  | None => []
  | Some (minus, ds) => 101%N :: (if minus then 45%N else 43%N) :: ds
  end.

Definition fraction_text (f : jsstring) : jsstring :=
  match f with
  | [] => []
  | _ :: _ => 46%N :: f
  end.

Definition literal (i f : jsstring) (e : option (bool * jsstring)) : jsstring :=
  i ++ fraction_text f ++ exponent_text e.

Definition exponent_value (e : option (bool * jsstring)) : Z :=
  match e with
  | None => 0
  | Some (minus, ds) => if minus then - digits_value ds else digits_value ds
  end.

Definition exponent_ok (e : option (bool * jsstring)) : Prop :=
  match e with
  | None => True
  | Some (_, ds) => ds <> [] /\ forallb is_digit ds = true
  end.

Definition sign_text (neg : bool) : jsstring := if neg then [45%N] else [].

End NumberVocabulary.

(** ** Vocabulary of the proof about [path.extname] *)

Module ExtnameVocabulary.
Import Path.

(** How the loop variables of [extname (join dir name)] relate to those of
    [extname name] while the loop is inside [name]: positions are moved by
    [d], the length of [dir] and of the separator. *)
Definition moved (d : Z) (x : Z) : Z := if x =? -1 then -1 else x + d.

Record related (d : Z) (st st' : ExtState) : Prop := mkRelated {
  rel_startDot : startDot st' = moved d (startDot st);
  rel_end : end_ st' = moved d (end_ st);
  rel_matched : matchedSlash st' = matchedSlash st;
  rel_preDot : preDotState st' = preDotState st;
  rel_startDot_lo : -1 <= startDot st;
  rel_end_lo : -1 <= end_ st;
  rel_part : startPart st = 0;
  rel_seen : end_ st <> -1 -> matchedSlash st = false
}.

End ExtnameVocabulary.

(** ** Vocabulary of the walk as a whole *)

(** What a call of [processFile] can leave of a file: the file as it was;
    nothing, for a file classified Delete that could be measured and
    removed; the same file with a strictly shorter text, for a file
    classified CompressJS or CompressJSON that could be read and written;
    or the same file with the first bytes of such a text, when the write
    broke off after the open. *)
Inductive file_after (f : File) : option File -> Prop :=
| after_untouched : file_after f (Some f)
| after_removed :
    classify (f_name f) = Delete ->
    stat_fails f = false -> unlink_fails f = false ->
    file_after f None
| after_rewritten (text : jsstring) :
    classify (f_name f) = CompressJS \/ classify (f_name f) = CompressJSON ->
    read_fails f = false -> write_fails f = false ->
    length text < length (f_text f) ->
    file_after f (Some (holding (utf8_length text) text f))
| after_broken_write (k : Z) (text : jsstring) :
    classify (f_name f) = CompressJS \/ classify (f_name f) = CompressJSON ->
    read_fails f = false ->
    write_fails f = true -> write_breaks f = Some k ->
    length text < length (f_text f) ->
    file_after f
      (Some (holding (Z.max 0 (Z.min k (utf8_length text)))
                     (utf8_prefix k text) f)).

(** The entries of a directory before and after a walk: every directory
    is still there under its name, and every file is as [file_after] has
    it. *)
Inductive entries_after : list Dirent -> list Dirent -> Prop :=
| after_nil : entries_after [] []
| after_file (f f' : File) (rest rest' : list Dirent) :
    file_after f (Some f') -> entries_after rest rest' ->
    entries_after (DFile f :: rest) (DFile f' :: rest')
| after_gone (f : File) (rest rest' : list Dirent) :
    file_after f None -> entries_after rest rest' ->
    entries_after (DFile f :: rest) rest'
| after_dir (name : jsstring) (fails : bool) (files files' rest rest' : list Dirent) :
    entries_after files files' -> entries_after rest rest' ->
    entries_after (DDir name fails files :: rest) (DDir name fails files' :: rest').

(** One entry before and after the body of the loop. *)
Definition entry_after (e : Dirent) (r : option Dirent) : Prop :=
  match e, r with
  | DFile f, Some (DFile f') => file_after f (Some f')
  | DFile f, None => file_after f None
  | DDir name fails files, Some (DDir name' fails' files') =>
      name' = name /\ fails' = fails /\ entries_after files files'
  | _, _ => False
  end.

(** The lines the walk prints: one of the six of [processFile],
    [compressFile] and the two compressors. *)
Definition is_walk_line (l : LogLine) : bool :=
  match l with
  | Err_Deleting _ _ | Log_Deleted _ _ | Log_Compressing _
  | Err_Compressing _ _ | Err_CompressingJavaScript _ _ | Err_Json _ _ => true
  | _ => false
  end.

(** The console only grows, here by lines of the walk. *)
Definition logged (w w' : World) : Prop :=
  exists lines,
    console w' = console w ++ lines /\ forallb is_walk_line lines = true.

(** A tree the walk gets through: there is one, every directory of it can
    be listed, and no file makes [processFile] reject. *)
Definition walkable (d : Disk) : bool :=
  match d with
  | Absent => false
  | Present fails files =>
      negb fails && forallb listable files
      && forallb (fun f => negb (stat_refused f)) (flat_map files_of_dirent files)
  end.

Definition decision_eqb (a b : Decision) : bool :=
  match a, b with
  | Delete, Delete | CompressJS, CompressJS | CompressJSON, CompressJSON
  | Skip, Skip => true
  | _, _ => false
  end.

(** The files of a class, and the code units of the texts of the files
    that are classified CompressJS or CompressJSON. *)
Definition count_class (d : Decision) (fs : list File) : Z :=
  Z.of_nat
    (List.length (filter (fun f => decision_eqb (classify (f_name f)) d) fs)).

Fixpoint compressible_text (fs : list File) : Z :=
  match fs with
  | [] => 0
  | f :: rest =>
      match classify (f_name f) with
      | CompressJS | CompressJSON => length (f_text f) + compressible_text rest
      | _ => compressible_text rest
      end
  end.

(** The bytes [fs.stat] reports for the files classified Delete. *)
Fixpoint deletable_bytes (fs : list File) : Z :=
  match fs with
  | [] => 0
  | f :: rest =>
      match classify (f_name f) with
      | Delete => f_size f + deletable_bytes rest
      | _ => deletable_bytes rest
      end
  end.

(** ** A runtime to run the script with

    Terser is a parameter of the development.  The examples are run with a
    minifier that does no more than join the lines, dropping the line feeds
    and the blanks at the start of a line, and with [JSON] as above. *)

Fixpoint join_lines (line_start : bool) (code : jsstring) : jsstring :=
  match code with
  | [] => []
  | c :: rest =>
      if (c =? 10)%N then join_lines true rest
      else if line_start && ((c =? 32) || (c =? 9))%N
           then join_lines true rest
           else c :: join_lines false rest
  end.

Definition sample_minify (code : jsstring) : JsError + option jsstring :=
  inr (Some (join_lines true code)).

Definition plain (name : string) (size : Z) (text : jsstring) : File :=
  mkFile (js name) size text false false false false None.

Definition LF : jsstring := [10%N].

(** A string literal of JSON or JavaScript, between its quotes. *)
Definition quoted (s : string) : jsstring := 34%N :: js s ++ [34%N].

Definition data_json : jsstring :=
  js "{" ++ LF ++ js "  " ++ quoted "a" ++ js ": [1, 2.5]," ++ LF
  ++ js "  " ++ quoted "b" ++ js ": null" ++ LF ++ js "}".

Definition data_json_compacted : jsstring :=
  js "{" ++ quoted "a" ++ js ":[1,2.5]," ++ quoted "b" ++ js ":null}".

Definition data_file : File := plain "data.json" 32 data_json.

(** The same file on a disk with room for ten bytes: a write to it is cut
    short after the open. *)
Definition data_file_on_a_full_disk : File :=
  mkFile (js "data.json") 32 data_json false false false true (Some 10).

(** The value [data.json] holds: 1 and 2.5 by their bits. *)
Definition data_value : JSON.JsValue :=
  JSON.JObject
    [(js "a",
      JSON.JArray
        [JSON.JNumber (Number.mkFloat false 4607182418800017408);
         JSON.JNumber (Number.mkFloat false 4612811918334230528)]);
     (js "b", JSON.JNull)].

(** The directory of the scenario of the specification. *)
Definition scenario : list Dirent :=
  [DFile (plain "readme.md" 2048 (js "# readme"));
   DFile (plain "foo.ts" 1024 (js "export declare const x: number;"));
   DFile (plain ".eslintrc.json" 512 (js "{}"));
   DFile (plain "index.js" 17 (js "export const x=1;"));
   DFile (plain "util.js" 33
            (js "function f(a,b){" ++ LF ++ js "  return a+b;" ++ LF
             ++ js "}" ++ LF));
   DFile data_file].
(** * Properties *)

(** ** Strings *)

Lemma jseqb_eq (a b : jsstring) : eqb a b = true <-> a = b.
Proof.
  revert b; induction a as [|x a IH]; intros [|y b]; simpl;
    try (split; [discriminate | discriminate]); try tauto.
  rewrite andb_true_iff, N.eqb_eq, IH.
  split; [intros [-> ->]; reflexivity | intros H; inversion H; auto].
Qed.

Lemma jseqb_refl (a : jsstring) : eqb a a = true.
Proof. apply jseqb_eq; reflexivity. Qed.

Lemma jseqb_neq (a b : jsstring) : eqb a b = false <-> a <> b.
Proof.
  rewrite <- jseqb_eq. destruct (eqb a b); split; congruence.
Qed.

Lemma includes_In (arr : list jsstring) (s : jsstring) :
  includes arr s = true <-> In s arr.
Proof.
  unfold includes. rewrite existsb_exists. split.
  - intros [x [Hin Heq]]. apply jseqb_eq in Heq. subst; assumption.
  - intros Hin. exists s. split; [assumption | apply jseqb_refl].
Qed.


(** ** [path.extname] *)

Example extname_index_js : Path.extname (js "index.js") = js ".js".
Proof. reflexivity. Qed.
Example extname_dotfile : Path.extname (js ".eslintrc") = [].
Proof. reflexivity. Qed.
Example extname_dotfile_js : Path.extname (js ".eslintrc.js") = js ".js".
Proof. reflexivity. Qed.
Example extname_trailing_dot : Path.extname (js "index.") = js ".".
Proof. reflexivity. Qed.
Example extname_dotdot : Path.extname (js "..") = [].
Proof. reflexivity. Qed.
Example extname_in_dir :
Path.extname (js "node_modules/a.b/types.d.ts") = js ".ts".
Proof. reflexivity. Qed.
Example extname_dir_dot : Path.extname (js "node_modules/a.b/LICENSE") = [].
Proof. reflexivity. Qed.

Module ExtnameShift.
Import Path ExtnameVocabulary.

Lemma moved_eq_m1 d x : 0 <= d -> -1 <= x -> (moved d x =? -1) = (x =? -1).
Proof.
  intros Hd Hx. unfold moved. destruct (x =? -1) eqn:E; [reflexivity|].
  apply Z.eqb_neq in E. apply Z.eqb_neq. lia.
Qed.

Lemma step_related dir name k st st' :
  ~ In CHAR_FORWARD_SLASH name ->
  (k < List.length name)%nat ->
  related (Z.of_nat (S (List.length dir))) st st' ->
  exists r r',
    ext_step name k st = (r, false) /\
    ext_step (join dir name) (S (List.length dir) + k) st' = (r', false) /\
    related (Z.of_nat (S (List.length dir))) r r' /\
    matchedSlash r = false.
Proof.
  intros Hslash Hk [HsD HE HM HP HsDlo HElo Hpart Hseen].
  set (d := Z.of_nat (S (List.length dir))) in *.
  assert (Hd : 0 <= d) by (unfold d; lia).
  assert (Hnth : nth (S (List.length dir) + k) (join dir name) 0%N = nth k name 0%N).
  { unfold join. rewrite app_nth2 by lia.
    replace (S (List.length dir) + k - List.length dir)%nat with (S k) by lia.
    reflexivity. }
  assert (Hcode : (nth k name 0 =? CHAR_FORWARD_SLASH)%N = false).
  { apply N.eqb_neq. intros Heq. apply Hslash. rewrite <- Heq.
    apply nth_In; assumption. }
  assert (Hidx : Z.of_nat (S (List.length dir) + k) = Z.of_nat k + d)
    by (unfold d; lia).
  unfold ext_step. rewrite Hnth, Hcode.
  rewrite HE, (moved_eq_m1 d _ Hd HElo).
  destruct st as [sD sP e m p], st' as [sD' sP' e' m' p']; simpl in *.
  subst sD' e' m' p' sP.
  do 2 eexists. split; [reflexivity|]. split; [reflexivity|].
  destruct (e =? -1) eqn:Ee; simpl;
    rewrite ?(moved_eq_m1 d _ Hd HsDlo);
    destruct (nth k name 0 =? CHAR_DOT)%N; simpl;
    destruct (sD =? -1) eqn:EsD; simpl;
    try (destruct (p =? 1); simpl);
    (split; [constructor; simpl; unfold moved; rewrite ?EsD, ?Ee; simpl;
             try reflexivity; try lia;
             try (replace (Z.of_nat k =? -1) with false
                    by (symmetry; apply Z.eqb_neq; lia));
             try (replace (Z.of_nat k + 1 =? -1) with false
                    by (symmetry; apply Z.eqb_neq; lia));
             try lia
            | try reflexivity]).
  all: apply Z.eqb_neq in Ee; auto.
Qed.

Lemma loop_related dir name k :
  ~ In CHAR_FORWARD_SLASH name ->
  (k <= List.length name)%nat ->
  forall st st',
    related (Z.of_nat (S (List.length dir))) st st' ->
    ((k < List.length name)%nat -> matchedSlash st = false) ->
    name <> [] ->
    let r := ext_loop name k st in
    let r' := ext_loop (join dir name) (S (List.length dir) + k) st' in
    startDot r' = moved (Z.of_nat (S (List.length dir))) (startDot r) /\
    end_ r' = moved (Z.of_nat (S (List.length dir))) (end_ r) /\
    preDotState r' = preDotState r /\
    startPart r = 0 /\
    startPart r' = Z.of_nat (S (List.length dir)) /\
    -1 <= startDot r /\ -1 <= end_ r.
Proof.
  intros Hslash. induction k as [|k IH]; intros Hk st st' Hrel Hm Hne.
  - assert (Hlen : (0 < List.length name)%nat)
      by (destruct name; [congruence | simpl; lia]).
    specialize (Hm Hlen). destruct Hrel as [HsD HE HM HP HsDlo HElo Hpart _].
    replace (S (List.length dir) + 0)%nat with (S (List.length dir)) by lia.
    cbn [ext_loop]. unfold ext_step.
    replace (nth (List.length dir) (join dir name) 0%N) with CHAR_FORWARD_SLASH.
    2:{ unfold join. rewrite app_nth2 by lia. rewrite Nat.sub_diag. reflexivity. }
    rewrite N.eqb_refl, HM, Hm. cbn.
    repeat split; try assumption. lia.
  - destruct (step_related dir name k st st' Hslash ltac:(lia) Hrel)
      as (r & r' & Hs & Hs' & Hrel' & Hm').
    replace (S (List.length dir) + S k)%nat
      with (S (S (List.length dir) + k)) by lia.
    cbn [ext_loop]. rewrite Hs, Hs'.
    apply IH; auto. lia.
Qed.

(** The extension of a path is that of its last component. *)
Lemma extname_join (dir name : jsstring) :
  entry_name name -> extname (join dir name) = extname name.
Proof.
  intros [Hne Hslash].
  set (d := Z.of_nat (S (List.length dir))).
  assert (Hd : 0 < d) by (unfold d; lia).
  assert (Hrel0 : related d ext_init ext_init).
  { constructor; cbn; try reflexivity; lia. }
  pose proof (loop_related dir name (List.length name) Hslash (le_n _)
                ext_init ext_init Hrel0 ltac:(lia) Hne) as H.
  cbv zeta in H. fold d in H.
  destruct H as (HsD & HE & HP & Hpart & Hpart' & HsDlo & HElo).
  unfold extname.
  replace (List.length (join dir name))
    with (S (List.length dir) + List.length name)%nat
    by (unfold join; rewrite length_app; simpl; lia).
  set (r := ext_loop name (List.length name) ext_init) in *.
  set (r' := ext_loop (join dir name) _ ext_init) in *.
  rewrite HsD, HE, HP, Hpart, Hpart'.
  rewrite !moved_eq_m1 by lia.
  destruct (startDot r =? -1) eqn:EsD; [reflexivity|].
  destruct (end_ r =? -1) eqn:Ee; [reflexivity|].
  apply Z.eqb_neq in EsD, Ee.
  unfold moved.
  replace (startDot r =? -1) with false by (symmetry; apply Z.eqb_neq; lia).
  replace (end_ r =? -1) with false by (symmetry; apply Z.eqb_neq; lia).
  replace (startDot r + d =? end_ r + d - 1) with (startDot r =? end_ r - 1).
  2:{ destruct (Z.eqb_spec (startDot r) (end_ r - 1));
      symmetry; [apply Z.eqb_eq | apply Z.eqb_neq]; lia. }
  replace (startDot r + d =? d + 1) with (startDot r =? 0 + 1).
  2:{ destruct (Z.eqb_spec (startDot r) (0 + 1));
      symmetry; [apply Z.eqb_eq | apply Z.eqb_neq]; lia. }
  match goal with |- (if ?c then _ else _) = _ => destruct c end;
    [reflexivity|].
  unfold slice.
  replace (Z.to_nat (end_ r + d) - Z.to_nat (startDot r + d))%nat
    with (Z.to_nat (end_ r) - Z.to_nat (startDot r))%nat by lia.
  f_equal.
  replace (Z.to_nat (startDot r + d))
    with (List.length (dir ++ [CHAR_FORWARD_SLASH]) + Z.to_nat (startDot r))%nat
    by (rewrite length_app; simpl; unfold d; lia).
  unfold join.
  replace (dir ++ CHAR_FORWARD_SLASH :: name)
    with ((dir ++ [CHAR_FORWARD_SLASH]) ++ name)
    by (rewrite <- app_assoc; reflexivity).
  rewrite skipn_app.
  rewrite skipn_all2 by lia.
  replace (List.length (dir ++ [CHAR_FORWARD_SLASH]) + Z.to_nat (startDot r)
           - List.length (dir ++ [CHAR_FORWARD_SLASH]))%nat
    with (Z.to_nat (startDot r)) by lia.
  reflexivity.
Qed.

End ExtnameShift.

(** ** The extension of a name from its form *)

Module ExtnameSuffix.
Import Path.

(** One iteration at a character that is neither a separator nor a dot,
    when no character has been seen yet and later; one at a dot, the first
    one seen. *)
Lemma ext_step_first (p : jsstring) (i : nat) :
  (nth i p 0 =? CHAR_FORWARD_SLASH)%N = false ->
  (nth i p 0 =? CHAR_DOT)%N = false ->
  ext_step p i ext_init = (mkExt (-1) 0 (Z.of_nat i + 1) false 0, false).
Proof. intros H1 H2. unfold ext_step. rewrite H1, H2. reflexivity. Qed.

Lemma ext_step_plain (p : jsstring) (i : nat) (e : Z) :
  (nth i p 0 =? CHAR_FORWARD_SLASH)%N = false ->
  (nth i p 0 =? CHAR_DOT)%N = false ->
  e <> -1 ->
  ext_step p i (mkExt (-1) 0 e false 0) = (mkExt (-1) 0 e false 0, false).
Proof.
  intros H1 H2 He. unfold ext_step. rewrite H1, H2. cbn [end_].
  apply Z.eqb_neq in He. rewrite He. reflexivity.
Qed.

Lemma ext_step_first_dot (p : jsstring) (i : nat) (e : Z) :
  nth i p 0%N = CHAR_DOT -> e <> -1 ->
  ext_step p i (mkExt (-1) 0 e false 0) = (mkExt (Z.of_nat i) 0 e false 0, false).
Proof.
  intros H He. unfold ext_step. rewrite H. cbn [end_].
  apply Z.eqb_neq in He. rewrite He. reflexivity.
Qed.

Lemma ext_step_only_dot (p : jsstring) (i : nat) :
  nth i p 0%N = CHAR_DOT ->
  ext_step p i ext_init
  = (mkExt (Z.of_nat i) 0 (Z.of_nat i + 1) false 0, false).
Proof. intros H. unfold ext_step. rewrite H. reflexivity. Qed.

Lemma ext_step_before_dot (p : jsstring) (i : nat) (sd sp e : Z) (ms : bool) (pd : Z) :
  (nth i p 0 =? CHAR_FORWARD_SLASH)%N = false ->
  sd <> -1 -> e <> -1 ->
  ext_step p i (mkExt sd sp e ms pd)
  = (mkExt sd sp e ms (if (nth i p 0 =? CHAR_DOT)%N then 1 else -1), false).
Proof.
  intros H Hsd He. unfold ext_step. rewrite H. cbn [end_].
  apply Z.eqb_neq in Hsd, He. rewrite He. cbn [startDot]. rewrite Hsd.
  destruct (nth i p 0 =? CHAR_DOT)%N; [|reflexivity].
  cbn [preDotState]. destruct (Z.eqb_spec pd 1) as [->|_]; reflexivity.
Qed.

Section Suffix.

Variables stem ext : jsstring.
Hypothesis stem_no_slash : ~ In CHAR_FORWARD_SLASH stem.
Hypothesis ext_no_slash : ~ In CHAR_FORWARD_SLASH ext.
Hypothesis ext_no_dot : ~ In CHAR_DOT ext.

#[local] Abbreviation path := (stem ++ CHAR_DOT :: ext).

Lemma nth_in_stem (i : nat) :
  (i < List.length stem)%nat ->
  (nth i path 0%N =? CHAR_FORWARD_SLASH)%N = false.
Proof.
  intros Hi. rewrite app_nth1 by exact Hi.
  apply N.eqb_neq. intros H. apply stem_no_slash. rewrite <- H.
  apply nth_In. exact Hi.
Qed.

Lemma nth_at_dot : nth (List.length stem) path 0%N = CHAR_DOT.
Proof. rewrite nth_middle. reflexivity. Qed.

Lemma nth_in_ext (k : nat) :
  (k < List.length ext)%nat ->
  (nth (List.length stem + 1 + k) path 0%N =? CHAR_FORWARD_SLASH)%N = false /\
  (nth (List.length stem + 1 + k) path 0%N =? CHAR_DOT)%N = false.
Proof.
  intros Hk. rewrite app_nth2 by lia.
  replace (List.length stem + 1 + k - List.length stem)%nat with (S k) by lia.
  cbn [nth].
  split; apply N.eqb_neq; intros H;
    [apply ext_no_slash | apply ext_no_dot]; rewrite <- H; apply nth_In, Hk.
Qed.

(** Inside the extension, once its last character has been seen, the loop
    changes nothing. *)
Lemma loop_in_ext (e : Z) (k : nat) :
  e <> -1 -> (k <= List.length ext)%nat ->
  ext_loop path (List.length stem + 1 + k) (mkExt (-1) 0 e false 0)
  = ext_loop path (List.length stem + 1) (mkExt (-1) 0 e false 0).
Proof.
  intros He. induction k as [|k IH]; intros Hk.
  - rewrite Nat.add_0_r. reflexivity.
  - replace (List.length stem + 1 + S k)%nat
      with (S (List.length stem + 1 + k)) by lia.
    cbn [ext_loop].
    destruct (nth_in_ext k) as [H1 H2]; [lia|].
    rewrite (ext_step_plain _ _ _ H1 H2 He). apply IH. lia.
Qed.

(** Inside the stem the loop only records whether the character is a
    dot. *)
Lemma loop_in_stem (n : nat) :
  (0 < n <= List.length stem)%nat ->
  forall sd sp e ms pd,
    sd <> -1 -> e <> -1 ->
    ext_loop path n (mkExt sd sp e ms pd)
    = mkExt sd sp e ms (if (nth 0 path 0 =? CHAR_DOT)%N then 1 else -1).
Proof.
  induction n as [|n IH]; [lia|]. intros Hn sd sp e ms pd Hsd He.
  cbn [ext_loop].
  rewrite (ext_step_before_dot _ _ _ _ _ _ _ (nth_in_stem n ltac:(lia)) Hsd He).
  destruct n as [|n]; [reflexivity|].
  apply IH; auto; lia.
Qed.

(** The loop up to the dot that ends the stem. *)
Lemma loop_to_the_dot :
  ext_loop path (List.length path) ext_init
  = ext_loop path (List.length stem)
      (mkExt (Z.of_nat (List.length stem)) 0 (Z.of_nat (List.length path))
             false 0).
Proof.
  destruct (Nat.eq_dec (List.length ext) 0) as [Hz|Hnz].
  - assert (Hlen : List.length path = S (List.length stem)).
    { rewrite length_app. cbn [List.length]. lia. }
    rewrite Hlen at 1. cbn [ext_loop].
    rewrite (ext_step_only_dot _ _ nth_at_dot).
    rewrite Hlen. do 2 f_equal. lia.
  - assert (Hlen : List.length path
                   = S (List.length stem + 1 + (List.length ext - 1))).
    { rewrite length_app. cbn [List.length]. lia. }
    rewrite Hlen at 1. cbn [ext_loop].
    destruct (nth_in_ext (List.length ext - 1)) as [H1 H2]; [lia|].
    rewrite (ext_step_first _ _ H1 H2).
    replace (Z.of_nat (List.length stem + 1 + (List.length ext - 1)) + 1)
      with (Z.of_nat (List.length path)) by (rewrite Hlen; lia).
    rewrite loop_in_ext by lia.
    replace (List.length stem + 1)%nat with (S (List.length stem)) by lia.
    cbn [ext_loop].
    rewrite (ext_step_first_dot _ _ _ nth_at_dot) by lia.
    reflexivity.
Qed.

(** The extension of [stem.ext]: the last dot and what follows it, when
    neither part is empty. *)
Lemma extname_stem_dot_ext :
  stem <> [] -> ext <> [] -> extname path = CHAR_DOT :: ext.
Proof.
  intros Hstem Hext.
  assert (Hls : (0 < List.length stem)%nat)
    by (destruct stem; [contradiction | cbn; lia]).
  assert (Hle : (0 < List.length ext)%nat)
    by (destruct ext; [contradiction | cbn; lia]).
  assert (Hlen : List.length path
                 = (List.length stem + 1 + List.length ext)%nat).
  { rewrite length_app. cbn [List.length]. lia. }
  unfold extname. rewrite loop_to_the_dot, loop_in_stem by lia.
  cbn [startDot end_ preDotState startPart].
  assert (H1 : (Z.of_nat (List.length stem) =? -1) = false)
    by (apply Z.eqb_neq; lia).
  assert (H2 : (Z.of_nat (List.length path) =? -1) = false)
    by (apply Z.eqb_neq; lia).
  assert (H3 : (Z.of_nat (List.length stem) =? Z.of_nat (List.length path) - 1)
               = false) by (apply Z.eqb_neq; lia).
  rewrite H1, H2, H3.
  assert (H4 : ((if (nth 0 path 0 =? CHAR_DOT)%N then 1 else -1) =? 0) = false)
    by (destruct (nth 0 path 0 =? CHAR_DOT)%N; reflexivity).
  rewrite H4, andb_false_r. cbn [orb andb].
  unfold slice. rewrite !Nat2Z.id, skipn_app, skipn_all, Nat.sub_diag.
  cbn [skipn app]. apply firstn_all2. rewrite Hlen. cbn [List.length]. lia.
Qed.

(** A name that is nothing but a dot and an extension has no extension. *)
Lemma extname_dot_ext : stem = [] -> extname path = [].
Proof.
  intros Hstem. unfold extname. rewrite loop_to_the_dot.
  assert (Hl : List.length stem = 0%nat) by (rewrite Hstem; reflexivity).
  rewrite Hl. cbn [ext_loop preDotState startDot end_].
  change (0 =? 0) with true. rewrite !orb_true_r. reflexivity.
Qed.

End Suffix.

End ExtnameSuffix.


(** ** The regular expression *)

Lemma starts_with_app (lit text rest : jsstring) :
  starts_with lit text = Some rest <-> text = lit ++ rest.
Proof.
  revert text; induction lit as [|c lit IH]; intros text; simpl.
  - split; [intros [= ->]; reflexivity | intros ->; reflexivity].
  - destruct text as [|d text]; [split; discriminate|].
    destruct (N.eqb_spec c d) as [->|Hne].
    + rewrite IH. split; [intros ->; reflexivity | intros [= ->]; reflexivity].
    + split; [discriminate | intros [= Heq _]; congruence].
Qed.

Lemma keyword_space_at_spec (kw text : jsstring) :
  keyword_space_at kw text = true <->
  exists c after, is_space c = true /\ text = kw ++ c :: after.
Proof.
  unfold keyword_space_at. split.
  - destruct (starts_with kw text) as [[|c rest]|] eqn:E; try discriminate.
    intros Hc. apply starts_with_app in E. eauto.
  - intros (c & rest & Hc & ->).
    assert (E : starts_with kw (kw ++ c :: rest) = Some (c :: rest))
      by (apply starts_with_app; reflexivity).
    rewrite E. assumption.
Qed.

Lemma module_regex_test_spec (text : jsstring) :
  module_regex_test text = true <-> has_module_marker text.
Proof.
  unfold has_module_marker. induction text as [|d text IH].
  - simpl. split; [discriminate|].
    intros (before & c & rest & _ & [H|H]);
      destruct before; discriminate.
  - cbn [module_regex_test]. rewrite orb_true_iff, IH.
    unfold module_marker_at. rewrite orb_true_iff, !keyword_space_at_spec.
    split.
    + intros [[(c & rest & Hc & H)|(c & rest & Hc & H)]
             |(before & c & rest & Hc & [->| ->])].
      * exists [], c, rest. auto.
      * exists [], c, rest. auto.
      * exists (d :: before), c, rest. auto.
      * exists (d :: before), c, rest. auto.
    + intros ([|b before] & c & rest & Hc & H).
      * left. destruct H as [H|H]; [left|right]; exists c, rest; auto.
      * right. exists before, c, rest. split; [assumption|].
        destruct H as [H|H]; [left|right]; injection H; auto.
Qed.

Example regex_export_const :
  module_regex_test (js "export const x=1;") = true.
Proof. reflexivity. Qed.
Example regex_plain_function :
  module_regex_test (js "function f(a,b){return a+b;}") = false.
Proof. reflexivity. Qed.
Example regex_needs_space :
  module_regex_test (js "exports.x=important(1);") = false.
Proof. reflexivity. Qed.

(** ** The walker *)

Section Walker.

Variable Terser_minify : jsstring -> JsError + option jsstring.
Variable JsValue : Type.
Variable JSON_parse : jsstring -> option JsValue.
Variable JSON_stringify : JsValue -> jsstring.

#[local] Abbreviation compressJavaScriptFile' := (compressJavaScriptFile Terser_minify).
#[local] Abbreviation compressJsonFile' := (compressJsonFile JSON_parse JSON_stringify).
#[local] Abbreviation compressFile' := (compressFile Terser_minify JSON_parse JSON_stringify).
#[local] Abbreviation processFile' := (processFile Terser_minify JSON_parse JSON_stringify).
#[local] Abbreviation processDirent' := (processDirent Terser_minify JSON_parse JSON_stringify).
#[local] Abbreviation processDirectory' := (processDirectory Terser_minify JSON_parse JSON_stringify).
#[local] Abbreviation dispatch' := (dispatch Terser_minify JSON_parse JSON_stringify).
#[local] Abbreviation main' := (main Terser_minify JSON_parse JSON_stringify).

(** *** Classification *)

Lemma deletable_spec (name : jsstring) :
  deletable name = true <->
  (Path.extname name = EXT_MD \/ Path.extname name = EXT_TS
   \/ In (toLowerCase name) ESLINT_FILES).
Proof.
  unfold deletable.
  rewrite !orb_true_iff, !jseqb_eq, includes_In. tauto.
Qed.

Lemma processFile_dispatch (dir : jsstring) (file : File) (w : World) :
  entry_name (f_name file) ->
  processFile' file (Path.join dir (f_name file)) w
  = dispatch' (classify (f_name file)) file (Path.join dir (f_name file)) w.
Proof.
  intros Hname. unfold processFile, classify, dispatch, compressFile.
  fold (deletable (f_name file)).
  rewrite (ExtnameShift.extname_join dir _ Hname).
  destruct (deletable (f_name file)); [reflexivity|].
  destruct (eqb (Path.extname (f_name file)) EXT_JS); [reflexivity|].
  destruct (eqb (Path.extname (f_name file)) EXT_JSON); reflexivity.
Qed.

(** C5: the decision taken for a file is a total function of its name, one
    of Delete, CompressJS, CompressJSON and Skip: Delete for the extensions
    [.md] and [.ts] and for the names that, in lower case, are in the lint
    table; otherwise CompressJS for [.js], CompressJSON for [.json], and Skip
    for the rest.  The walker does with the file what that decision says,
    whatever the file contains and whatever its size. *)
Theorem C5_decision_is_a_function_of_the_name
  (dir : jsstring) (file : File) (w : World) :
  entry_name (f_name file) ->
  let name := f_name file in
  let ext := Path.extname name in
  let lint := In (toLowerCase name) ESLINT_FILES in
  (classify name = Delete <-> ext = EXT_MD \/ ext = EXT_TS \/ lint) /\
  (classify name = CompressJS <->
     ~ (ext = EXT_MD \/ ext = EXT_TS \/ lint) /\ ext = EXT_JS) /\
  (classify name = CompressJSON <->
     ~ (ext = EXT_MD \/ ext = EXT_TS \/ lint) /\ ext = EXT_JSON) /\
  (classify name = Skip <->
     ~ (ext = EXT_MD \/ ext = EXT_TS \/ lint) /\
     ext <> EXT_JS /\ ext <> EXT_JSON) /\
  processFile' file (Path.join dir name) w
  = dispatch' (classify name) file (Path.join dir name) w.
Proof.
  intros Hname name ext lint.
  pose proof (deletable_spec name) as Hdel. fold ext lint in Hdel.
  assert (Hjs : EXT_JS <> EXT_JSON) by discriminate.
  pose proof (jseqb_eq ext EXT_JS) as Ejs.
  pose proof (jseqb_eq ext EXT_JSON) as Ejson.
  split; [|split; [|split; [|split]]];
    try apply (processFile_dispatch dir file w Hname);
    unfold classify; fold ext;
    destruct (deletable name); destruct (eqb ext EXT_JS);
    destruct (eqb ext EXT_JSON);
    intuition (try discriminate; try congruence).
Qed.

(** C9: the extension is compared as it is written.  A name whose extension
    is [.md], [.ts], [.js] or [.json] in another case than lower case, and
    which in lower case is not in the lint table, is skipped: the file stays
    as it is and so do the statistics. *)
Theorem C9_extension_match_is_case_sensitive
  (dir : jsstring) (file : File) (w : World) :
  entry_name (f_name file) ->
  let name := f_name file in
  let ext := Path.extname name in
  In (toLowerCase ext) [EXT_MD; EXT_TS; EXT_JS; EXT_JSON] ->
  ext <> toLowerCase ext ->
  ~ In (toLowerCase name) ESLINT_FILES ->
  classify name = Skip /\
  processFile' file (Path.join dir name) w
  = (print (Log_Compressing (Path.join dir name)) (visit w), Some file,
     Resolved) /\
  stats (fst (fst (processFile' file (Path.join dir name) w))) = stats w.
Proof.
  intros Hname name ext Hlow Hcase Hlint.
  assert (Hskip : classify name = Skip).
  { unfold classify.
    assert (Hd : deletable name = false).
    { destruct (deletable name) eqn:Ed; [|reflexivity].
      apply deletable_spec in Ed. fold ext in Ed.
      destruct Ed as [E|[E|E]]; [| |contradiction];
        exfalso; apply Hcase; rewrite E; reflexivity. }
    rewrite Hd. fold ext.
    destruct (eqb ext EXT_JS) eqn:Ejs.
    { apply jseqb_eq in Ejs. exfalso; apply Hcase; rewrite Ejs; reflexivity. }
    destruct (eqb ext EXT_JSON) eqn:Ejson.
    { apply jseqb_eq in Ejson. exfalso; apply Hcase; rewrite Ejson; reflexivity. }
    reflexivity. }
  assert (Hrun : processFile' file (Path.join dir name) w
                 = (print (Log_Compressing (Path.join dir name)) (visit w),
                    Some file, Resolved)).
  { unfold name. rewrite (processFile_dispatch dir file w Hname).
    fold name. rewrite Hskip. reflexivity. }
  repeat split; [assumption | assumption | rewrite Hrun; reflexivity].
Qed.

(** *** Deletion *)

(** When [fs.unlink] is refused the file stays, and the statements after the
    [await] run all the same. *)
Lemma deleteFile_unlink_refused (file : File) (fullPath : jsstring) (w : World) :
  stat_fails file = false ->
  unlink_fails file = true ->
  exists w',
    deleteFile file fullPath w = (w', Some file, Resolved) /\
    deletedFiles (stats w') = deletedFiles (stats w) + 1 /\
    spaceFreed (stats w') = spaceFreed (stats w) + f_size file /\
    console w'
    = console w ++ [Err_Deleting fullPath (FsError "unlink" fullPath);
                    Log_Deleted fullPath (f_size file)].
Proof.
  intros Hstat Hunlink. unfold deleteFile, fs_stat, fs_unlink.
  rewrite Hstat, Hunlink. eexists. split; [reflexivity|].
  cbn. rewrite <- app_assoc. auto.
Qed.

(** C1, at a file whose removal is refused: [README.md], 2048 bytes, in a
    fresh run.  The error is logged and the walk goes on, the file is still
    there, and [deletedFiles] is 1 and [spaceFreed] 2048. *)
Theorem C1_refused_unlink_is_counted :
  let readme :=
    mkFile (js "README.md") 2048 (js "# readme") false true false false None
  in
  let path := js "node_modules/README.md" in
  processFile' readme path world0
  = (mkWorld (mkStats 0 0 1 0 2048)
             [Err_Deleting path (FsError "unlink" path);
              Log_Deleted path 2048]
             1,
     Some readme, Resolved).
Proof. reflexivity. Qed.

(** *** The compressors *)

(** C10: a minified text that is empty is not written.  The file and the
    statistics stay as they are, although the empty text is shorter than
    the original. *)
Theorem C10_empty_minified_code_is_not_written
  (filePath : jsstring) (file : File) (w : World) :
  read_fails file = false ->
  module_regex_test (f_text file) = false ->
  Terser_minify (f_text file) = inr (Some []) ->
  length [] < length (f_text file) ->
  compressJavaScriptFile' filePath file w = (w, file, Resolved).
Proof.
  intros Hread Hre Hmin _. unfold compressJavaScriptFile, fs_readFile.
  rewrite Hread, Hre, Hmin. reflexivity.
Qed.

(** C6: a text with the marker is not minified.  The JavaScript compressor
    leaves the file and the world as they are, and so does the walker, apart
    from its line on the console and the count of its visit, for a file it
    takes for JavaScript. *)
Theorem C6_module_marker_skips_minification
  (dir : jsstring) (file : File) (w : World) :
  has_module_marker (f_text file) ->
  (forall filePath,
     fst (compressJavaScriptFile' filePath file w) = (w, file)) /\
  (entry_name (f_name file) -> classify (f_name file) = CompressJS ->
   let '(w', remains, _) := processFile' file (Path.join dir (f_name file)) w in
   remains = Some file /\ stats w' = stats w).
Proof.
  intros Hmark. apply module_regex_test_spec in Hmark.
  assert (Hjs : forall filePath w0,
             fst (compressJavaScriptFile' filePath file w0) = (w0, file)).
  { intros filePath w0. unfold compressJavaScriptFile, fs_readFile.
    destruct (read_fails file); [reflexivity|]. rewrite Hmark. reflexivity. }
  split; [intros; apply Hjs|].
  intros Hname Hclass. rewrite (processFile_dispatch dir file w Hname), Hclass.
  unfold dispatch.
  specialize (Hjs (Path.join dir (f_name file))
                  (print (Log_Compressing (Path.join dir (f_name file))) (visit w))).
  destruct (compressJavaScriptFile' _ file _) as [[w1 f1] o1].
  simpl in Hjs. injection Hjs as -> ->.
  destruct o1; simpl; auto.
Qed.

(** C4, as the script has it: either compressor writes the file only when
    its output is strictly shorter than the text it read.  When the write
    succeeds the file holds the output, [spaceSaved] grows by the
    difference of the two lengths and the counter of the kind by one.  On
    an equal or greater length, a text that does not parse, a minifier that
    throws, a read that fails or a write that fails at the open, the file
    and the statistics are what they were.  A write that breaks off after
    the open leaves the file with the bytes written until then; like every
    other failure it is not counted. *)
Theorem C4_write_back_only_when_strictly_shorter
  (filePath : jsstring) (file : File) (w : World) :
  let text := f_text file in
  let s := stats w in
  (let '(w', file', _) := compressJavaScriptFile' filePath file w in
   (file' = file /\ stats w' = s) \/
   (exists code,
      Terser_minify text = inr (Some code) /\
      length code < length text /\
      file' <> file /\ f_text file' = code /\
      stats w' = mkStats (jsFilesCompressed s + 1) (jsonFilesCompressed s)
                         (deletedFiles s)
                         (spaceSaved s + (length text - length code))
                         (spaceFreed s)) \/
   (exists code k,
      Terser_minify text = inr (Some code) /\
      length code < length text /\
      write_fails file = true /\ write_breaks file = Some k /\
      file' = holding (Z.max 0 (Z.min k (utf8_length code)))
                      (utf8_prefix k code) file /\
      stats w' = s)) /\
  (let '(w', file', _) := compressJsonFile' filePath file w in
   (file' = file /\ stats w' = s) \/
   (exists json,
      JSON_parse text = Some json /\
      length (JSON_stringify json) < length text /\
      file' <> file /\ f_text file' = JSON_stringify json /\
      stats w' = mkStats (jsFilesCompressed s) (jsonFilesCompressed s + 1)
                         (deletedFiles s)
                         (spaceSaved s
                          + (length text - length (JSON_stringify json)))
                         (spaceFreed s)) \/
   (exists json k,
      JSON_parse text = Some json /\
      length (JSON_stringify json) < length text /\
      write_fails file = true /\ write_breaks file = Some k /\
      file' = holding (Z.max 0 (Z.min k (utf8_length (JSON_stringify json))))
                      (utf8_prefix k (JSON_stringify json)) file /\
      stats w' = s)) /\
  (forall code,
     Terser_minify text = inr (Some code) -> length text <= length code ->
     fst (compressJavaScriptFile' filePath file w) = (w, file)) /\
  (forall json,
     JSON_parse text = Some json -> length text <= length (JSON_stringify json) ->
     fst (compressJsonFile' filePath file w) = (w, file)) /\
  (JSON_parse text = None ->
   let '(w', file', _) := compressJsonFile' filePath file w in
   file' = file /\ stats w' = s) /\
  ((exists err, Terser_minify text = inl err)
   \/ read_fails file = true
   \/ (write_fails file = true /\ write_breaks file = None) ->
   (let '(w', file', _) := compressJavaScriptFile' filePath file w in
    file' = file /\ stats w' = s) /\
   (read_fails file = true
    \/ (write_fails file = true /\ write_breaks file = None) ->
    let '(w', file', _) := compressJsonFile' filePath file w in
    file' = file /\ stats w' = s)) /\
  (write_fails file = true ->
   stats (fst (fst (compressJavaScriptFile' filePath file w))) = s /\
   stats (fst (fst (compressJsonFile' filePath file w))) = s).
Proof.
  intros text s.
  assert (Hneq : forall data,
             length data < length text ->
             holding (utf8_length data) data file <> file).
  { intros data Hlt Heq.
    apply (f_equal f_text) in Heq. cbn in Heq. fold text in Heq.
    rewrite Heq in Hlt. lia. }
  unfold compressJavaScriptFile, compressJsonFile, fs_readFile, fs_writeFile.
  fold text.
  split; [|split; [|split; [|split; [|split; [|split]]]]].
  - destruct (read_fails file); [left; auto|].
    destruct (module_regex_test text); [left; auto|]. cbn [negb].
    destruct (Terser_minify text) as [err|[code|]]; [left; auto| |left; auto].
    destruct (truthy code); [|left; auto]. cbn [andb].
    destruct (Z.ltb_spec (length code) (length text)) as [Hlt|Hge];
      [|left; auto].
    destruct (write_fails file) eqn:Hw.
    + destruct (write_breaks file) as [k|] eqn:Hk; [|left; auto].
      right. right. exists code, k. auto 10.
    + right. left. exists code. pose proof (Hneq code Hlt). auto 10.
  - destruct (read_fails file); [left; auto|].
    destruct (JSON_parse text) as [json|]; [|left; auto].
    destruct (Z.ltb_spec (length (JSON_stringify json)) (length text))
      as [Hlt|Hge]; [|left; auto].
    destruct (write_fails file) eqn:Hw.
    + destruct (write_breaks file) as [k|] eqn:Hk; [|left; auto].
      right. right. exists json, k. auto 10.
    + right. left. exists json. pose proof (Hneq _ Hlt). auto 10.
  - intros code Hmin Hle. destruct (read_fails file); [reflexivity|].
    destruct (module_regex_test text); [reflexivity|]. cbn [negb].
    rewrite Hmin.
    replace (length code <? length text) with false
      by (symmetry; apply Z.ltb_ge; assumption).
    rewrite andb_false_r. reflexivity.
  - intros json Hparse Hle. destruct (read_fails file); [reflexivity|].
    rewrite Hparse.
    replace (length (JSON_stringify json) <? length text) with false
      by (symmetry; apply Z.ltb_ge; assumption).
    reflexivity.
  - intros Hparse. destruct (read_fails file); [cbn; auto|].
    rewrite Hparse. cbn; auto.
  - intros H. split.
    + destruct (read_fails file) eqn:Hr; [cbn; auto|].
      destruct (module_regex_test text); [cbn; auto|]. cbn [negb].
      destruct H as [[err Herr]|[Hr'|[Hw Hk]]];
        [rewrite Herr; cbn; auto|discriminate|].
      destruct (Terser_minify text) as [err|[code|]]; try (cbn; auto; fail).
      destruct (truthy code && (length code <? length text));
        [|cbn; auto].
      rewrite Hw, Hk. cbn; auto.
    + intros Hrw. destruct (read_fails file) eqn:Hr; [cbn; auto|].
      destruct Hrw as [Hrw|[Hw Hk]]; [discriminate|].
      destruct (JSON_parse text) as [json|]; [|cbn; auto].
      destruct (length (JSON_stringify json) <? length text); [|cbn; auto].
      rewrite Hw, Hk. cbn; auto.
  - intros Hw. rewrite Hw. split.
    + destruct (read_fails file); [reflexivity|].
      destruct (module_regex_test text); [reflexivity|]. cbn [negb].
      destruct (Terser_minify text) as [err|[code|]]; try reflexivity.
      destruct (truthy code && (length code <? length text));
        [|reflexivity].
      destruct (write_breaks file); reflexivity.
    + destruct (read_fails file); [reflexivity|].
      destruct (JSON_parse text) as [json|]; [|reflexivity].
      destruct (length (JSON_stringify json) <? length text); [|reflexivity].
      destruct (write_breaks file); reflexivity.
Qed.

(** *** The walk over a tree *)

Lemma Dirent_files_ind (P : Dirent -> Prop) :
  (forall f, P (DFile f)) ->
  (forall name fails files, Forall P files -> P (DDir name fails files)) ->
  forall e, P e.
Proof.
  intros Hfile Hdir. fix IH 1. intros [f|name fails files].
  - apply Hfile.
  - apply Hdir. induction files as [|e files IHfiles]; constructor.
    + apply IH.
    + exact IHfiles.
Qed.

Lemma run_steps_app (a b : list File) (s1 s2 s3 : Stats) :
  run_steps a s1 s2 -> run_steps b s2 s3 -> run_steps (a ++ b) s1 s3.
Proof.
  intros Ha Hb. induction Ha as [s|f fs t1 t2 t3 Hstep Hrun IH]; simpl.
  - exact Hb.
  - econstructor; [exact Hstep | apply IH; exact Hb].
Qed.

Lemma compressJavaScriptFile_effect (filePath : jsstring) (file : File) (w : World) :
  let '(w', _, _) := compressJavaScriptFile' filePath file w in
  let s := stats w in
  visited w' = visited w /\
  (stats w' = s \/
   exists n, 0 < n <= length (f_text file) /\
     stats w' = mkStats (jsFilesCompressed s + 1) (jsonFilesCompressed s)
                        (deletedFiles s) (spaceSaved s + n) (spaceFreed s)).
Proof.
  unfold compressJavaScriptFile, fs_readFile, fs_writeFile.
  destruct (read_fails file); [cbn; auto|].
  destruct (module_regex_test (f_text file)); [cbn; auto|]. cbn [negb].
  destruct (Terser_minify (f_text file)) as [err|[code|]]; try (cbn; auto; fail).
  destruct (truthy code); [|cbn; auto]. cbn [andb].
  destruct (Z.ltb_spec (length code) (length (f_text file))) as [Hlt|Hge];
    [|cbn; auto].
  destruct (write_fails file);
    [destruct (write_breaks file); cbn; auto|].
  cbn. split; [reflexivity|]. right.
  exists (length (f_text file) - length code). split; [|reflexivity].
  unfold length in *. lia.
Qed.

Lemma compressJsonFile_effect (filePath : jsstring) (file : File) (w : World) :
  let '(w', _, _) := compressJsonFile' filePath file w in
  let s := stats w in
  visited w' = visited w /\
  (stats w' = s \/
   exists n, 0 < n <= length (f_text file) /\
     stats w' = mkStats (jsFilesCompressed s) (jsonFilesCompressed s + 1)
                        (deletedFiles s) (spaceSaved s + n) (spaceFreed s)).
Proof.
  unfold compressJsonFile, fs_readFile, fs_writeFile.
  destruct (read_fails file); [cbn; auto|].
  destruct (JSON_parse (f_text file)) as [json|]; [|cbn; auto].
  destruct (Z.ltb_spec (length (JSON_stringify json)) (length (f_text file)))
    as [Hlt|Hge]; [|cbn; auto].
  destruct (write_fails file);
    [destruct (write_breaks file); cbn; auto|].
  cbn. split; [reflexivity|]. right.
  exists (length (f_text file) - length (JSON_stringify json)).
  split; [|reflexivity]. unfold length in *. lia.
Qed.

(** The [catch] of [compressFile] lets nothing out. *)
Lemma catch_compress_resolves (filePath : jsstring) (r : World * File * Outcome) :
  let '(w', _, o) := catch_compress filePath r in
  o = Resolved /\ stats w' = stats (fst (fst r))
  /\ visited w' = visited (fst (fst r)).
Proof. destruct r as [[w f] [|err]]; cbn; auto. Qed.

(** One call of [processFile]: one visit, one step of the statistics, and a
    rejection only when the size of a file to delete cannot be read. *)
Lemma processFile_step (dir : jsstring) (file : File) (w : World) :
  entry_name (f_name file) ->
  let '(w', _, o) := processFile' file (Path.join dir (f_name file)) w in
  visited w' = visited w + 1 /\
  file_step file (stats w) (stats w') /\
  (o = Resolved \/ stat_refused file = true) /\
  (stat_refused file = false -> o = Resolved).
Proof.
  intros Hname. rewrite (processFile_dispatch dir file w Hname).
  set (path := Path.join dir (f_name file)).
  unfold stat_refused, dispatch.
  destruct (classify (f_name file)) eqn:Hclass.
  - assert (Hdel : deletable (f_name file) = true).
    { unfold classify in Hclass. destruct (deletable (f_name file));
        [reflexivity|].
      destruct (eqb _ EXT_JS); [discriminate|].
      destruct (eqb _ EXT_JSON); discriminate. }
    rewrite Hdel. unfold deleteFile, fs_stat, fs_unlink.
    destruct (stat_fails file).
    + cbn. repeat split; auto using step_nothing. discriminate.
    + destruct (unlink_fails file); cbn;
        repeat split; auto using step_deleted.
  - pose proof (compressJavaScriptFile_effect path file
                  (print (Log_Compressing path) (visit w))) as He.
    destruct (compressJavaScriptFile' path file _) as [[w1 f1] o1].
    pose proof (catch_compress_resolves path (w1, f1, o1)) as Hc.
    destruct (catch_compress path (w1, f1, o1)) as [[w2 f2] o2].
    cbn in *. destruct He as [Hv Hs], Hc as (-> & Hs2 & Hv2).
    rewrite Hs2, Hv2, Hv. repeat split; auto.
    destruct Hs as [->|(n & Hn & ->)]; [constructor|].
    apply step_js; assumption.
  - pose proof (compressJsonFile_effect path file
                  (print (Log_Compressing path) (visit w))) as He.
    destruct (compressJsonFile' path file _) as [[w1 f1] o1].
    pose proof (catch_compress_resolves path (w1, f1, o1)) as Hc.
    destruct (catch_compress path (w1, f1, o1)) as [[w2 f2] o2].
    cbn in *. destruct He as [Hv Hs], Hc as (-> & Hs2 & Hv2).
    rewrite Hs2, Hv2, Hv. repeat split; auto.
    destruct Hs as [->|(n & Hn & ->)]; [constructor|].
    apply step_json; assumption.
  - cbn. repeat split; auto using step_nothing.
Qed.

Lemma walked_nil (w : World) : walked [] w w Resolved.
Proof.
  exists [], []. repeat split; try reflexivity.
  - simpl. lia.
  - constructor.
Qed.

Lemma walked_seq (a b : list File) (w w1 w2 : World) (o : Outcome) :
  walked a w w1 Resolved -> walked b w1 w2 o -> walked (a ++ b) w w2 o.
Proof.
  intros (sa & ra & -> & Hra & Hva & Hsa) (sb & rb & -> & Hrb & Hvb & Hsb).
  rewrite (Hra eq_refl), app_nil_r.
  exists (sa ++ sb), rb. repeat split.
  - apply app_assoc.
  - exact Hrb.
  - rewrite length_app. lia.
  - eapply run_steps_app; eassumption.
Qed.

Lemma walked_stop (a b : list File) (w w1 : World) (err : JsError) :
  walked a w w1 (Rejected err) -> walked (a ++ b) w w1 (Rejected err).
Proof.
  intros (sa & ra & -> & _ & Hva & Hsa).
  exists sa, (ra ++ b). repeat split; auto.
  - symmetry; apply app_assoc.
  - discriminate.
Qed.

(** The loop, for a body that walks each entry. *)
Lemma for_of_walked
  (body : Dirent -> World -> World * option Dirent * Outcome)
  (files : list Dirent) :
  Forall (fun e => forall w,
            names_ok (files_of_dirent e) ->
            let '(w', _, o) := body e w in
            walked (files_of_dirent e) w w' o /\
            (listable e = true -> no_stat_refused (files_of_dirent e) ->
             o = Resolved)) files ->
  forall w,
    names_ok (flat_map files_of_dirent files) ->
    let '(w', _, o) := for_of body files w in
    walked (flat_map files_of_dirent files) w w' o /\
    (forallb listable files = true ->
     no_stat_refused (flat_map files_of_dirent files) -> o = Resolved).
Proof.
  induction 1 as [|e files He Hfiles IH]; intros w Hnames.
  - cbn. split; [apply walked_nil | reflexivity].
  - cbn [for_of flat_map forallb]. cbn [flat_map] in Hnames.
    unfold names_ok in Hnames.
    rewrite Forall_app in Hnames. destruct Hnames as [Hn1 Hn2].
    specialize (He w Hn1).
    destruct (body e w) as [[w1 remains] [|err]].
    + specialize (IH w1 Hn2).
      destruct (for_of body files w1) as [[w2 rest'] o].
      destruct He as [Hw1 _], IH as [Hw2 Hres]. split.
      * eapply walked_seq; eassumption.
      * intros Hl Hs. apply andb_true_iff in Hl. cbn [flat_map] in Hs.
        unfold no_stat_refused in Hs.
        rewrite Forall_app in Hs. apply Hres; tauto.
    + destruct He as [Hw1 Hres]. split.
      * apply walked_stop; assumption.
      * intros Hl Hs. apply andb_true_iff in Hl. cbn [flat_map] in Hs.
        unfold no_stat_refused in Hs.
        rewrite Forall_app in Hs. apply Hres; tauto.
Qed.

Lemma processDirent_walked (e : Dirent) :
  forall dir w,
    names_ok (files_of_dirent e) ->
    let '(w', _, o) := processDirent' dir e w in
    walked (files_of_dirent e) w w' o /\
    (listable e = true -> no_stat_refused (files_of_dirent e) -> o = Resolved).
Proof.
  induction e as [f|name fails files IH] using Dirent_files_ind;
    intros dir w Hnames.
  - cbn [processDirent dirent_name files_of_dirent] in *.
    inversion Hnames as [|? ? Hname _]; subst.
    pose proof (processFile_step dir f w Hname) as Hstep.
    destruct (processFile' f (Path.join dir (f_name f)) w) as [[w' r] o].
    destruct Hstep as (Hv & Hs & Ho & Hok). cbn. split.
    + exists [f], []. repeat split; auto.
      econstructor; [exact Hs | constructor].
    + intros _ Hs'. inversion Hs'; subst. auto.
  - cbn [processDirent dirent_name files_of_dirent listable] in *.
    destruct fails.
    + split.
      * exists [], (flat_map files_of_dirent files).
        repeat split; try discriminate; simpl; try lia. constructor.
      * discriminate.
    + assert (Hbody : Forall (fun e => forall w,
                 names_ok (files_of_dirent e) ->
                 let '(w', _, o) :=
                   processDirent' (Path.join dir name) e w in
                 walked (files_of_dirent e) w w' o /\
                 (listable e = true -> no_stat_refused (files_of_dirent e) ->
                  o = Resolved)) files).
      { eapply Forall_impl; [|exact IH]. intros e He w0. apply He. }
      pose proof (for_of_walked _ files Hbody w Hnames) as Hloop.
      destruct (for_of (processDirent' (Path.join dir name)) files w)
        as [[w' files'] o].
      exact Hloop.
Qed.

Lemma processDirectory_walked (dir : jsstring) (d : Disk) (w : World) :
  names_ok (files_of d) ->
  let '(w', _, o) := processDirectory' dir d w in
  walked (files_of d) w w' o /\
  (match d with
   | Absent => False
   | Present fails files => fails = false /\ forallb listable files = true
   end -> no_stat_refused (files_of d) -> o = Resolved).
Proof.
  intros Hnames. destruct d as [|fails files]; cbn [processDirectory files_of] in *.
  - split; [|tauto]. exists [], []. repeat split; try discriminate; simpl; try lia.
    constructor.
  - destruct fails.
    + split; [|intros [? _]; discriminate].
      exists [], (flat_map files_of_dirent files).
      repeat split; try discriminate; simpl; try lia. constructor.
    + assert (Hbody : Forall (fun e => forall w,
                 names_ok (files_of_dirent e) ->
                 let '(w', _, o) := processDirent' dir e w in
                 walked (files_of_dirent e) w w' o /\
                 (listable e = true -> no_stat_refused (files_of_dirent e) ->
                  o = Resolved)) files).
      { apply Forall_forall. intros e _ w0. apply processDirent_walked. }
      pose proof (for_of_walked _ files Hbody w Hnames) as Hloop.
      destruct (for_of (processDirent' dir) files w) as [[w' files'] o].
      destruct Hloop as [Hw Hres]. split; [exact Hw|]. intros [_ Hl]. auto.
Qed.

(** What a sequence of visits can do to the statistics. *)
Lemma run_steps_bounds (fs : list File) (s s' : Stats) :
  run_steps fs s s' ->
  0 <= deletedFiles s' - deletedFiles s /\
  0 <= jsFilesCompressed s' - jsFilesCompressed s /\
  0 <= jsonFilesCompressed s' - jsonFilesCompressed s /\
  (deletedFiles s' - deletedFiles s)
  + (jsFilesCompressed s' - jsFilesCompressed s)
  + (jsonFilesCompressed s' - jsonFilesCompressed s)
  <= Z.of_nat (List.length fs) /\
  (Forall (fun f => classify (f_name f) <> Delete) fs ->
   spaceFreed s' = spaceFreed s) /\
  (Forall (fun f => classify (f_name f) <> CompressJS /\
                    classify (f_name f) <> CompressJSON) fs ->
   spaceSaved s' = spaceSaved s).
Proof.
  induction 1 as [s|f fs s1 s2 s3 Hstep Hrun IH].
  - simpl. repeat split; intros; lia.
  - destruct IH as (Hd & Hjs & Hjson & Hsum & Hfreed & Hsaved).
    cbn [List.length]. rewrite Nat2Z.inj_succ.
    destruct Hstep as [|Hc|n Hc Hn|n Hc Hn]; cbn in *;
      (repeat split; try lia;
       intros Hall; inversion Hall as [|? ? Hf Hfs]; subst;
       [try (specialize (Hfreed Hfs); lia); try congruence
       |try (specialize (Hsaved Hfs); lia); try tauto]).
Qed.

(** C7: over a run of the walker, the files counted as deleted, as
    compressed JavaScript and as compressed JSON are together no more than
    the files visited, each visit moving at most one of the three counters
    by one.  [spaceFreed] moves only at a file classified Delete and
    [spaceSaved] only at a file classified CompressJS or CompressJSON. *)
Theorem C7_counters_bounded_by_files_visited
  (dir : jsstring) (d : Disk) (w : World) :
  names_ok (files_of d) ->
  let '(w', _, _) := processDirectory' dir d w in
  let s := stats w in
  let s' := stats w' in
  (deletedFiles s' - deletedFiles s)
  + (jsFilesCompressed s' - jsFilesCompressed s)
  + (jsonFilesCompressed s' - jsonFilesCompressed s)
  <= visited w' - visited w /\
  0 <= deletedFiles s' - deletedFiles s /\
  0 <= jsFilesCompressed s' - jsFilesCompressed s /\
  0 <= jsonFilesCompressed s' - jsonFilesCompressed s /\
  exists seen rest,
    files_of d = seen ++ rest /\
    visited w' - visited w = Z.of_nat (List.length seen) /\
    run_steps seen s s' /\
    (Forall (fun f => classify (f_name f) <> Delete) seen ->
     spaceFreed s' = spaceFreed s) /\
    (Forall (fun f => classify (f_name f) <> CompressJS /\
                      classify (f_name f) <> CompressJSON) seen ->
     spaceSaved s' = spaceSaved s).
Proof.
  intros Hnames.
  pose proof (processDirectory_walked dir d w Hnames) as Hwalk.
  destruct (processDirectory' dir d w) as [[w' d'] o].
  destruct Hwalk as [(seen & rest & Hall & _ & Hv & Hrun) _].
  destruct (run_steps_bounds seen _ _ Hrun)
    as (Hd & Hjs & Hjson & Hsum & Hfreed & Hsaved).
  cbv zeta. repeat split; try lia.
  exists seen, rest. repeat split; auto. lia.
Qed.

(** The walk is not stopped by a file that cannot be removed, read,
    parsed, minified or written: in a tree whose directories can be listed
    and whose files to delete can be measured, it resolves after having
    visited every file. *)
Lemma walk_resolves_despite_file_errors
  (dir : jsstring) (fails : bool) (files : list Dirent) (w : World) :
  names_ok (flat_map files_of_dirent files) ->
  fails = false -> forallb listable files = true ->
  no_stat_refused (flat_map files_of_dirent files) ->
  let '(w', _, o) := processDirectory' dir (Present fails files) w in
  o = Resolved /\
  visited w' = visited w + Z.of_nat (List.length (flat_map files_of_dirent files)).
Proof.
  intros Hnames Hfails Hlist Hstat.
  pose proof (processDirectory_walked dir (Present fails files) w Hnames) as Hwalk.
  destruct (processDirectory' dir (Present fails files) w) as [[w' d'] o].
  destruct Hwalk as [(seen & rest & Hall & Hrest & Hv & _) Hres].
  assert (Ho : o = Resolved) by (apply Hres; auto).
  split; [exact Ho|]. cbn [files_of] in Hall.
  rewrite Hall, (Hrest Ho), app_nil_r. exact Hv.
Qed.

(** C3, at a directory whose first file cannot be removed: the walk goes on
    to the subdirectory and to the last file and resolves, and the file that
    is still there has been counted: [deletedFiles] is 2 and [spaceFreed]
    2148 with one file of 100 bytes removed. *)
Theorem C3_walk_goes_on_but_counts_the_failed_file :
  let readme :=
    mkFile (js "README.md") 2048 (js "# readme") false true false false None
  in
  let notes :=
    mkFile (js "notes.md") 100 (js "notes") false false false false None in
  let licence :=
    mkFile (js "LICENSE") 1000 (js "MIT") false false false false None in
  processDirectory' (js "node_modules")
    (Present false [DFile readme; DDir (js "lib") false [DFile notes];
                    DFile licence])
    world0
  = (mkWorld (mkStats 0 0 2 0 2148)
       [Err_Deleting (js "node_modules/README.md")
          (FsError "unlink" (js "node_modules/README.md"));
        Log_Deleted (js "node_modules/README.md") 2048;
        Log_Deleted (js "node_modules/lib/notes.md") 100;
        Log_Compressing (js "node_modules/LICENSE")]
       3,
     Present false [DFile readme; DDir (js "lib") false []; DFile licence],
     Resolved).
Proof. reflexivity. Qed.

(** A file to delete whose size cannot be read is another matter: the
    rejection of [fs.stat] leaves [processFile] and ends the walk. *)
Example stat_refusal_ends_the_walk :
  let readme :=
    mkFile (js "README.md") 2048 (js "# readme") true false false false None
  in
  let notes :=
    mkFile (js "notes.md") 100 (js "notes") false false false false None in
  processDirectory' (js "node_modules")
    (Present false [DFile readme; DFile notes]) world0
  = (mkWorld stats0 [] 1, Present false [DFile readme; DFile notes],
     Rejected (FsError "stat" (js "node_modules/README.md"))).
Proof. reflexivity. Qed.

(** *** The run *)

(** C2, as the script has it: when the removal of the directory or the
    reinstallation fails, no file is visited and the statistics are not
    touched, and the summary is printed all the same, with five zeros. *)
Theorem C2_fatal_step_skips_the_walk_and_prints_zeros
  (env : Env) (d : Disk) :
  removal_fails env d \/ reinstall_fails env ->
  let '(w, d') := main' env d in
  visited w = 0 /\ stats w = stats0 /\
  (d' = d \/ d' = rm_leaves env \/ d' = npm_disk env) /\
  exists err,
    console w = [Err_Caught err; Log_Summary stats0] \/
    console w = [Log_DeletedFolder (js "node_modules");
                 Err_CommandExecution err; Err_Caught err;
                 Log_Summary stats0].
Proof.
  unfold removal_fails, reinstall_fails, main, deleteAndCompress, executeCommand.
  assert (Hleft : forall rest err,
             fs_rm (js "node_modules") (rm_refused env) (rm_leaves env) d
             = (rest, Some err) ->
             rest = d \/ rest = rm_leaves env \/ rest = npm_disk env).
  { unfold fs_rm. intros rest err H. destruct d; [injection H as <- _; auto|].
    destruct (rm_refused env); [injection H as <- _; auto | discriminate]. }
  intros [[err Hrm]|[err Hnpm]].
  - destruct (fs_rm _ _ _ d) as [rest [err'|]] eqn:Hfs; [|discriminate].
    cbn. repeat split; eauto.
  - destruct (fs_rm _ _ _ d) as [rest [err'|]] eqn:Hfs.
    + cbn. repeat split; eauto.
    + rewrite Hnpm. cbn. repeat split; eauto 6.
Qed.

End Walker.

(** ** The walk as a whole *)

Lemma logged_refl (w : World) : logged w w.
Proof. exists []. split; [symmetry; apply app_nil_r | reflexivity]. Qed.

Lemma logged_trans (w1 w2 w3 : World) :
  logged w1 w2 -> logged w2 w3 -> logged w1 w3.
Proof.
  intros (a & Ha & Hwa) (b & Hb & Hwb). exists (a ++ b). split.
  - rewrite Hb, Ha. symmetry. apply app_assoc.
  - rewrite forallb_app, Hwa, Hwb. reflexivity.
Qed.

Lemma logged_print (l : LogLine) (w : World) :
  is_walk_line l = true -> logged w (print l w).
Proof. intros H. exists [l]. cbn. rewrite H. auto. Qed.

Lemma logged_set_stats (f : Stats -> Stats) (w : World) : logged w (set_stats f w).
Proof. exists []. split; [symmetry; apply app_nil_r | reflexivity]. Qed.

Lemma logged_visit (w : World) : logged w (visit w).
Proof. exists []. split; [symmetry; apply app_nil_r | reflexivity]. Qed.

Lemma logged_visit_print (l : LogLine) (w : World) :
  is_walk_line l = true -> logged w (print l (visit w)).
Proof. intros H. exists [l]. cbn. rewrite H. auto. Qed.

Lemma entries_after_refl (files : list Dirent) : entries_after files files.
Proof.
  induction files as [|e files IH]; [constructor|].
  revert files IH.
  induction e as [f|name fails sub IHsub] using Dirent_files_ind;
    intros files IH.
  - constructor; [constructor | exact IH].
  - constructor; [|exact IH].
    induction IHsub as [|e sub He _ IHs]; [constructor|].
    apply He. exact IHs.
Qed.

Lemma classify_Delete (name : jsstring) :
  classify name = Delete <-> deletable name = true.
Proof.
  unfold classify. destruct (deletable name); [tauto|].
  destruct (eqb _ EXT_JS); [split; discriminate|].
  destruct (eqb _ EXT_JSON); split; discriminate.
Qed.

Section WalkerAsAWhole.

Variable Terser_minify : jsstring -> JsError + option jsstring.
Variable JsValue : Type.
Variable JSON_parse : jsstring -> option JsValue.
Variable JSON_stringify : JsValue -> jsstring.

#[local] Abbreviation compressJavaScriptFile' := (compressJavaScriptFile Terser_minify).
#[local] Abbreviation compressJsonFile' := (compressJsonFile JSON_parse JSON_stringify).
#[local] Abbreviation compressFile' := (compressFile Terser_minify JSON_parse JSON_stringify).
#[local] Abbreviation processFile' := (processFile Terser_minify JSON_parse JSON_stringify).
#[local] Abbreviation processDirent' := (processDirent Terser_minify JSON_parse JSON_stringify).
#[local] Abbreviation processDirectory' := (processDirectory Terser_minify JSON_parse JSON_stringify).
#[local] Abbreviation dispatch' := (dispatch Terser_minify JSON_parse JSON_stringify).
#[local] Abbreviation deleteAndCompress' := (deleteAndCompress Terser_minify JSON_parse JSON_stringify).
#[local] Abbreviation main' := (main Terser_minify JSON_parse JSON_stringify).

(** *** One file *)

(** What the two compressors and the [catch] around them do to the file
    and to the console. *)
Lemma compressJavaScriptFile_after (filePath : jsstring) (file : File) (w : World) :
  let '(w', file', _) := compressJavaScriptFile' filePath file w in
  logged w w' /\
  (file' = file \/
   exists text,
     read_fails file = false /\ length text < length (f_text file) /\
     (write_fails file = false /\
      file' = holding (utf8_length text) text file
      \/ exists k,
           write_fails file = true /\ write_breaks file = Some k /\
           file' = holding (Z.max 0 (Z.min k (utf8_length text)))
                           (utf8_prefix k text) file)).
Proof.
  unfold compressJavaScriptFile, fs_readFile, fs_writeFile.
  destruct (read_fails file) eqn:Hr; [split; [apply logged_refl | auto]|].
  destruct (module_regex_test (f_text file));
    [split; [apply logged_refl | auto]|]. cbn [negb].
  destruct (Terser_minify (f_text file)) as [err|[code|]];
    [split; [apply logged_print; reflexivity | auto]
    | | split; [apply logged_refl | auto]].
  destruct (truthy code); [|split; [apply logged_refl | auto]]. cbn [andb].
  destruct (Z.ltb_spec (length code) (length (f_text file))) as [Hlt|Hge];
    [|split; [apply logged_refl | auto]].
  destruct (write_fails file) eqn:Hw.
  - destruct (write_breaks file) as [k|] eqn:Hk;
      (split; [apply logged_print; reflexivity|]); [|auto].
    right. exists code. eauto 8.
  - split.
    + eapply logged_trans; apply logged_set_stats.
    + right. exists code. auto.
Qed.

Lemma compressJsonFile_after (filePath : jsstring) (file : File) (w : World) :
  let '(w', file', _) := compressJsonFile' filePath file w in
  logged w w' /\
  (file' = file \/
   exists text,
     read_fails file = false /\ length text < length (f_text file) /\
     (write_fails file = false /\
      file' = holding (utf8_length text) text file
      \/ exists k,
           write_fails file = true /\ write_breaks file = Some k /\
           file' = holding (Z.max 0 (Z.min k (utf8_length text)))
                           (utf8_prefix k text) file)).
Proof.
  unfold compressJsonFile, fs_readFile, fs_writeFile.
  destruct (read_fails file) eqn:Hr; [split; [apply logged_refl | auto]|].
  destruct (JSON_parse (f_text file)) as [json|];
    [|split; [apply logged_print; reflexivity | auto]].
  destruct (Z.ltb_spec (length (JSON_stringify json)) (length (f_text file)))
    as [Hlt|Hge]; [|split; [apply logged_refl | auto]].
  destruct (write_fails file) eqn:Hw.
  - destruct (write_breaks file) as [k|] eqn:Hk;
      (split; [apply logged_print; reflexivity|]); [|auto].
    right. exists (JSON_stringify json). eauto 8.
  - split.
    + eapply logged_trans; apply logged_set_stats.
    + right. exists (JSON_stringify json). auto.
Qed.

Lemma catch_compress_logged (filePath : jsstring) (r : World * File * Outcome) :
  let '(w', file', _) := catch_compress filePath r in
  logged (fst (fst r)) w' /\ file' = snd (fst r).
Proof.
  destruct r as [[w f] [|err]]; cbn [catch_compress fst snd].
  - split; [apply logged_refl | reflexivity].
  - split; [apply logged_print; reflexivity | reflexivity].
Qed.

Lemma processFile_after (dir : jsstring) (file : File) (w : World) :
  entry_name (f_name file) ->
  let '(w', remains, _) := processFile' file (Path.join dir (f_name file)) w in
  logged w w' /\ file_after file remains.
Proof.
  intros Hname. rewrite (processFile_dispatch Terser_minify JsValue JSON_parse JSON_stringify
            dir file w Hname).
  set (path := Path.join dir (f_name file)).
  unfold dispatch.
  destruct (classify (f_name file)) eqn:Hclass.
  - unfold deleteFile, fs_stat, fs_unlink.
    destruct (stat_fails file) eqn:Hs.
    + split; [apply logged_visit | constructor].
    + destruct (unlink_fails file) eqn:Hu; cbv beta iota zeta.
      * split; [|constructor].
        exists [Err_Deleting path (FsError "unlink" path);
                Log_Deleted path (f_size file)].
        cbn. rewrite <- app_assoc. auto.
      * split; [|constructor; assumption].
        exists [Log_Deleted path (f_size file)]. cbn. auto.
  - pose proof (compressJavaScriptFile_after path file
                  (print (Log_Compressing path) (visit w))) as He.
    destruct (compressJavaScriptFile' path file _) as [[w1 f1] o1].
    pose proof (catch_compress_logged path (w1, f1, o1)) as Hc.
    destruct (catch_compress path (w1, f1, o1)) as [[w2 f2] o2].
    cbn [fst snd] in Hc. destruct He as [Hl Hf], Hc as [Hl2 ->]. split.
    + apply (logged_trans _ _ _ (logged_visit_print (Log_Compressing path) w eq_refl)).
      eapply logged_trans; eassumption.
    + destruct Hf as [->|(text & Hr & Hlt & [[Hw ->]|(k & Hw & Hk & ->)])];
        [constructor | apply after_rewritten | eapply after_broken_write];
        auto.
  - pose proof (compressJsonFile_after path file
                  (print (Log_Compressing path) (visit w))) as He.
    destruct (compressJsonFile' path file _) as [[w1 f1] o1].
    pose proof (catch_compress_logged path (w1, f1, o1)) as Hc.
    destruct (catch_compress path (w1, f1, o1)) as [[w2 f2] o2].
    cbn [fst snd] in Hc. destruct He as [Hl Hf], Hc as [Hl2 ->]. split.
    + apply (logged_trans _ _ _ (logged_visit_print (Log_Compressing path) w eq_refl)).
      eapply logged_trans; eassumption.
    + destruct Hf as [->|(text & Hr & Hlt & [[Hw ->]|(k & Hw & Hk & ->)])];
        [constructor | apply after_rewritten | eapply after_broken_write];
        auto.
  - split; [|constructor].
    apply (logged_visit_print (Log_Compressing path) w eq_refl).
Qed.

(** *** The loop and the tree *)

Lemma for_of_after
  (body : Dirent -> World -> World * option Dirent * Outcome)
  (files : list Dirent) :
  Forall (fun e => forall w,
            names_ok (files_of_dirent e) ->
            let '(w', r, _) := body e w in
            logged w w' /\ entry_after e r) files ->
  forall w,
    names_ok (flat_map files_of_dirent files) ->
    let '(w', files', _) := for_of body files w in
    logged w w' /\ entries_after files files'.
Proof.
  induction 1 as [|e files He Hfiles IH]; intros w Hnames.
  - cbn. split; [apply logged_refl | constructor].
  - cbn [for_of flat_map]. cbn [flat_map] in Hnames.
    unfold names_ok in Hnames.
    rewrite Forall_app in Hnames. destruct Hnames as [Hn1 Hn2].
    specialize (He w Hn1).
    destruct (body e w) as [[w1 remains] [|err]].
    + specialize (IH w1 Hn2).
      destruct (for_of body files w1) as [[w2 rest'] o].
      destruct He as [Hl1 He], IH as [Hl2 Hrest]. split.
      * eapply logged_trans; eassumption.
      * destruct e as [f|name fails sub], remains as [[f'|name' fails' sub']|];
          cbn in He; try contradiction.
        -- constructor; assumption.
        -- constructor; assumption.
        -- destruct He as (-> & -> & Hsub). constructor; assumption.
    + destruct He as [Hl1 He]. split; [exact Hl1|].
      destruct e as [f|name fails sub], remains as [[f'|name' fails' sub']|];
        cbn in He; try contradiction.
      * constructor; [assumption | apply entries_after_refl].
      * constructor; [assumption | apply entries_after_refl].
      * destruct He as (-> & -> & Hsub).
        constructor; [assumption | apply entries_after_refl].
Qed.

Lemma processDirent_after (e : Dirent) :
  forall dir w,
    names_ok (files_of_dirent e) ->
    let '(w', r, _) := processDirent' dir e w in
    logged w w' /\ entry_after e r.
Proof.
  induction e as [f|name fails files IH] using Dirent_files_ind;
    intros dir w Hnames.
  - cbn [processDirent dirent_name files_of_dirent] in *.
    inversion Hnames as [|? ? Hname _]; subst.
    pose proof (processFile_after dir f w Hname) as Hafter.
    destruct (processFile' f (Path.join dir (f_name f)) w) as [[w' r] o].
    destruct Hafter as [Hl Hf]. split; [exact Hl|].
    destruct r; exact Hf.
  - cbn [processDirent dirent_name files_of_dirent] in *.
    destruct fails.
    + split; [apply logged_refl|]. cbn. auto using entries_after_refl.
    + assert (Hbody : Forall (fun e => forall w,
                 names_ok (files_of_dirent e) ->
                 let '(w', r, _) :=
                   processDirent' (Path.join dir name) e w in
                 logged w w' /\ entry_after e r) files).
      { eapply Forall_impl; [|exact IH]. intros e He w0. apply He. }
      pose proof (for_of_after _ files Hbody w Hnames) as Hloop.
      destruct (for_of (processDirent' (Path.join dir name)) files w)
        as [[w' files'] o].
      destruct Hloop as [Hl Hfiles]. split; [exact Hl|]. cbn. auto.
Qed.

Lemma processDirectory_after (dir : jsstring) (d : Disk) (w : World) :
  names_ok (files_of d) ->
  let '(w', d', _) := processDirectory' dir d w in
  logged w w' /\
  match d with
  | Absent => d' = Absent
  | Present fails files =>
      exists files', d' = Present fails files' /\ entries_after files files'
  end.
Proof.
  intros Hnames. destruct d as [|fails files]; cbn [processDirectory files_of] in *.
  - split; [apply logged_refl | reflexivity].
  - destruct fails.
    + split; [apply logged_refl|]. exists files. auto using entries_after_refl.
    + assert (Hbody : Forall (fun e => forall w,
                 names_ok (files_of_dirent e) ->
                 let '(w', r, _) := processDirent' dir e w in
                 logged w w' /\ entry_after e r) files).
      { apply Forall_forall. intros e _ w0. apply processDirent_after. }
      pose proof (for_of_after _ files Hbody w Hnames) as Hloop.
      destruct (for_of (processDirent' dir) files w) as [[w' files'] o].
      destruct Hloop as [Hl Hfiles]. split; [exact Hl|].
      exists files'. auto.
Qed.

(** X9: the walk removes no directory and renames nothing; it removes only
    files that are classified Delete, and changes only files that are
    classified CompressJS or CompressJSON and can be read: such a file is
    rewritten to a strictly shorter text or, when the write breaks off
    after the open, left with the first bytes of that text.  Every other
    file is left as it was. *)
Theorem walk_touches_only_what_it_should
  (dir : jsstring) (fails : bool) (files : list Dirent) (w : World) :
  names_ok (flat_map files_of_dirent files) ->
  exists files',
    snd (fst (processDirectory' dir (Present fails files) w))
    = Present fails files' /\
    entries_after files files'.
Proof.
  intros Hnames.
  pose proof (processDirectory_after dir (Present fails files) w Hnames) as H.
  destruct (processDirectory' dir (Present fails files) w) as [[w' d'] o].
  exact (proj2 H).
Qed.


(** *** The console *)

Lemma deleteFile_logged (file : File) (fullPath : jsstring) (w : World) :
  logged w (fst (fst (deleteFile file fullPath w))).
Proof.
  unfold deleteFile, fs_stat, fs_unlink.
  destruct (stat_fails file); [apply logged_refl|].
  destruct (unlink_fails file); cbv beta iota zeta.
  - exists [Err_Deleting fullPath (FsError "unlink" fullPath);
            Log_Deleted fullPath (f_size file)].
    cbn. rewrite <- app_assoc. auto.
  - exists [Log_Deleted fullPath (f_size file)]. cbn. auto.
Qed.

Lemma compressFile_logged (filePath : jsstring) (file : File) (w : World) :
  logged w (fst (fst (compressFile' filePath file w))).
Proof.
  unfold compressFile.
  set (w0 := print (Log_Compressing filePath) w).
  assert (H0 : logged w w0) by (apply logged_print; reflexivity).
  destruct (eqb (Path.extname filePath) EXT_JS).
  - pose proof (compressJavaScriptFile_after filePath file w0) as He.
    destruct (compressJavaScriptFile' filePath file w0) as [[w1 f1] o1].
    pose proof (catch_compress_logged filePath (w1, f1, o1)) as Hc.
    destruct (catch_compress filePath (w1, f1, o1)) as [[w2 f2] o2].
    cbn [fst] in *. destruct He as [Hl _], Hc as [Hl2 _].
    eauto using logged_trans.
  - destruct (eqb (Path.extname filePath) EXT_JSON).
    + pose proof (compressJsonFile_after filePath file w0) as He.
      destruct (compressJsonFile' filePath file w0) as [[w1 f1] o1].
      pose proof (catch_compress_logged filePath (w1, f1, o1)) as Hc.
      destruct (catch_compress filePath (w1, f1, o1)) as [[w2 f2] o2].
      cbn [fst] in *. destruct He as [Hl _], Hc as [Hl2 _].
      eauto using logged_trans.
    + exact H0.
Qed.

Lemma processFile_logged (file : File) (fullPath : jsstring) (w : World) :
  logged w (fst (fst (processFile' file fullPath w))).
Proof.
  unfold processFile.
  destruct (_ || _).
  - apply (logged_trans _ _ _ (logged_visit w)), deleteFile_logged.
  - pose proof (compressFile_logged fullPath file (visit w)) as H.
    destruct (compressFile' fullPath file (visit w)) as [[w' f'] o].
    apply (logged_trans _ _ _ (logged_visit w)), H.
Qed.

Lemma for_of_logged
  (body : Dirent -> World -> World * option Dirent * Outcome)
  (files : list Dirent) :
  Forall (fun e => forall w, logged w (fst (fst (body e w)))) files ->
  forall w, logged w (fst (fst (for_of body files w))).
Proof.
  induction 1 as [|e files He Hfiles IH]; intros w.
  - apply logged_refl.
  - cbn [for_of]. specialize (He w).
    destruct (body e w) as [[w1 remains] [|err]]; [|exact He].
    specialize (IH w1).
    destruct (for_of body files w1) as [[w2 rest'] o].
    cbn [fst] in *. eauto using logged_trans.
Qed.

Lemma processDirent_logged (e : Dirent) :
  forall dir w, logged w (fst (fst (processDirent' dir e w))).
Proof.
  induction e as [f|name fails files IH] using Dirent_files_ind; intros dir w.
  - cbn [processDirent dirent_name].
    pose proof (processFile_logged f (Path.join dir (f_name f)) w) as H.
    destruct (processFile' f (Path.join dir (f_name f)) w) as [[w' r] o].
    exact H.
  - cbn [processDirent dirent_name].
    destruct fails; [apply logged_refl|].
    assert (Hbody : Forall (fun e => forall w,
               logged w (fst (fst (processDirent' (Path.join dir name) e w))))
                      files).
    { eapply Forall_impl; [|exact IH]. intros e He w0. apply He. }
    pose proof (for_of_logged _ files Hbody w) as Hloop.
    destruct (for_of (processDirent' (Path.join dir name)) files w)
      as [[w' files'] o].
    exact Hloop.
Qed.

Lemma processDirectory_logged (dir : jsstring) (d : Disk) (w : World) :
  logged w (fst (fst (processDirectory' dir d w))).
Proof.
  destruct d as [|fails files]; cbn [processDirectory]; [apply logged_refl|].
  destruct fails; [apply logged_refl|].
  assert (Hbody : Forall (fun e => forall w,
             logged w (fst (fst (processDirent' dir e w)))) files).
  { apply Forall_forall. intros e _ w0. apply processDirent_logged. }
  pose proof (for_of_logged _ files Hbody w) as Hloop.
  destruct (for_of (processDirent' dir) files w) as [[w' files'] o].
  exact Hloop.
Qed.

Lemma walk_line_no_summary (lines : list LogLine) :
  forallb is_walk_line lines = true ->
  forallb (fun l => negb (is_summary l)) lines = true.
Proof.
  rewrite !forallb_forall. intros H l Hl. specialize (H l Hl).
  destruct l; try discriminate; reflexivity.
Qed.

(** X12: whatever happens, the script ends by printing the summary: the last
    line of the console is the summary of the statistics as they are then,
    and no line before it is a summary. *)
Theorem summary_is_the_last_line_and_the_only_one (env : Env) (d : Disk) :
  exists lines,
    console (fst (main' env d))
    = lines ++ [Log_Summary (stats (fst (main' env d)))] /\
    forallb (fun l => negb (is_summary l)) lines = true.
Proof.
  unfold main, deleteAndCompress, executeCommand.
  destruct (fs_rm _ (rm_refused env) (rm_leaves env) d) as [rest [err|]].
  { exists [Err_Caught err]. split; reflexivity. }
  destruct (npm_error env) as [err|].
  { exists [Log_DeletedFolder (js "node_modules"); Err_CommandExecution err;
            Err_Caught err]. split; reflexivity. }
  set (w0 := print Log_NpmInstalled
               (print (Log_DeletedFolder (js "node_modules")) world0)).
  pose proof (processDirectory_logged (js "node_modules") (npm_disk env) w0)
    as Hl.
  destruct (processDirectory' (js "node_modules") (npm_disk env) w0)
    as [[w' d'] [|err]]; cbn [fst] in *;
    destruct Hl as (lines & Hc & Hw); apply walk_line_no_summary in Hw.
  - exists (console w0 ++ lines). cbn [print console stats]. split.
    + rewrite Hc. reflexivity.
    + rewrite forallb_app, Hw. reflexivity.
  - exists ((console w0 ++ lines) ++ [Err_Caught err]).
    cbn [print console stats]. split.
    + rewrite Hc. reflexivity.
    + rewrite !forallb_app, Hw. reflexivity.
Qed.

(** *** When the walk resolves *)

Lemma processFile_outcome (dir : jsstring) (file : File) (w : World) :
  entry_name (f_name file) ->
  let path := Path.join dir (f_name file) in
  let '(w', remains, o) := processFile' file path w in
  (stat_refused file = true ->
   o = Rejected (FsError "stat" path) /\ remains = Some file /\ w' = visit w) /\
  (stat_refused file = false -> o = Resolved).
Proof.
  intros Hname path.
  pose proof (processFile_step Terser_minify JsValue JSON_parse JSON_stringify
            dir file w Hname) as Hstep.
  fold path in Hstep. unfold processFile, stat_refused, deletable in *.
  destruct (_ || _).
  - unfold deleteFile, fs_stat in *. destruct (stat_fails file).
    + split; [auto | discriminate].
    + destruct (match fs_unlink path file with inl _ => _ | inr _ => _ end).
      split; [discriminate | reflexivity].
  - destruct (compressFile' path file (visit w)) as [[w' f'] o].
    destruct Hstep as (_ & _ & _ & Ho). split; [discriminate | exact Ho].
Qed.

Lemma for_of_resolved
  (body : Dirent -> World -> World * option Dirent * Outcome)
  (files : list Dirent) :
  Forall (fun e => forall w,
            names_ok (files_of_dirent e) ->
            snd (body e w) = Resolved ->
            listable e = true /\ no_stat_refused (files_of_dirent e)) files ->
  forall w,
    names_ok (flat_map files_of_dirent files) ->
    snd (for_of body files w) = Resolved ->
    forallb listable files = true /\
    no_stat_refused (flat_map files_of_dirent files).
Proof.
  induction 1 as [|e files He Hfiles IH]; intros w Hnames.
  - intros _. split; [reflexivity | constructor].
  - cbn [for_of flat_map forallb]. cbn [flat_map] in Hnames.
    unfold names_ok in Hnames.
    rewrite Forall_app in Hnames. destruct Hnames as [Hn1 Hn2].
    specialize (He w Hn1).
    destruct (body e w) as [[w1 remains] [|err]]; [|discriminate].
    specialize (IH w1 Hn2).
    destruct (for_of body files w1) as [[w2 rest'] o].
    cbn [snd] in *. intros ->.
    destruct (He eq_refl) as [Hl Hs], (IH eq_refl) as [Hl' Hs'].
    rewrite Hl, Hl'. split; [reflexivity|].
    unfold no_stat_refused. rewrite Forall_app. auto.
Qed.

Lemma processDirent_resolved (e : Dirent) :
  forall dir w,
    names_ok (files_of_dirent e) ->
    snd (processDirent' dir e w) = Resolved ->
    listable e = true /\ no_stat_refused (files_of_dirent e).
Proof.
  induction e as [f|name fails files IH] using Dirent_files_ind;
    intros dir w Hnames.
  - cbn [processDirent dirent_name files_of_dirent listable] in *.
    inversion Hnames as [|? ? Hname _]; subst.
    pose proof (processFile_outcome dir f w Hname) as Ho. cbv zeta in Ho.
    destruct (processFile' f (Path.join dir (f_name f)) w) as [[w' r] o].
    cbn [snd]. intros ->. split; [reflexivity|].
    constructor; [|constructor].
    destruct (stat_refused f); [|reflexivity].
    destruct Ho as [Ho _]. destruct (Ho eq_refl) as [Hr _]. discriminate.
  - cbn [processDirent dirent_name files_of_dirent listable] in *.
    destruct fails; [discriminate|].
    assert (Hbody : Forall (fun e => forall w,
               names_ok (files_of_dirent e) ->
               snd (processDirent' (Path.join dir name) e w) = Resolved ->
               listable e = true /\ no_stat_refused (files_of_dirent e)) files).
    { eapply Forall_impl; [|exact IH]. intros e He w0. apply He. }
    pose proof (for_of_resolved _ files Hbody w Hnames) as Hloop.
    destruct (for_of (processDirent' (Path.join dir name)) files w)
      as [[w' files'] o].
    exact Hloop.
Qed.

Lemma walkable_spec (d : Disk) :
  walkable d = true <->
  match d with
  | Absent => False
  | Present fails files =>
      fails = false /\ forallb listable files = true /\
      no_stat_refused (flat_map files_of_dirent files)
  end.
Proof.
  destruct d as [|fails files]; cbn [walkable]; [split; [discriminate | tauto]|].
  rewrite !andb_true_iff, negb_true_iff.
  assert (Hs : forallb (fun f => negb (stat_refused f))
                 (flat_map files_of_dirent files) = true
               <-> no_stat_refused (flat_map files_of_dirent files)).
  { unfold no_stat_refused. rewrite forallb_forall, Forall_forall.
    split; intros H f Hin; specialize (H f Hin);
      destruct (stat_refused f); auto; discriminate. }
  tauto.
Qed.

(** X10: the walk resolves exactly on the trees that are there, whose
    directories can all be listed and in which no file to delete refuses to
    be measured; no other failure on a file stops it.  When it resolves it
    has visited every file. *)
Theorem walk_resolves_exactly_on_walkable_trees
  (dir : jsstring) (d : Disk) (w : World) :
  names_ok (files_of d) ->
  (snd (processDirectory' dir d w) = Resolved <-> walkable d = true) /\
  (walkable d = true ->
   visited (fst (fst (processDirectory' dir d w)))
   = visited w + Z.of_nat (List.length (files_of d))).
Proof.
  intros Hnames. rewrite walkable_spec.
  pose proof (processDirectory_walked Terser_minify JsValue JSON_parse JSON_stringify
            dir d w Hnames) as Hwalk.
  assert (Hconv : snd (processDirectory' dir d w) = Resolved ->
                  match d with
                  | Absent => False
                  | Present fails files =>
                      fails = false /\ forallb listable files = true /\
                      no_stat_refused (flat_map files_of_dirent files)
                  end).
  { destruct d as [|fails files]; cbn [processDirectory files_of] in *;
      [discriminate|].
    destruct fails; [discriminate|].
    assert (Hbody : Forall (fun e => forall w,
               names_ok (files_of_dirent e) ->
               snd (processDirent' dir e w) = Resolved ->
               listable e = true /\ no_stat_refused (files_of_dirent e)) files).
    { apply Forall_forall. intros e _ w0. apply processDirent_resolved. }
    pose proof (for_of_resolved _ files Hbody w Hnames) as Hloop.
    destruct (for_of (processDirent' dir) files w) as [[w' files'] o].
    cbn [snd] in *. tauto. }
  destruct (processDirectory' dir d w) as [[w' d'] o]. cbn [fst snd] in *.
  destruct Hwalk as [(seen & rest & Hall & Hrest & Hv & _) Hres].
  assert (Hok : match d with
                | Absent => False
                | Present fails files =>
                    fails = false /\ forallb listable files = true /\
                    no_stat_refused (flat_map files_of_dirent files)
                end -> o = Resolved).
  { destruct d as [|fails files]; [tauto|]. cbn [files_of] in *.
    intros (Hf & Hl & Hs). apply Hres; auto. }
  split; [split; assumption|].
  intros Hw. rewrite Hall, (Hrest (Hok Hw)), app_nil_r. exact Hv.
Qed.

(** X5: [processFile] rejects only when the size of a file to delete cannot be
    read, with the error of [fs.stat]; the file is then left alone and
    nothing is printed or counted. *)
Theorem processFile_rejects_only_at_stat
  (dir : jsstring) (file : File) (w : World) :
  entry_name (f_name file) ->
  let path := Path.join dir (f_name file) in
  (stat_refused file = true ->
   processFile' file path w
   = (visit w, Some file, Rejected (FsError "stat" path))) /\
  (stat_refused file = false ->
   snd (processFile' file path w) = Resolved).
Proof.
  intros Hname path.
  pose proof (processFile_outcome dir file w Hname) as Ho. fold path in Ho.
  cbv zeta in Ho.
  destruct (processFile' file path w) as [[w' r] o]. cbn [snd].
  destruct Ho as [Hrej Hres]. split; [|exact Hres].
  intros Hs. destruct (Hrej Hs) as (-> & -> & ->). reflexivity.
Qed.

(** X6: [compressFile] never rejects: an error of either compressor ends in
    its [catch].  A file with the extension [.js] or [.json] that cannot be
    read is reported there and left as it is, and nothing is counted. *)
Theorem compressFile_never_rejects
  (filePath : jsstring) (file : File) (w : World) :
  snd (compressFile' filePath file w) = Resolved /\
  (read_fails file = true ->
   Path.extname filePath = EXT_JS \/ Path.extname filePath = EXT_JSON ->
   compressFile' filePath file w
   = (print (Err_Compressing filePath (FsError "open" filePath))
        (print (Log_Compressing filePath) w), file, Resolved)).
Proof.
  unfold compressFile. split.
  - match goal with
    | |- snd (catch_compress _ ?r) = _ =>
        pose proof (catch_compress_resolves filePath r) as H;
        destruct (catch_compress filePath r) as [[w' f'] o]
    end.
    exact (proj1 H).
  - intros Hr Hext.
    unfold compressJavaScriptFile, compressJsonFile, fs_readFile.
    rewrite Hr.
    destruct Hext as [->| ->]; reflexivity.
Qed.

(** *** How each class of file is handled when nothing fails *)

(** X4: a file to delete that can be measured and removed is removed: one
    line is printed, and the file is counted once with its size. *)
Theorem processFile_removes
  (file : File) (fullPath : jsstring) (w : World) :
  deletable (f_name file) = true ->
  stat_fails file = false -> unlink_fails file = false ->
  processFile' file fullPath w
  = (mkWorld (add_spaceFreed (f_size file) (incr_deletedFiles (stats w)))
             (console w ++ [Log_Deleted fullPath (f_size file)])
             (visited w + 1),
     None, Resolved).
Proof.
  intros Hdel Hs Hu. unfold processFile.
  unfold deletable in Hdel. rewrite Hdel.
  unfold deleteFile, fs_stat, fs_unlink. rewrite Hs, Hu. reflexivity.
Qed.

(** X7: a JavaScript file that is not to be deleted, can be read and written,
    has no module marker and for which the minifier returns a text that is
    not empty and strictly shorter, is rewritten with that text and counted
    once, with the difference of the two lengths. *)
Theorem processFile_minifies
  (dir : jsstring) (file : File) (w : World) (code : jsstring) :
  entry_name (f_name file) ->
  classify (f_name file) = CompressJS ->
  read_fails file = false -> write_fails file = false ->
  module_regex_test (f_text file) = false ->
  Terser_minify (f_text file) = inr (Some code) ->
  code <> [] -> length code < length (f_text file) ->
  let path := Path.join dir (f_name file) in
  processFile' file path w
  = (mkWorld (add_spaceSaved (length (f_text file) - length code)
                (incr_jsFilesCompressed (stats w)))
             (console w ++ [Log_Compressing path])
             (visited w + 1),
     Some (mkFile (f_name file) (utf8_length code) code (stat_fails file)
                  (unlink_fails file) (read_fails file) (write_fails file)
                  (write_breaks file)),
     Resolved).
Proof.
  intros Hname Hclass Hr Hw Hre Hmin Hcode Hlt path.
  unfold path. rewrite (processFile_dispatch Terser_minify JsValue JSON_parse JSON_stringify
            dir file w Hname), Hclass.
  unfold dispatch, compressJavaScriptFile, fs_readFile, fs_writeFile, holding.
  rewrite Hr, Hre, Hmin, Hw. cbn [negb].
  destruct code as [|c code]; [contradiction|]. cbn [truthy andb].
  apply Z.ltb_lt in Hlt. rewrite Hlt. reflexivity.
Qed.

(** X8: a JSON file that is not to be deleted, can be read and written, and
    whose text parses to a value that [JSON.stringify] writes strictly
    shorter, is rewritten with that text and counted once, with the
    difference of the two lengths. *)
Theorem processFile_compacts
  (dir : jsstring) (file : File) (w : World) (json : JsValue) :
  entry_name (f_name file) ->
  classify (f_name file) = CompressJSON ->
  read_fails file = false -> write_fails file = false ->
  JSON_parse (f_text file) = Some json ->
  length (JSON_stringify json) < length (f_text file) ->
  let path := Path.join dir (f_name file) in
  processFile' file path w
  = (mkWorld (add_spaceSaved (length (f_text file) - length (JSON_stringify json))
                (incr_jsonFilesCompressed (stats w)))
             (console w ++ [Log_Compressing path])
             (visited w + 1),
     Some (mkFile (f_name file) (utf8_length (JSON_stringify json))
                  (JSON_stringify json) (stat_fails file)
                  (unlink_fails file) (read_fails file) (write_fails file)
                  (write_breaks file)),
     Resolved).
Proof.
  intros Hname Hclass Hr Hw Hparse Hlt path.
  unfold path. rewrite (processFile_dispatch Terser_minify JsValue JSON_parse JSON_stringify
            dir file w Hname), Hclass.
  unfold dispatch, compressJsonFile, fs_readFile, fs_writeFile, holding.
  rewrite Hr, Hparse, Hw.
  apply Z.ltb_lt in Hlt. rewrite Hlt. reflexivity.
Qed.

(** *** The statistics, class by class *)

Lemma count_class_cons (d : Decision) (f : File) (fs : list File) :
  count_class d (f :: fs)
  = (if decision_eqb (classify (f_name f)) d then 1 else 0) + count_class d fs.
Proof.
  unfold count_class. cbn [filter].
  destruct (decision_eqb (classify (f_name f)) d); cbn [List.length]; lia.
Qed.

Lemma count_class_nonneg (d : Decision) (fs : list File) : 0 <= count_class d fs.
Proof. unfold count_class. lia. Qed.

Lemma compressible_text_nonneg (fs : list File) : 0 <= compressible_text fs.
Proof.
  induction fs as [|f fs IH]; cbn [compressible_text]; [lia|].
  unfold length. destruct (classify (f_name f)); lia.
Qed.

Lemma deletable_bytes_nonneg (fs : list File) :
  Forall (fun f => 0 <= f_size f) fs -> 0 <= deletable_bytes fs.
Proof.
  induction 1 as [|f fs Hf _ IH]; cbn [deletable_bytes]; [lia|].
  destruct (classify (f_name f)); lia.
Qed.

Lemma run_steps_by_class (fs : list File) (s s' : Stats) :
  run_steps fs s s' ->
  deletedFiles s' - deletedFiles s <= count_class Delete fs /\
  jsFilesCompressed s' - jsFilesCompressed s <= count_class CompressJS fs /\
  jsonFilesCompressed s' - jsonFilesCompressed s <= count_class CompressJSON fs /\
  0 <= spaceSaved s' - spaceSaved s <= compressible_text fs /\
  (Forall (fun f => 0 <= f_size f) fs ->
   0 <= spaceFreed s' - spaceFreed s <= deletable_bytes fs).
Proof.
  induction 1 as [s|f fs s1 s2 s3 Hstep Hrun IH].
  - cbn. repeat split; intros; lia.
  - destruct IH as (Hd & Hjs & Hjson & Hsaved & Hfreed).
    rewrite !count_class_cons. cbn [compressible_text deletable_bytes].
    pose proof (compressible_text_nonneg fs) as Hc.
    pose proof (count_class_nonneg Delete fs) as Hc1.
    assert (Hall : forall P : Prop,
               (0 <= f_size f -> 0 <= spaceFreed s3 - spaceFreed s2
                                 <= deletable_bytes fs -> P) ->
               Forall (fun f => 0 <= f_size f) (f :: fs) -> P).
    { intros P HP Hsz. inversion Hsz as [|? ? Hf Hfs]; subst.
      pose proof (deletable_bytes_nonneg fs Hfs). auto. }
    destruct Hstep as [|Hcl|n Hcl Hn|n Hcl Hn];
      destruct (classify (f_name f)); try discriminate;
      cbn [decision_eqb jsFilesCompressed jsonFilesCompressed deletedFiles
           spaceSaved spaceFreed] in *;
      unfold length in *;
      (split; [|split; [|split; [|split]]]; try lia; apply Hall; intros; lia).
Qed.

Lemma count_class_app (d : Decision) (a b : list File) :
  count_class d (a ++ b) = count_class d a + count_class d b.
Proof.
  unfold count_class. rewrite filter_app, length_app. lia.
Qed.

Lemma compressible_text_app (a b : list File) :
  compressible_text (a ++ b) = compressible_text a + compressible_text b.
Proof.
  induction a as [|f a IH]; cbn [compressible_text app]; [reflexivity|].
  destruct (classify (f_name f)); lia.
Qed.

Lemma deletable_bytes_app (a b : list File) :
  deletable_bytes (a ++ b) = deletable_bytes a + deletable_bytes b.
Proof.
  induction a as [|f a IH]; cbn [deletable_bytes app]; [reflexivity|].
  destruct (classify (f_name f)); lia.
Qed.

(** X11: over a walk, each counter is bounded by the files of its class in the
    tree, the space saved lies between zero and the total length of the
    texts of the files classified CompressJS or CompressJSON, and, when no
    size is negative, the space freed lies between zero and the total size
    of the files classified Delete. *)
Theorem statistics_bounded_class_by_class
  (dir : jsstring) (d : Disk) (w : World) :
  names_ok (files_of d) ->
  let s := stats w in
  let s' := stats (fst (fst (processDirectory' dir d w))) in
  deletedFiles s' - deletedFiles s <= count_class Delete (files_of d) /\
  jsFilesCompressed s' - jsFilesCompressed s
  <= count_class CompressJS (files_of d) /\
  jsonFilesCompressed s' - jsonFilesCompressed s
  <= count_class CompressJSON (files_of d) /\
  0 <= spaceSaved s' - spaceSaved s <= compressible_text (files_of d) /\
  (Forall (fun f => 0 <= f_size f) (files_of d) ->
   0 <= spaceFreed s' - spaceFreed s <= deletable_bytes (files_of d)).
Proof.
  intros Hnames.
  pose proof (processDirectory_walked Terser_minify JsValue JSON_parse JSON_stringify
            dir d w Hnames) as Hwalk.
  destruct (processDirectory' dir d w) as [[w' d'] o]. cbn [fst].
  destruct Hwalk as [(seen & rest & Hall & _ & _ & Hrun) _].
  destruct (run_steps_by_class seen _ _ Hrun)
    as (Hd & Hjs & Hjson & Hsaved & Hfreed).
  cbv zeta. rewrite Hall, !count_class_app, compressible_text_app,
    deletable_bytes_app.
  pose proof (count_class_nonneg Delete rest).
  pose proof (count_class_nonneg CompressJS rest).
  pose proof (count_class_nonneg CompressJSON rest).
  pose proof (compressible_text_nonneg rest).
  split; [|split; [|split; [|split]]]; try lia.
  intros Hsz. rewrite Forall_app in Hsz. destruct Hsz as [Hs Hr].
  specialize (Hfreed Hs). pose proof (deletable_bytes_nonneg rest Hr). lia.
Qed.

(** *** A run in which nothing fatal happens *)

(** X13: when [node_modules] is there and can be removed, the reinstallation
    succeeds and leaves a tree the walk gets through, the script prints the
    two lines of the first steps, then lines of the walk only, then the
    summary; every file of the new tree has been visited; and the tree is
    left with its directories, its files removed, rewritten or, by a write
    that broke off, cut short, as their class allows. *)
Theorem run_without_fatal_step
  (env : Env) (fails0 : bool) (files0 : list Dirent) :
  rm_refused env = false -> npm_error env = None ->
  names_ok (files_of (npm_disk env)) -> walkable (npm_disk env) = true ->
  let w := fst (main' env (Present fails0 files0)) in
  let d' := snd (main' env (Present fails0 files0)) in
  visited w = Z.of_nat (List.length (files_of (npm_disk env))) /\
  (exists lines,
     console w
     = Log_DeletedFolder (js "node_modules") :: Log_NpmInstalled
       :: lines ++ [Log_Summary (stats w)] /\
     forallb is_walk_line lines = true) /\
  exists fails files files',
    npm_disk env = Present fails files /\ d' = Present fails files' /\
    entries_after files files'.
Proof.
  intros Hrm Hnpm Hnames Hwalkable.
  unfold main, deleteAndCompress, executeCommand, fs_rm.
  rewrite Hrm, Hnpm.
  set (w0 := print Log_NpmInstalled
               (print (Log_DeletedFolder (js "node_modules")) world0)).
  pose proof (processDirectory_logged (js "node_modules") (npm_disk env) w0)
    as Hl.
  pose proof (processDirectory_after (js "node_modules") (npm_disk env) w0
                Hnames) as Ha.
  pose proof (processDirectory_walked Terser_minify JsValue JSON_parse JSON_stringify
            (js "node_modules")
                (npm_disk env) w0 Hnames) as Hw.
  apply walkable_spec in Hwalkable.
  destruct (processDirectory' (js "node_modules") (npm_disk env) w0)
    as [[w' d'] o]. cbn [fst snd] in *.
  destruct Hw as [(seen & rest & Hall & Hrest & Hv & _) Hres].
  destruct (npm_disk env) as [|fails files] eqn:Hd; [contradiction|].
  destruct Hwalkable as (Hf & Hlist & Hstat).
  assert (Ho : o = Resolved) by (apply Hres; auto). subst o.
  cbn [fst snd print console stats visited].
  destruct Hl as (lines & Hc & Hlines), Ha as [_ (files' & -> & Hafter)].
  split; [|split].
  - rewrite Hv, Hall, (Hrest eq_refl), app_nil_r. reflexivity.
  - exists lines. rewrite Hc. auto.
  - exists fails, files, files'. auto.
Qed.

(** *** The decision from the form of the name *)

Lemma entry_name_stem_ext (stem ext : jsstring) :
  stem <> [] -> ~ In Path.CHAR_FORWARD_SLASH stem ->
  ~ In Path.CHAR_FORWARD_SLASH ext ->
  entry_name (stem ++ Path.CHAR_DOT :: ext).
Proof.
  intros Hne Hstem Hext. split.
  - destruct stem; [contradiction | discriminate].
  - intros H. apply in_app_or in H as [H|[H|H]]; auto. discriminate H.
Qed.

Lemma classify_of_extname (name : jsstring) :
  classify name
  = if includes ESLINT_FILES (toLowerCase name) then Delete
    else if eqb (Path.extname name) EXT_MD || eqb (Path.extname name) EXT_TS
         then Delete
         else if eqb (Path.extname name) EXT_JS then CompressJS
              else if eqb (Path.extname name) EXT_JSON then CompressJSON
                   else Skip.
Proof.
  unfold classify, deletable.
  destruct (includes ESLINT_FILES (toLowerCase name));
    [rewrite orb_true_r; reflexivity|].
  rewrite orb_false_r. reflexivity.
Qed.

(** X2: a name made of a stem that is not empty, a dot and one of the four
    extensions the script knows is handled by that extension: [.md] and
    [.ts] are deleted, [.js] and [.json] compressed, unless the whole name,
    in lower case, is in the lint table, in which case the file is
    deleted. *)
Theorem known_extension_decides
  (dir stem : jsstring) (file : File) (w : World) (ext : string) (d : Decision) :
  stem <> [] -> ~ In Path.CHAR_FORWARD_SLASH stem ->
  In (ext, d) [(".md", Delete); (".ts", Delete); (".js", CompressJS);
               (".json", CompressJSON)]%string ->
  f_name file = stem ++ js ext ->
  let d' :=
    if includes ESLINT_FILES (toLowerCase (f_name file)) then Delete else d in
  classify (f_name file) = d' /\
  processFile' file (Path.join dir (f_name file)) w
  = dispatch' d' file (Path.join dir (f_name file)) w.
Proof.
  intros Hne Hstem Hin Hname d'.
  assert (Hext : exists e,
             js ext = Path.CHAR_DOT :: e /\ e <> [] /\
             ~ In Path.CHAR_FORWARD_SLASH e /\ ~ In Path.CHAR_DOT e /\
             eqb (Path.CHAR_DOT :: e) EXT_MD || eqb (Path.CHAR_DOT :: e) EXT_TS
             = match d with Delete => true | _ => false end /\
             (d = Delete \/
              eqb (Path.CHAR_DOT :: e) EXT_JS
              = match d with CompressJS => true | _ => false end /\
              eqb (Path.CHAR_DOT :: e) EXT_JSON
              = match d with CompressJSON => true | _ => false end)).
  { cbn [In] in Hin.
    destruct Hin as [H|[H|[H|[H|[]]]]]; injection H as <- <-;
      eexists; (split; [reflexivity|]);
      (split; [discriminate|]);
      (split; [vm_compute; intuition discriminate|]);
      (split; [vm_compute; intuition discriminate|]);
      (split; [reflexivity|]); auto. }
  destruct Hext as (e & He & Hene & Hslash & Hdot & Hdel & Hcomp).
  assert (Hentry : entry_name (f_name file)).
  { rewrite Hname, He. apply entry_name_stem_ext; assumption. }
  assert (Hclass : classify (f_name file) = d').
  { rewrite classify_of_extname. unfold d'.
    destruct (includes ESLINT_FILES (toLowerCase (f_name file)));
      [reflexivity|].
    rewrite Hname, He.
    rewrite (ExtnameSuffix.extname_stem_dot_ext stem e Hstem Hslash Hdot Hne Hene).
    rewrite Hdel.
    destruct Hcomp as [->|[-> ->]]; [reflexivity|].
    destruct d; reflexivity. }
  split; [exact Hclass|].
  rewrite <- Hclass.
  apply (processFile_dispatch Terser_minify JsValue JSON_parse JSON_stringify
           dir file w Hentry).
Qed.

(** X3: a name that begins with its only dot has no extension: the file is
    deleted when the name, in lower case, is in the lint table, and is
    otherwise neither deleted nor compressed, whatever follows the dot. *)
Theorem dot_file_has_no_extension
  (dir rest : jsstring) (file : File) (w : World) :
  ~ In Path.CHAR_FORWARD_SLASH rest -> ~ In Path.CHAR_DOT rest ->
  f_name file = Path.CHAR_DOT :: rest ->
  let d' :=
    if includes ESLINT_FILES (toLowerCase (f_name file)) then Delete else Skip in
  Path.extname (f_name file) = [] /\
  classify (f_name file) = d' /\
  processFile' file (Path.join dir (f_name file)) w
  = dispatch' d' file (Path.join dir (f_name file)) w.
Proof.
  intros Hslash Hdot Hname d'.
  assert (Hext : Path.extname (f_name file) = []).
  { rewrite Hname.
    apply (ExtnameSuffix.extname_dot_ext [] rest Hslash Hdot eq_refl). }
  assert (Hentry : entry_name (f_name file)).
  { rewrite Hname. split; [discriminate|].
    intros [H|H]; [discriminate H | auto]. }
  assert (Hclass : classify (f_name file) = d').
  { rewrite classify_of_extname, Hext. unfold d'.
    destruct (includes ESLINT_FILES (toLowerCase (f_name file))); reflexivity. }
  split; [exact Hext|]. split; [exact Hclass|].
  rewrite <- Hclass.
  apply (processFile_dispatch Terser_minify JsValue JSON_parse JSON_stringify
           dir file w Hentry).
Qed.

(** X1: [compressFile] is given the full path and [processFile] looks at the
    bare name: for the name of a directory entry the two have the same
    extension, whatever the directory. *)
Theorem full_path_has_the_extension_of_the_name (dir name : jsstring) :
  entry_name name ->
  Path.extname (Path.join dir name) = Path.extname name.
Proof. apply ExtnameShift.extname_join. Qed.

End WalkerAsAWhole.


(** ** JSON: what is written can be read *)

Module JsonFacts.
Import JSON JsonVocabulary.

(** *** Strings *)

Lemma hex_digit_value_hex_digit (n : N) :
  (n < 16)%N -> hex_digit_value (hex_digit n) = Some n.
Proof.
  intros Hn. unfold hex_digit, hex_digit_value.
  destruct (N.ltb_spec n 10).
  - replace ((48 <=? 48 + n) && (48 + n <=? 57))%N with true.
    + f_equal. lia.
    + symmetry. apply andb_true_iff. split; apply N.leb_le; lia.
  - replace ((48 <=? 87 + n) && (87 + n <=? 57))%N with false.
    + replace ((97 <=? 87 + n) && (87 + n <=? 102))%N with true.
      * f_equal. lia.
      * symmetry. apply andb_true_iff. split; apply N.leb_le; lia.
    + symmetry. apply andb_false_iff. right. apply N.leb_gt. lia.
Qed.

Lemma hex4_value_unicode (c : N) :
  (c < 65536)%N ->
  hex4_value (hex_digit (c / 4096)) (hex_digit ((c / 256) mod 16))
             (hex_digit ((c / 16) mod 16)) (hex_digit (c mod 16)) = Some c.
Proof.
  intros Hc. unfold hex4_value.
  rewrite !hex_digit_value_hex_digit.
  - f_equal. zify. Z.to_euclidean_division_equations. lia.
  - apply N.mod_lt. discriminate.
  - apply N.mod_lt. discriminate.
  - apply N.mod_lt. discriminate.
  - zify. Z.to_euclidean_division_equations. lia.
Qed.

Lemma parse_chars_literal (c : N) (t : jsstring) :
  (32 <= c)%N -> c <> 34%N -> c <> 92%N ->
  parse_chars (c :: t) = more c (parse_chars t).
Proof.
  intros H32 H34 H92. cbn [parse_chars].
  apply N.eqb_neq in H34, H92. rewrite H34, H92.
  replace (c <? 32)%N with false by (symmetry; apply N.ltb_ge; assumption).
  reflexivity.
Qed.

Lemma parse_chars_escape (c : N) (t : jsstring) :
  (c < 65536)%N ->
  parse_chars (unicode_escape c ++ t) = more c (parse_chars t).
Proof.
  intros Hc. unfold unicode_escape. cbn [app parse_chars].
  cbn [N.eqb Pos.eqb]. rewrite (hex4_value_unicode c Hc). reflexivity.
Qed.

Lemma parse_chars_quote_unit (c : N) (t : jsstring) :
  parse_chars (quote_unit c ++ t) = more c (parse_chars t).
Proof.
  unfold quote_unit.
  destruct (N.eqb_spec c 8) as [->|H8]; [reflexivity|].
  destruct (N.eqb_spec c 9) as [->|H9]; [reflexivity|].
  destruct (N.eqb_spec c 10) as [->|H10]; [reflexivity|].
  destruct (N.eqb_spec c 12) as [->|H12]; [reflexivity|].
  destruct (N.eqb_spec c 13) as [->|H13]; [reflexivity|].
  destruct (N.eqb_spec c 34) as [->|H34]; [reflexivity|].
  destruct (N.eqb_spec c 92) as [->|H92]; [reflexivity|].
  destruct (N.ltb_spec c 32) as [Hlt|Hge]; cbn [orb].
  - apply parse_chars_escape. lia.
  - unfold is_high_surrogate, is_low_surrogate.
    destruct ((55296 <=? c) && (c <=? 56319))%N eqn:Hh; cbn [orb].
    + apply andb_true_iff in Hh. destruct Hh as [_ Hh].
      apply N.leb_le in Hh. apply parse_chars_escape. lia.
    + destruct ((56320 <=? c) && (c <=? 57343))%N eqn:Hl.
      * apply andb_true_iff in Hl. destruct Hl as [_ Hl].
        apply N.leb_le in Hl. apply parse_chars_escape. lia.
      * apply parse_chars_literal; assumption.
Qed.

Lemma parse_chars_quote_chars (n : nat) :
  forall s rest, (List.length s <= n)%nat ->
    parse_chars (quote_chars s ++ 34%N :: rest) = Some (s, rest).
Proof.
  induction n as [|n IH]; intros s rest Hlen.
  - destruct s; [reflexivity | simpl in Hlen; lia].
  - destruct s as [|c s]; [reflexivity|].
    cbn [quote_chars]. simpl in Hlen.
    destruct (is_high_surrogate c) eqn:Hh.
    + destruct s as [|d s].
      * rewrite parse_chars_quote_unit. reflexivity.
      * destruct (is_low_surrogate d) eqn:Hl.
        -- unfold is_high_surrogate in Hh. unfold is_low_surrogate in Hl.
           apply andb_true_iff in Hh, Hl.
           destruct Hh as [Hh _], Hl as [Hl _].
           apply N.leb_le in Hh, Hl.
           cbn [app]. rewrite parse_chars_literal by lia.
           rewrite parse_chars_literal by lia.
           rewrite IH by (simpl in Hlen; lia). reflexivity.
        -- rewrite <- app_assoc, parse_chars_quote_unit.
           rewrite IH by lia. reflexivity.
    + rewrite <- app_assoc, parse_chars_quote_unit.
      rewrite IH by lia. reflexivity.
Qed.

(** A quoted string is read as the string. *)
Lemma parse_chars_quote (s rest : jsstring) :
  parse_chars (quote_chars s ++ 34%N :: rest) = Some (s, rest).
Proof. apply (parse_chars_quote_chars (List.length s)). apply le_n. Qed.

(** *** Objects *)

Lemma is_digit_cases (c : N) :
  Number.is_digit c = true ->
  (c = 48 \/ c = 49 \/ c = 50 \/ c = 51 \/ c = 52 \/ c = 53 \/ c = 54
   \/ c = 55 \/ c = 56 \/ c = 57)%N.
Proof.
  unfold Number.is_digit. rewrite andb_true_iff, !N.leb_le. lia.
Qed.

Lemma digits_uint_inj (a b : jsstring) :
  forallb Number.is_digit a = true -> forallb Number.is_digit b = true ->
  Number.digits_uint a = Number.digits_uint b -> a = b.
Proof.
  revert b. induction a as [|c a IH]; intros [|d b] Ha Hb Heq;
    cbn [forallb] in *; try apply andb_true_iff in Ha as [Hc Ha];
    try apply andb_true_iff in Hb as [Hd Hb].
  - reflexivity.
  - apply is_digit_cases in Hd. exfalso.
    unfold Number.digits_uint in Heq. cbn [fold_right] in Heq.
    repeat (destruct Hd as [->|Hd]; [discriminate Heq|]).
    subst d. discriminate Heq.
  - apply is_digit_cases in Hc. exfalso.
    unfold Number.digits_uint in Heq. cbn [fold_right] in Heq.
    repeat (destruct Hc as [->|Hc]; [discriminate Heq|]).
    subst c. discriminate Heq.
  - apply is_digit_cases in Hc, Hd.
    unfold Number.digits_uint in Heq. cbn [fold_right] in Heq.
    fold (Number.digits_uint a) in Heq. fold (Number.digits_uint b) in Heq.
    assert (H : c = d /\ Number.digits_uint a = Number.digits_uint b).
    { repeat (destruct Hc as [->|Hc]);
        try subst c;
        repeat (destruct Hd as [->|Hd]);
        try subst d;
        cbn in Heq; try discriminate Heq;
        injection Heq as Heq; auto. }
    destruct H as [-> H]. f_equal. apply IH; assumption.
Qed.

Lemma array_index_spec (key : jsstring) (n : Z) :
  array_index key = Some n ->
  forallb Number.is_digit key = true /\
  Decimal.unorm (Number.digits_uint key) = Number.digits_uint key /\
  n = Number.digits_value key.
Proof.
  unfold array_index. destruct key as [|first rest]; [discriminate|].
  destruct (forallb Number.is_digit (first :: rest)) eqn:Hd;
    [|discriminate]. cbn [andb].
  destruct (negb ((first =? 48)%N && negb match rest with
                                          | [] => true
                                          | _ :: _ => false
                                          end)) eqn:Hz; [|discriminate].
  cbn [andb].
  destruct (Number.digits_value (first :: rest) <=? 4294967294);
    [|discriminate].
  intros [= <-]. repeat split.
  cbn [forallb] in Hd. apply andb_true_iff in Hd as [Hf _].
  apply is_digit_cases in Hf.
  unfold Number.digits_uint. cbn [fold_right].
  destruct (N.eqb_spec first 48) as [->|Hne].
  - destruct rest; [reflexivity | discriminate Hz].
  - repeat (destruct Hf as [->|Hf]; [try congruence; reflexivity|]).
    subst first. reflexivity.
Qed.

Lemma array_index_inj (a b : jsstring) (n : Z) :
  array_index a = Some n -> array_index b = Some n -> a = b.
Proof.
  intros Ha Hb.
  apply array_index_spec in Ha as (Hda & Hna & Hva).
  apply array_index_spec in Hb as (Hdb & Hnb & Hvb).
  apply digits_uint_inj; try assumption.
  rewrite <- Hna, <- Hnb. apply DecimalN.Unsigned.of_iff.
  unfold Number.digits_value in *. lia.
Qed.

#[local] Abbreviation keys := (List.map (@fst jsstring JsValue)).

Lemma has_key_In (key : jsstring) (props : list (jsstring * JsValue)) :
  has_key key props = true <-> In key (keys props).
Proof.
  unfold has_key. rewrite existsb_exists, in_map_iff. split.
  - intros (p & Hin & Heq). apply jseqb_eq in Heq. eauto.
  - intros (p & Heq & Hin). exists p. split; [assumption|].
    apply jseqb_eq. assumption.
Qed.

Lemma keys_replace_value key v props :
  keys (replace_value key v props) = keys props.
Proof.
  induction props as [|[k old] rest IH]; [reflexivity|].
  cbn [replace_value]. destruct (eqb k key); [reflexivity|].
  cbn [List.map fst] in *. f_equal. exact IH.
Qed.

Lemma In_keys_insert_index n key v props x :
  In x (keys (insert_index n key v props)) <-> x = key \/ In x (keys props).
Proof.
  induction props as [|[k old] rest IH].
  - cbn. intuition congruence.
  - cbn [insert_index]. destruct (array_index k) as [m|].
    + destruct (m <? n).
      * cbn [List.map fst In] in *. rewrite IH. intuition congruence.
      * cbn. intuition congruence.
    + cbn. intuition congruence.
Qed.

Lemma canonical_end (ks : list jsstring) (k : jsstring) :
  canonical ks -> ~ In k ks -> array_index k = None ->
  canonical (ks ++ [k]).
Proof.
  intros Hc Hin Hk. induction ks as [|k0 ks IH]; cbn [app canonical].
  - rewrite Hk. auto.
  - destruct Hc as (Hn0 & Hc & Hord). repeat split.
    + rewrite in_app_iff. cbn. intros [H|[H|[]]]; [tauto|].
      apply Hin. left. symmetry. assumption.
    + apply IH; [assumption|]. intros H. apply Hin. right. assumption.
    + destruct (array_index k0); apply Forall_app; split; try assumption;
        constructor; try constructor; try rewrite Hk; auto.
Qed.

Lemma canonical_insert_index n key v props :
  canonical (keys props) -> array_index key = Some n ->
  ~ In key (keys props) ->
  canonical (keys (insert_index n key v props)).
Proof.
  intros Hc Hk Hin. induction props as [|[k old] rest IH].
  - cbn. rewrite Hk. auto.
  - cbn [List.map fst canonical] in Hc, Hin.
    destruct Hc as (Hn0 & Hc & Hord).
    assert (Hne : k <> key) by (intros ->; apply Hin; left; reflexivity).
    assert (Hin' : ~ In key (keys rest)) by (intros H; apply Hin; right; exact H).
    cbn [insert_index].
    destruct (array_index k) as [m|] eqn:Hm.
    + destruct (Z.ltb_spec m n) as [Hlt|Hge].
      * cbn [List.map fst canonical]. rewrite Hm.
        repeat split.
        -- rewrite In_keys_insert_index.
           intros [H|H]; [exact (Hne H) | exact (Hn0 H)].
        -- apply IH; assumption.
        -- apply Forall_forall. intros x Hx.
           apply In_keys_insert_index in Hx. destruct Hx as [->|Hx].
           ++ rewrite Hk. assumption.
           ++ rewrite Forall_forall in Hord. apply Hord. assumption.
      * cbn [List.map fst canonical]. rewrite Hk, Hm.
        split; [exact Hin|]. split; [auto|].
        constructor.
        -- rewrite Hm. assert (m <> n); [|lia].
           intros ->. apply Hne. eapply array_index_inj; eassumption.
        -- eapply Forall_impl; [|exact Hord]. cbn. intros x.
           destruct (array_index x); [lia|auto].
    + cbn [List.map fst canonical]. rewrite Hk, Hm.
      split; [exact Hin|]. split; [auto|].
      constructor; [rewrite Hm; exact I|].
      eapply Forall_impl; [|exact Hord]. cbn. intros x ->. exact I.
Qed.

Lemma canonical_define_property props member :
  canonical (keys props) -> canonical (keys (define_property props member)).
Proof.
  intros Hc. destruct member as [key v]. unfold define_property.
  destruct (has_key key props) eqn:Hk.
  - rewrite keys_replace_value. assumption.
  - assert (Hin : ~ In key (keys props)).
    { intros H. apply has_key_In in H. congruence. }
    destruct (array_index key) as [n|] eqn:Hidx.
    + apply canonical_insert_index; assumption.
    + rewrite map_app. apply canonical_end; assumption.
Qed.

Lemma canonical_fold_define members :
  forall props, canonical (keys props) ->
    canonical (keys (fold_left define_property members props)).
Proof.
  induction members as [|m ms IH]; intros props Hc; [assumption|].
  cbn [fold_left]. apply IH. apply canonical_define_property. assumption.
Qed.

Lemma canonical_before_end (ks : list jsstring) (k : jsstring) :
  canonical (ks ++ [k]) ->
  ~ In k ks /\ canonical ks /\
  forall n, array_index k = Some n ->
    Forall (fun k' => exists m, array_index k' = Some m /\ m < n) ks.
Proof.
  induction ks as [|k0 ks IH]; cbn [app canonical].
  - intros _. repeat split; auto.
  - intros (Hn0 & Hc & Hord). destruct (IH Hc) as (Hin & Hc' & Hidx).
    rewrite in_app_iff in Hn0. repeat split.
    + cbn. intros [H|H]; [|exact (Hin H)].
      apply Hn0. right. left. symmetry. exact H.
    + intros H. apply Hn0. left. exact H.
    + exact Hc'.
    + destruct (array_index k0); apply Forall_app in Hord; tauto.
    + intros n Hk. constructor; [|apply Hidx; exact Hk].
      destruct (array_index k0) as [m|]; apply Forall_app in Hord;
        destruct Hord as [_ Hlast]; inversion Hlast as [|? ? Hlast' _]; subst.
      * rewrite Hk in Hlast'. eauto.
      * congruence.
Qed.

Lemma insert_index_end n key v props :
  Forall (fun k' => exists m, array_index k' = Some m /\ m < n) (keys props) ->
  insert_index n key v props = props ++ [(key, v)].
Proof.
  induction props as [|[k old] rest IH]; intros Hall; [reflexivity|].
  cbn [List.map fst] in Hall. inversion Hall as [|? ? (m & Hm & Hlt) Hrest]; subst.
  cbn [insert_index app]. rewrite Hm.
  replace (m <? n) with true by (symmetry; apply Z.ltb_lt; exact Hlt).
  rewrite IH by exact Hrest. reflexivity.
Qed.

Lemma define_property_end props key v :
  canonical (keys (props ++ [(key, v)])) ->
  define_property props (key, v) = props ++ [(key, v)].
Proof.
  rewrite map_app. cbn [List.map fst]. intros Hc.
  apply canonical_before_end in Hc as (Hin & _ & Hidx).
  unfold define_property.
  destruct (has_key key props) eqn:Hk.
  - apply has_key_In in Hk. contradiction.
  - destruct (array_index key) as [n|]; [|reflexivity].
    apply insert_index_end. apply Hidx. reflexivity.
Qed.

(** The properties of an object that has been enumerated build the same
    object again. *)
Lemma fold_define_canonical (members : list (jsstring * JsValue)) :
  canonical (keys members) -> fold_left define_property members [] = members.
Proof.
  induction members as [|m ms IH] using rev_ind; [reflexivity|].
  intros Hc. rewrite fold_left_app. cbn [fold_left].
  assert (Hms : canonical (keys ms)).
  { rewrite map_app in Hc. cbn [List.map] in Hc.
    apply canonical_before_end in Hc. tauto. }
  rewrite (IH Hms). destruct m as [key v].
  apply define_property_end. exact Hc.
Qed.

Lemma Forall_define_property (P : JsValue -> Prop) props member :
  Forall (fun p => P (snd p)) props -> P (snd member) ->
  Forall (fun p => P (snd p)) (define_property props member).
Proof.
  intros Hps Hm. destruct member as [key v]. cbn [snd] in Hm.
  unfold define_property. destruct (has_key key props).
  - clear -Hps Hm. induction props as [|[k old] rest IH]; [constructor|].
    inversion Hps; subst. cbn [replace_value].
    destruct (eqb k key); constructor; auto.
  - destruct (array_index key) as [n|].
    + clear -Hps Hm. induction props as [|[k old] rest IH].
      * repeat constructor. exact Hm.
      * inversion Hps; subst. cbn [insert_index].
        destruct (array_index k) as [m|]; [destruct (m <? n)|];
          repeat constructor; auto.
    + apply Forall_app. split; [exact Hps|]. repeat constructor. exact Hm.
Qed.

Lemma Forall_fold_define (P : JsValue -> Prop) members :
  Forall (fun p => P (snd p)) members ->
  forall props, Forall (fun p => P (snd p)) props ->
    Forall (fun p => P (snd p)) (fold_left define_property members props).
Proof.
  induction 1 as [|m ms Hm Hms IH]; intros props Hps; [exact Hps|].
  cbn [fold_left]. apply IH. apply Forall_define_property; assumption.
Qed.

(** *** Values that have been parsed are well formed *)

Lemma parse_well_formed (fuel : nat) :
  (forall s v rest, parse_value fuel s = Some (v, rest) -> well_formed v) /\
  (forall s vs rest,
     parse_elements fuel s = Some (vs, rest) -> Forall well_formed vs) /\
  (forall s ms rest,
     parse_members fuel s = Some (ms, rest) ->
     Forall (fun p => well_formed (snd p)) ms).
Proof.
  induction fuel as [|fuel (IHv & IHe & IHm)];
    [repeat split; intros; discriminate|].
  repeat split.
  - intros s v rest. cbn [parse_value].
    destruct (skip_ws s) as [|c t]; [discriminate|].
    destruct (c =? 34)%N.
    { destruct (parse_chars t) as [[str r]|]; [|discriminate].
      intros [= <- _]. constructor. }
    destruct (c =? 91)%N.
    { destruct (skip_ws t) as [|d r]; [discriminate|].
      destruct (d =? 93)%N; [intros [= <- _]; repeat constructor|].
      destruct (parse_elements fuel t) as [[items r']|] eqn:He; [|discriminate].
      intros [= <- _]. constructor. eapply IHe; eassumption. }
    destruct (c =? 123)%N.
    { destruct (skip_ws t) as [|d r]; [discriminate|].
      destruct (d =? 125)%N; [intros [= <- _]; repeat constructor|].
      destruct (parse_members fuel t) as [[ms r']|] eqn:Hm; [|discriminate].
      intros [= <- _]. constructor.
      - apply canonical_fold_define. exact I.
      - apply (Forall_fold_define well_formed); [|constructor].
        eapply IHm; eassumption. }
    destruct ((c =? 45)%N || Number.is_digit c).
    { destruct (span_number (c :: t)) as [tok r].
      destruct (Number.number_value tok); [|discriminate].
      intros [= <- _]. constructor. }
    destruct (starts_with (js "null") (c :: t)); [intros [= <- _]; constructor|].
    destruct (starts_with (js "true") (c :: t)); [intros [= <- _]; constructor|].
    destruct (starts_with (js "false") (c :: t)); [intros [= <- _]; constructor|].
    discriminate.
  - intros s vs rest. cbn [parse_elements].
    destruct (parse_value fuel s) as [[v r]|] eqn:Hv; [|discriminate].
    destruct (skip_ws r) as [|c r']; [discriminate|].
    destruct (c =? 44)%N.
    { destruct (parse_elements fuel r') as [[vs' r'']|] eqn:He; [|discriminate].
      intros [= <- _]. constructor; [eapply IHv | eapply IHe]; eassumption. }
    destruct (c =? 93)%N; [|discriminate].
    intros [= <- _]. constructor; [eapply IHv; eassumption | constructor].
  - intros s ms rest. cbn [parse_members].
    destruct (skip_ws s) as [|q t]; [discriminate|].
    destruct (q =? 34)%N; [|discriminate].
    destruct (parse_chars t) as [[key r1]|]; [|discriminate].
    destruct (skip_ws r1) as [|colon r2]; [discriminate|].
    destruct (colon =? 58)%N; [|discriminate].
    destruct (parse_value fuel r2) as [[v r3]|] eqn:Hv; [|discriminate].
    destruct (skip_ws r3) as [|c r4]; [discriminate|].
    destruct (c =? 44)%N.
    { destruct (parse_members fuel r4) as [[ms' r5]|] eqn:Hm; [|discriminate].
      intros [= <- _]. constructor; [eapply IHv | eapply IHm]; eassumption. }
    destruct (c =? 125)%N; [|discriminate].
    intros [= <- _]. constructor; [eapply IHv; eassumption | constructor].
Qed.

Lemma parse_is_well_formed (text : jsstring) (v : JsValue) :
  parse text = Some v -> well_formed v.
Proof.
  unfold parse.
  destruct (parse_value (S (List.length text)) text) as [[v' rest]|] eqn:Hp;
    [|discriminate].
  destruct (skip_ws rest); [|discriminate].
  intros [= <-]. eapply (proj1 (parse_well_formed _)); eassumption.
Qed.

(** *** Values *)

Lemma JsValue_nested_ind (P : JsValue -> Prop) :
  P JNull -> (forall b, P (JBool b)) -> (forall x, P (JNumber x)) ->
  (forall s, P (JString s)) ->
  (forall items, Forall P items -> P (JArray items)) ->
  (forall props, Forall (fun p => P (snd p)) props -> P (JObject props)) ->
  forall v, P v.
Proof.
  intros Hnull Hbool Hnum Hstr Harr Hobj. fix IH 1.
  intros [|b|x|s|items|props];
    [apply Hnull | apply Hbool | apply Hnum | apply Hstr | |].
  - apply Harr. induction items as [|v items IHitems]; constructor.
    + apply IH.
    + exact IHitems.
  - apply Hobj. induction props as [|[k v] props IHprops]; constructor.
    + apply IH.
    + exact IHprops.
Qed.

Lemma number_equal_refl (x : Number.float64) : number_equal x x = true.
Proof.
  unfold number_equal. rewrite Z.eqb_refl, Bool.eqb_reflx, orb_true_r.
  reflexivity.
Qed.

Lemma deep_equal_array_cons x xs y ys :
  deep_equal (JArray (x :: xs)) (JArray (y :: ys))
  = deep_equal x y && deep_equal (JArray xs) (JArray ys).
Proof. reflexivity. Qed.

Lemma deep_equal_object_cons p ps q qs :
  deep_equal (JObject (p :: ps)) (JObject (q :: qs))
  = eqb (fst p) (fst q) && deep_equal (snd p) (snd q)
    && deep_equal (JObject ps) (JObject qs).
Proof. reflexivity. Qed.

Lemma deep_equal_refl (v : JsValue) : deep_equal v v = true.
Proof.
  induction v as [|b|x|s|items IH|props IH] using JsValue_nested_ind.
  - reflexivity.
  - apply Bool.eqb_reflx.
  - apply number_equal_refl.
  - apply jseqb_refl.
  - induction IH as [|v items Hv _ IHitems]; [reflexivity|].
    rewrite deep_equal_array_cons, Hv, IHitems. reflexivity.
  - induction IH as [|p props Hp _ IHprops]; [reflexivity|].
    rewrite deep_equal_object_cons, Hp, IHprops, jseqb_refl. reflexivity.
Qed.

Lemma head_char_cases (c : N) :
  head_char c ->
  is_json_space c = false /\ c <> 93%N /\ c <> 125%N.
Proof.
  unfold head_char. intros H.
  repeat (destruct H as [->|H]; [repeat split; (reflexivity || discriminate)|]).
  apply is_digit_cases in H.
  repeat (destruct H as [->|H]; [repeat split; (reflexivity || discriminate)|]).
  subst c. repeat split; (reflexivity || discriminate).
Qed.

Lemma skip_ws_head (c : N) (t : jsstring) :
  is_json_space c = false -> skip_ws (c :: t) = c :: t.
Proof. intros H. cbn [skip_ws]. rewrite H. reflexivity. Qed.

Lemma scan_number_head (s : jsstring) r :
  Number.scan_number s = Some r ->
  exists c t, s = c :: t /\ (c = 45%N \/ Number.is_digit c = true).
Proof.
  destruct s as [|c t]; [discriminate|]. intros H. exists c, t.
  split; [reflexivity|]. unfold Number.scan_number, Number.scan_sign in H.
  destruct (N.eqb_spec c 45) as [->|Hne]; [left; reflexivity|].
  right. cbn [Number.span_digits] in H.
  destruct (Number.is_digit c); [reflexivity|]. discriminate.
Qed.

Lemma span_number_token (tok rest : jsstring) :
  forallb is_number_char tok = true -> value_follow rest ->
  span_number (tok ++ rest) = (tok, rest).
Proof.
  intros Htok Hrest. induction tok as [|c tok IH]; cbn [app].
  - destruct rest as [|c t]; [reflexivity|]. cbn [span_number].
    cbn in Hrest. destruct Hrest as [->|[->| ->]]; reflexivity.
  - cbn [forallb] in Htok. apply andb_true_iff in Htok as [Hc Htok].
    cbn [span_number]. rewrite Hc, (IH Htok). reflexivity.
Qed.

Lemma reads_back_head (x : Number.float64) :
  reads_back x = true ->
  exists c t, Number.toString x = c :: t
              /\ (c = 45%N \/ Number.is_digit c = true).
Proof.
  unfold reads_back. rewrite andb_true_iff. intros [_ H].
  unfold Number.number_value in H.
  destruct (Number.scan_number (Number.toString x)) as [r|] eqn:Hs;
    [|discriminate].
  eapply scan_number_head. eassumption.
Qed.

Lemma parse_value_number (fuel : nat) (c : N) (t : jsstring) :
  c = 45%N \/ Number.is_digit c = true ->
  parse_value (S fuel) (c :: t)
  = let '(tok, rest) := span_number (c :: t) in
    match Number.number_value tok with
    | Some x => Some (JNumber x, rest)
    | None => None
    end.
Proof.
  intros [->|H]; [reflexivity|].
  apply is_digit_cases in H.
  repeat (destruct H as [->|H]; [reflexivity|]). subst c. reflexivity.
Qed.

Lemma number_reads (x : Number.float64) (fuel : nat) (rest : jsstring) :
  reads_back x = true -> (1 <= fuel)%nat -> value_follow rest ->
  exists y,
    parse_value fuel (Number.toString x ++ rest) = Some (JNumber y, rest) /\
    number_equal x y = true.
Proof.
  intros Hx Hfuel Hrest.
  destruct (reads_back_head x Hx) as (c & t & Heq & Hc).
  unfold reads_back in Hx. apply andb_true_iff in Hx as [Htok Hval].
  destruct (Number.number_value (Number.toString x)) as [y|] eqn:Hy;
    [|discriminate].
  exists y. split; [|exact Hval].
  destruct fuel as [|fuel]; [lia|].
  pose proof (span_number_token _ rest Htok Hrest) as Hspan.
  rewrite Heq in Hspan |- *. cbn [app] in Hspan |- *.
  rewrite (parse_value_number fuel c _ Hc), Hspan.
  rewrite <- Heq, Hy. reflexivity.
Qed.

Lemma stringify_head (v : JsValue) :
  finite_numbers v = true -> numbers_read_back v = true ->
  exists c t, stringify v = c :: t /\ head_char c.
Proof.
  unfold head_char. destruct v as [|[|]|x|s|items|props]; cbn; intros Hf Hr.
  - do 2 eexists. split; [reflexivity|]. tauto.
  - do 2 eexists. split; [reflexivity|]. tauto.
  - do 2 eexists. split; [reflexivity|]. tauto.
  - rewrite Hf. destruct (reads_back_head x Hr) as (c & t & -> & Hc).
    exists c, t. split; [reflexivity|]. tauto.
  - do 2 eexists. split; [reflexivity|]. tauto.
  - do 2 eexists. split; [reflexivity|]. tauto.
  - do 2 eexists. split; [reflexivity|]. tauto.
Qed.

Lemma parse_value_array (fuel : nat) (c : N) (t : jsstring) :
  is_json_space c = false -> c <> 93%N ->
  parse_value (S fuel) (91%N :: c :: t)
  = match parse_elements fuel (c :: t) with
    | Some (items, rest) => Some (JArray items, rest)
    | None => None
    end.
Proof.
  intros Hs Hc. cbn [parse_value].
  rewrite (skip_ws_head 91) by reflexivity.
  change ((91 =? 34)%N) with false. change ((91 =? 91)%N) with true.
  cbv iota. rewrite (skip_ws_head c t Hs).
  apply N.eqb_neq in Hc. rewrite Hc. reflexivity.
Qed.

Lemma parse_value_object (fuel : nat) (t : jsstring) :
  parse_value (S fuel) (123%N :: 34%N :: t)
  = match parse_members fuel (34%N :: t) with
    | Some (members, rest) =>
        Some (JObject (fold_left define_property members []), rest)
    | None => None
    end.
Proof. reflexivity. Qed.

Lemma parse_members_member (fuel : nat) (key : jsstring) (t : jsstring) :
  parse_members (S fuel) (34%N :: quote_chars key ++ 34%N :: 58%N :: t)
  = match parse_value fuel t with
    | None => None
    | Some (v, rest3) =>
        match skip_ws rest3 with
        | c :: rest4 =>
            if (c =? 44)%N then
              match parse_members fuel rest4 with
              | Some (ms, rest5) => Some ((key, v) :: ms, rest5)
              | None => None
              end
            else if (c =? 125)%N then Some ([(key, v)], rest4)
            else None
        | [] => None
        end
    end.
Proof.
  cbn [parse_members].
  rewrite (skip_ws_head 34) by reflexivity.
  change ((34 =? 34)%N) with true. cbv iota.
  rewrite parse_chars_quote.
  rewrite (skip_ws_head 58) by reflexivity.
  change ((58 =? 58)%N) with true. cbv iota. reflexivity.
Qed.

Lemma head_follow (v : JsValue) (t : jsstring) :
  finite_numbers v = true -> numbers_read_back v = true ->
  exists c u, stringify v ++ t = c :: u /\ is_json_space c = false
              /\ c <> 93%N.
Proof.
  intros Hf Hr. destruct (stringify_head v Hf Hr) as (c & u & -> & Hc).
  apply head_char_cases in Hc. exists c, (u ++ t). tauto.
Qed.

Lemma join_cons (sep p : jsstring) (l : list jsstring) :
  l <> [] -> join sep (p :: l) = p ++ sep ++ join sep l.
Proof. destruct l; [congruence | reflexivity]. Qed.

Lemma elements_read (items : list JsValue) :
  Forall reads items -> Forall well_formed items ->
  forallb finite_numbers items = true ->
  forallb numbers_read_back items = true ->
  items <> [] ->
  forall fuel rest,
    (fuel_elements items <= fuel)%nat ->
    exists items',
      parse_elements fuel
        (join [44%N] (List.map stringify items) ++ 93%N :: rest)
      = Some (items', rest) /\
      deep_equal (JArray items) (JArray items') = true.
Proof.
  induction 1 as [|v items Hv Hitems IH]; intros Hwf Hfin Hback Hne;
    [congruence|].
  inversion Hwf as [|? ? Hwv Hwitems]; subst.
  cbn [forallb] in Hfin, Hback.
  apply andb_true_iff in Hfin as [Hfv Hfitems].
  apply andb_true_iff in Hback as [Hbv Hbitems].
  intros fuel rest Hfuel. cbn [fuel_elements fold_right] in Hfuel.
  fold (fuel_elements items) in Hfuel.
  destruct fuel as [|fuel]; [lia|]. cbn [parse_elements].
  destruct items as [|v2 vs].
  - cbn [List.map join].
    destruct (Hv Hwv Hfv Hbv fuel (93%N :: rest)) as (v' & Hp & Heq);
      [lia | cbn; tauto|].
    rewrite Hp. exists [v']. split; [reflexivity|].
    rewrite deep_equal_array_cons, Heq. reflexivity.
  - change (List.map stringify (v :: v2 :: vs))
      with (stringify v :: List.map stringify (v2 :: vs)).
    rewrite join_cons by discriminate. rewrite <- !app_assoc. cbn [app].
    destruct (Hv Hwv Hfv Hbv fuel
                (44%N :: join [44%N] (List.map stringify (v2 :: vs))
                          ++ 93%N :: rest)) as (v' & Hp & Heq);
      [lia | cbn; tauto|].
    rewrite Hp.
    rewrite (skip_ws_head 44) by reflexivity.
    change ((44 =? 44)%N) with true. cbv iota.
    destruct (IH Hwitems Hfitems Hbitems ltac:(discriminate) fuel rest)
      as (items' & Hp' & Heq'); [lia|].
    rewrite Hp'.
    exists (v' :: items'). split; [reflexivity|].
    rewrite deep_equal_array_cons, Heq, Heq'. reflexivity.
Qed.

Lemma member_text_app (key : jsstring) (v : JsValue) (t : jsstring) :
  member_text (key, v) ++ t
  = 34%N :: quote_chars key ++ 34%N :: 58%N :: stringify v ++ t.
Proof.
  unfold member_text, quote. cbn [fst snd app].
  rewrite <- !app_assoc. reflexivity.
Qed.

Lemma members_read (props : list (jsstring * JsValue)) :
  Forall (fun p => reads (snd p)) props ->
  Forall (fun p => well_formed (snd p)) props ->
  forallb (fun p => finite_numbers (snd p)) props = true ->
  forallb (fun p => numbers_read_back (snd p)) props = true ->
  props <> [] ->
  forall fuel rest,
    (fuel_members props <= fuel)%nat ->
    exists members,
      parse_members fuel
        (join [44%N] (List.map member_text props) ++ 125%N :: rest)
      = Some (members, rest) /\
      List.map fst members = List.map fst props /\
      deep_equal (JObject props) (JObject members) = true.
Proof.
  induction 1 as [|[key v] props Hv Hprops IH]; intros Hwf Hfin Hback Hne;
    [congruence|].
  inversion Hwf as [|? ? Hwv Hwprops]; subst.
  cbn [forallb snd] in Hfin, Hback, Hv, Hwv.
  apply andb_true_iff in Hfin as [Hfv Hfprops].
  apply andb_true_iff in Hback as [Hbv Hbprops].
  intros fuel rest Hfuel. cbn [fuel_members fold_right snd] in Hfuel.
  fold (fuel_members props) in Hfuel.
  destruct fuel as [|fuel]; [lia|].
  destruct props as [|p2 ps].
  - cbn [List.map join]. rewrite member_text_app, parse_members_member.
    destruct (Hv Hwv Hfv Hbv fuel (125%N :: rest)) as (v' & Hp & Heq);
      [lia | cbn; tauto|].
    rewrite Hp. exists [(key, v')]. split; [reflexivity|].
    split; [reflexivity|].
    rewrite deep_equal_object_cons. cbn [fst snd].
    rewrite jseqb_refl, Heq. reflexivity.
  - change (List.map member_text ((key, v) :: p2 :: ps))
      with (member_text (key, v) :: List.map member_text (p2 :: ps)).
    rewrite join_cons by discriminate. rewrite <- !app_assoc.
    rewrite member_text_app, parse_members_member. cbn [app].
    destruct (Hv Hwv Hfv Hbv fuel
                (44%N :: join [44%N] (List.map member_text (p2 :: ps))
                          ++ 125%N :: rest)) as (v' & Hp & Heq);
      [lia | cbn; tauto|].
    rewrite Hp.
    rewrite (skip_ws_head 44) by reflexivity.
    change ((44 =? 44)%N) with true. cbv iota.
    destruct (IH Hwprops Hfprops Hbprops ltac:(discriminate) fuel rest)
      as (ms & Hp' & Hkeys & Heq'); [lia|].
    rewrite Hp'.
    exists ((key, v') :: ms). split; [reflexivity|].
    split; [cbn [List.map fst]; rewrite Hkeys; reflexivity|].
    rewrite deep_equal_object_cons. cbn [fst snd].
    rewrite jseqb_refl, Heq, Heq'. reflexivity.
Qed.

Lemma fuel_needed_array (items : list JsValue) :
  fuel_needed (JArray items) = S (fuel_elements items).
Proof. reflexivity. Qed.

Lemma fuel_needed_object (props : list (jsstring * JsValue)) :
  fuel_needed (JObject props) = S (fuel_members props).
Proof. reflexivity. Qed.

Lemma join_starts (sep p : jsstring) (l : list jsstring) (t : jsstring) :
  exists t', join sep (p :: l) ++ t = p ++ t'.
Proof.
  destruct l as [|q l].
  - exists t. reflexivity.
  - rewrite join_cons by discriminate. rewrite <- app_assoc. eauto.
Qed.

Lemma parse_value_string (fuel : nat) (t : jsstring) :
  parse_value (S fuel) (34%N :: t)
  = match parse_chars t with
    | Some (str, rest) => Some (JString str, rest)
    | None => None
    end.
Proof. reflexivity. Qed.

(** The text of a value is read as a value deeply equal to it. *)
Lemma stringify_reads (v : JsValue) : reads v.
Proof.
  induction v as [|b|x|s|items IH|props IH] using JsValue_nested_ind;
    unfold reads; intros Hwf Hfin Hback fuel rest Hfuel Hrest.
  - destruct fuel as [|fuel]; [cbn in Hfuel; lia|].
    exists JNull. split; reflexivity.
  - destruct fuel as [|fuel]; [cbn in Hfuel; lia|].
    exists (JBool b). split; [destruct b; reflexivity | apply Bool.eqb_reflx].
  - cbn [finite_numbers numbers_read_back stringify fuel_needed] in *.
    rewrite Hfin.
    destruct (number_reads x fuel rest Hback Hfuel Hrest) as (y & Hp & Heq).
    exists (JNumber y). split; assumption.
  - destruct fuel as [|fuel]; [cbn in Hfuel; lia|].
    exists (JString s). split; [|apply jseqb_refl].
    cbn [stringify]. unfold quote. cbn [app]. rewrite <- app_assoc.
    cbn [app]. rewrite parse_value_string, parse_chars_quote. reflexivity.
  - rewrite fuel_needed_array in Hfuel.
    destruct fuel as [|fuel]; [lia|].
    inversion Hwf as [| | | |? Hwitems|]; subst.
    cbn [finite_numbers numbers_read_back] in Hfin, Hback.
    destruct items as [|v items].
    + exists (JArray []). split; reflexivity.
    + cbn [stringify app]. rewrite <- app_assoc. cbn [app].
      assert (Hhead : exists c u,
                 join [44%N] (List.map stringify (v :: items)) ++ 93%N :: rest
                 = c :: u /\ is_json_space c = false /\ c <> 93%N).
      { cbn [List.map].
        destruct (join_starts [44%N] (stringify v)
                    (List.map stringify items) (93%N :: rest)) as (t' & ->).
        cbn [forallb] in Hfin, Hback.
        apply andb_true_iff in Hfin as [Hfv _].
        apply andb_true_iff in Hback as [Hbv _].
        apply head_follow; assumption. }
      destruct Hhead as (c & u & Heq & Hspace & Hc).
      destruct (elements_read (v :: items) IH Hwitems Hfin Hback
                  ltac:(discriminate) fuel rest) as (items' & Hp & Hde);
        [lia|].
      rewrite Heq in Hp |- *.
      rewrite (parse_value_array fuel c u Hspace Hc), Hp.
      exists (JArray items'). split; [reflexivity | exact Hde].
  - rewrite fuel_needed_object in Hfuel.
    destruct fuel as [|fuel]; [lia|].
    inversion Hwf as [| | | | |? Hcanon Hwprops]; subst.
    cbn [finite_numbers numbers_read_back] in Hfin, Hback.
    destruct props as [|[key v] props].
    + exists (JObject []). split; reflexivity.
    + cbn [stringify app]. rewrite <- app_assoc. cbn [app].
      change (fun p : jsstring * JsValue =>
                quote (fst p) ++ 58%N :: stringify (snd p)) with member_text.
      destruct (members_read ((key, v) :: props) IH Hwprops Hfin Hback
                  ltac:(discriminate) fuel rest) as (ms & Hp & Hkeys & Hde);
        [lia|].
      cbn [List.map] in Hp |- *.
      destruct (join_starts [44%N] (member_text (key, v))
                  (List.map member_text props) (125%N :: rest)) as (t' & Heq).
      change (parse_members fuel
                (join [44%N] (member_text (key, v) :: List.map member_text props)
                 ++ 125%N :: rest) = Some (ms, rest)) in Hp.
      match goal with
      | |- context [123%N :: ?X] =>
          change X with
            (join [44%N] (member_text (key, v) :: List.map member_text props)
             ++ 125%N :: rest)
      end.
      rewrite Heq in Hp |- *. rewrite member_text_app in Hp |- *.
      rewrite parse_value_object, Hp.
      rewrite fold_define_canonical by (rewrite Hkeys; exact Hcanon).
      exists (JObject ms). split; [reflexivity | exact Hde].
Qed.

Lemma fuel_elements_le_length (items : list JsValue) :
  Forall (fun v => fuel_needed v <= List.length (stringify v))%nat items ->
  (fuel_elements items
   <= List.length (join [44%N] (List.map stringify items)) + 1)%nat.
Proof.
  induction 1 as [|v items Hv _ IH]; [cbn; lia|].
  cbn [fuel_elements fold_right]. fold (fuel_elements items).
  destruct items as [|v2 vs].
  - cbn. lia.
  - change (List.map stringify (v :: v2 :: vs))
      with (stringify v :: List.map stringify (v2 :: vs)).
    rewrite join_cons by discriminate. rewrite !length_app. cbn [List.length].
    lia.
Qed.

Lemma fuel_members_le_length (props : list (jsstring * JsValue)) :
  Forall (fun p => fuel_needed (snd p) <= List.length (stringify (snd p)))%nat
         props ->
  (fuel_members props
   <= List.length (join [44%N] (List.map member_text props)) + 1)%nat.
Proof.
  induction 1 as [|p props Hp _ IH]; [cbn; lia|].
  cbn [fuel_members fold_right]. fold (fuel_members props).
  assert (Hm : (List.length (stringify (snd p))
                <= List.length (member_text p))%nat).
  { unfold member_text. rewrite length_app. cbn [List.length]. lia. }
  destruct props as [|p2 ps].
  - cbn [List.map join fuel_members fold_right]. lia.
  - change (List.map member_text (p :: p2 :: ps))
      with (member_text p :: List.map member_text (p2 :: ps)).
    rewrite join_cons by discriminate. rewrite !length_app. cbn [List.length].
    lia.
Qed.

Lemma stringify_array (items : list JsValue) :
  stringify (JArray items)
  = 91%N :: join [44%N] (List.map stringify items) ++ [93%N].
Proof. reflexivity. Qed.

Lemma stringify_object (props : list (jsstring * JsValue)) :
  stringify (JObject props)
  = 123%N :: join [44%N] (List.map member_text props) ++ [125%N].
Proof. reflexivity. Qed.

Lemma fuel_needed_le_length (v : JsValue) :
  finite_numbers v = true -> numbers_read_back v = true ->
  (fuel_needed v <= List.length (stringify v))%nat.
Proof.
  induction v as [|b|x|s|items IH|props IH] using JsValue_nested_ind;
    intros Hfin Hback.
  - cbn. lia.
  - destruct b; cbn; lia.
  - cbn [finite_numbers numbers_read_back stringify fuel_needed] in *.
    rewrite Hfin. destruct (reads_back_head x Hback) as (c & t & -> & _).
    cbn. lia.
  - cbn. lia.
  - rewrite fuel_needed_array, stringify_array. cbn [List.length].
    rewrite length_app. cbn [List.length].
    cbn [finite_numbers numbers_read_back] in Hfin, Hback.
    rewrite forallb_forall in Hfin, Hback.
    assert (Hall : Forall (fun v => fuel_needed v
                                    <= List.length (stringify v))%nat items).
    { rewrite Forall_forall in IH |- *. intros v Hv. apply IH; auto. }
    pose proof (fuel_elements_le_length items Hall). lia.
  - rewrite fuel_needed_object, stringify_object. cbn [List.length].
    rewrite length_app. cbn [List.length].
    cbn [finite_numbers numbers_read_back] in Hfin, Hback.
    rewrite forallb_forall in Hfin, Hback.
    assert (Hall : Forall (fun p => fuel_needed (snd p)
                                    <= List.length (stringify (snd p)))%nat
                          props).
    { rewrite Forall_forall in IH |- *. intros p Hp. apply IH; auto. }
    pose proof (fuel_members_le_length props Hall) as Hlen. lia.
Qed.

(** [JSON.parse(JSON.stringify(v))] is deeply equal to [v], for a value
    [JSON.parse] has returned, without an infinity, whose numbers are read
    back from their digits. *)
Lemma parse_stringify (v : JsValue) :
  well_formed v -> finite_numbers v = true -> numbers_read_back v = true ->
  exists v', parse (stringify v) = Some v' /\ deep_equal v v' = true.
Proof.
  intros Hwf Hfin Hback.
  pose proof (fuel_needed_le_length v Hfin Hback) as Hfuel.
  destruct (stringify_reads v Hwf Hfin Hback
              (S (List.length (stringify v))) [])
    as (v' & Hp & Heq); [lia | exact I|].
  rewrite app_nil_r in Hp. unfold parse. rewrite Hp.
  exists v'. split; [reflexivity | exact Heq].
Qed.

End JsonFacts.

(** ** Numbers: what [Number::toString] writes is read back *)

Module NumberFacts.
Import Number NumberVocabulary.

Lemma scaled_eq (j e f : Z) :
  0 <= f < 2 ^ 52 -> j = 2 ^ 52 * e + f ->
  scaled j = if e =? 0 then f else Z.shiftl (2 ^ 52 + f) (e - 1).
Proof.
  intros Hf Hj. unfold scaled.
  assert (He : j / 2 ^ 52 = e).
  { symmetry. apply (Z.div_unique j (2 ^ 52) e f); [left; exact Hf | exact Hj]. }
  assert (Hm : j mod 2 ^ 52 = f).
  { symmetry. apply (Z.mod_unique j (2 ^ 52) e f); [left; exact Hf | exact Hj]. }
  rewrite He, Hm. reflexivity.
Qed.

Lemma scaled_succ (j : Z) : 0 <= j -> scaled j < scaled (j + 1).
Proof.
  intros Hj.
  set (B := 2 ^ 52) in *.
  assert (HB : 0 < B) by (unfold B; lia).
  pose proof (Z.div_mod j B ltac:(lia)) as Hdm.
  pose proof (Z.mod_pos_bound j B HB) as Hf.
  pose proof (Z.div_pos j B Hj HB) as He.
  set (e := j / B) in *. set (f := j mod B) in *.
  rewrite (scaled_eq j e f Hf Hdm).
  destruct (Z.eq_dec (f + 1) B) as [Hlast|Hmore].
  - rewrite (scaled_eq (j + 1) (e + 1) 0); [|fold B; lia | fold B; lia].
    replace (e + 1 =? 0) with false by (symmetry; apply Z.eqb_neq; lia).
    replace (e + 1 - 1) with e by lia.
    destruct (Z.eqb_spec e 0) as [->|Hne].
    + cbn. lia.
    + rewrite !Z.shiftl_mul_pow2 by lia. fold B.
      replace (2 ^ e) with (2 * 2 ^ (e - 1))
        by (rewrite <- Z.pow_succ_r by lia; f_equal; lia).
      assert (0 < 2 ^ (e - 1)) by (apply Z.pow_pos_nonneg; lia). nia.
  - rewrite (scaled_eq (j + 1) e (f + 1)); [|fold B; lia | fold B; lia].
    destruct (Z.eqb_spec e 0) as [->|Hne]; [lia|].
    rewrite !Z.shiftl_mul_pow2 by lia.
    assert (0 < 2 ^ (e - 1)) by (apply Z.pow_pos_nonneg; lia). fold B. nia.
Qed.

Lemma scaled_lt (j i : Z) : 0 <= j -> j < i -> scaled j < scaled i.
Proof.
  intros Hj Hlt.
  replace i with (j + 1 + Z.of_nat (Z.to_nat (i - j - 1))) by lia.
  induction (Z.to_nat (i - j - 1)) as [|n IH].
  - rewrite Z.add_0_r. apply scaled_succ. exact Hj.
  - rewrite Nat2Z.inj_succ.
    replace (j + 1 + Z.succ (Z.of_nat n)) with (j + 1 + Z.of_nat n + 1) by lia.
    etransitivity; [exact IH|]. apply scaled_succ. lia.
Qed.

Lemma scaled_le_iff (j i : Z) :
  0 <= j -> 0 <= i -> (scaled j <= scaled i <-> j <= i).
Proof.
  intros Hj Hi. split.
  - intros Hle. destruct (Z.le_gt_cases j i) as [H|H]; [exact H|].
    pose proof (scaled_lt i j Hi H). lia.
  - intros Hle. destruct (Z.eq_dec j i) as [->|Hne]; [lia|].
    pose proof (scaled_lt j i Hj ltac:(lia)). lia.
Qed.

Lemma scaled_0 : scaled 0 = 0.
Proof. reflexivity. Qed.

(** The search for the greatest magnitude under a bound. *)
Lemma floor_bits_finds (num den i : Z) :
  (forall j, 0 <= j -> (below num den j = true <-> j <= i)) ->
  forall bit acc,
    0 <= acc -> acc <= i < acc + 2 ^ Z.of_nat bit ->
    floor_bits num den bit acc = i.
Proof.
  intros Hbelow. induction bit as [|b IH]; intros acc Hacc Hi.
  - cbn in Hi. cbn. lia.
  - cbn [floor_bits]. rewrite Nat2Z.inj_succ, Z.pow_succ_r in Hi by lia.
    assert (Hb : 0 < 2 ^ Z.of_nat b) by (apply Z.pow_pos_nonneg; lia).
    destruct (below num den (acc + 2 ^ Z.of_nat b)) eqn:Hc.
    + apply IH; [lia|]. apply Hbelow in Hc; lia.
    + apply IH; [lia|].
      assert (~ acc + 2 ^ Z.of_nat b <= i).
      { intros H. apply Hbelow in H; [congruence | lia]. }
      lia.
Qed.

Lemma below_scale (num den k j : Z) :
  0 < k -> below (num * k) (den * k) j = below num den j.
Proof.
  intros Hk. unfold below. f_equal.
  rewrite !Z.shiftl_mul_pow2 by lia.
  destruct (Z.leb_spec (scaled j * den) (num * 2 ^ 1074)) as [H|H].
  - apply Z.leb_le. nia.
  - apply Z.leb_gt. nia.
Qed.

Lemma floor_bits_scale (num den k : Z) (bit : nat) :
  0 < k ->
  forall acc,
    floor_bits (num * k) (den * k) bit acc = floor_bits num den bit acc.
Proof.
  intros Hk. induction bit as [|b IH]; intros acc; [reflexivity|].
  cbn [floor_bits]. rewrite below_scale by exact Hk. apply IH.
Qed.

(** The rounding of a fraction does not depend on how it is written. *)
Lemma round_magnitude_scale (num den k : Z) :
  0 < k -> round_magnitude (num * k) (den * k) = round_magnitude num den.
Proof.
  intros Hk. unfold round_magnitude.
  rewrite floor_bits_scale by exact Hk.
  generalize (floor_bits num den 63 0). intros i.
  destruct (i =? infinity_bits); [reflexivity|].
  rewrite !Z.shiftl_mul_pow2 by lia.
  generalize (scaled i + scaled (i + 1)). intros m.
  generalize (2 ^ 1075). intros P.
  assert (Hlt : forall a b, (a * k <? b * k) = (a <? b)).
  { intros a b. destruct (Z.ltb_spec a b).
    - apply Z.ltb_lt. nia.
    - apply Z.ltb_ge. nia. }
  replace (num * k * P) with (num * P * k) by ring.
  replace (m * (den * k)) with (m * den * k) by ring.
  rewrite !Hlt. reflexivity.
Qed.

Lemma infinity_bits_lt : infinity_bits < 2 ^ 63.
Proof. reflexivity. Qed.

(** A number is the nearest one to its own value. *)
Lemma round_magnitude_exact (i : Z) :
  0 <= i < infinity_bits -> round_magnitude (scaled i) (2 ^ 1074) = i.
Proof.
  intros Hi. unfold round_magnitude.
  assert (Hfloor : floor_bits (scaled i) (2 ^ 1074) 63 0 = i).
  { apply floor_bits_finds; [|lia|].
    - intros j Hj. unfold below. rewrite Z.shiftl_mul_pow2 by lia.
      rewrite andb_true_iff, !Z.leb_le.
      assert (Hp : 0 < 2 ^ 1074) by (apply Z.pow_pos_nonneg; lia).
      pose proof (scaled_le_iff j i Hj ltac:(lia)) as Hiff. split.
      + intros [_ H]. apply Hiff. nia.
      + intros H. split; [lia|]. apply Hiff in H. nia.
    - pose proof infinity_bits_lt. change (Z.of_nat 63) with 63. lia. }
  rewrite Hfloor.
  replace (i =? infinity_bits) with false by (symmetry; apply Z.eqb_neq; lia).
  rewrite Z.shiftl_mul_pow2 by lia.
  pose proof (scaled_succ i ltac:(lia)) as Hs.
  assert (Hp : 0 < 2 ^ 1074) by (apply Z.pow_pos_nonneg; lia).
  replace (2 ^ 1075) with (2 * 2 ^ 1074)
    by (change 1075 with (Z.succ 1074); rewrite Z.pow_succ_r by lia; reflexivity).
  replace (scaled i * (2 * 2 ^ 1074)
           <? (scaled i + scaled (i + 1)) * 2 ^ 1074) with true
    by (symmetry; apply Z.ltb_lt; nia).
  reflexivity.
Qed.

Lemma scaled_pos (j : Z) : 0 < j -> 0 < scaled j.
Proof.
  intros Hj. pose proof (scaled_lt 0 j ltac:(lia) Hj) as H.
  rewrite scaled_0 in H. exact H.
Qed.

Lemma round_magnitude_zero (den : Z) : 0 < den -> round_magnitude 0 den = 0.
Proof.
  intros Hden. unfold round_magnitude.
  assert (Hfloor : floor_bits 0 den 63 0 = 0).
  { apply floor_bits_finds; [|lia|].
    - intros j Hj. unfold below. rewrite Z.shiftl_mul_pow2 by lia.
      rewrite andb_true_iff, !Z.leb_le. split.
      + intros [_ H]. destruct (Z.eq_dec j 0) as [->|Hne]; [lia|].
        pose proof (scaled_pos j ltac:(lia)). nia.
      + intros H. assert (j = 0) by lia. subst j.
        split; [discriminate | rewrite scaled_0; lia].
    - change (Z.of_nat 63) with 63. lia. }
  rewrite Hfloor. change (0 =? infinity_bits) with false. cbv iota.
  rewrite Z.shiftl_mul_pow2 by lia. rewrite scaled_0. cbn [Z.add Z.mul].
  pose proof (scaled_pos 1 ltac:(lia)) as H1. change (0 + 1) with 1.
  replace (0 <? scaled 1 * den) with true by (symmetry; apply Z.ltb_lt; nia).
  reflexivity.
Qed.

Lemma floor_bits_range (num den : Z) (bit : nat) :
  forall acc, 0 <= acc <= infinity_bits ->
    0 <= floor_bits num den bit acc <= infinity_bits.
Proof.
  induction bit as [|b IH]; intros acc Hacc; [exact Hacc|].
  cbn [floor_bits]. apply IH.
  destruct (below num den (acc + 2 ^ Z.of_nat b)) eqn:Hb; [|exact Hacc].
  unfold below in Hb. apply andb_true_iff in Hb as [Hb _].
  apply Z.leb_le in Hb.
  assert (0 < 2 ^ Z.of_nat b) by (apply Z.pow_pos_nonneg; lia). lia.
Qed.

Lemma round_magnitude_range (num den : Z) :
  0 <= round_magnitude num den <= infinity_bits.
Proof.
  unfold round_magnitude.
  pose proof (floor_bits_range num den 63 0) as H.
  assert (H0 : 0 <= 0 <= infinity_bits) by (split; [lia | discriminate]).
  specialize (H H0). set (i := floor_bits num den 63 0) in *.
  destruct (Z.eqb_spec i infinity_bits); [lia|].
  repeat match goal with |- context [if ?c then _ else _] => destruct c end; lia.
Qed.

Lemma round_decimal_range (d e : Z) :
  0 <= round_decimal d e <= infinity_bits.
Proof. unfold round_decimal. destruct (0 <=? e); apply round_magnitude_range. Qed.

Lemma round_decimal_zero (e : Z) : round_decimal 0 e = 0.
Proof.
  unfold round_decimal. destruct (Z.leb_spec 0 e).
  - cbn [Z.mul]. apply round_magnitude_zero. lia.
  - apply round_magnitude_zero. apply Z.pow_pos_nonneg; lia.
Qed.

(** Ten times the digits, one place further down. *)
Lemma round_decimal_tenfold (s p : Z) :
  round_decimal (s * 10) p = round_decimal s (p + 1).
Proof.
  unfold round_decimal.
  destruct (Z.leb_spec 0 p) as [Hp|Hp].
  - replace (0 <=? p + 1) with true by (symmetry; apply Z.leb_le; lia).
    rewrite Z.pow_add_r by lia. f_equal. ring.
  - destruct (Z.leb_spec 0 (p + 1)) as [Hp1|Hp1].
    + assert (p = -1) by lia. subst p. cbn [Z.opp Z.add Z.pow Z.pow_pos].
      change (10 ^ 0) with 1. cbn -[round_magnitude].
      replace (s * 1) with s by ring.
      rewrite <- (round_magnitude_scale s 1 10) by lia. reflexivity.
    + replace (- p) with (- (p + 1) + 1) by lia.
      rewrite Z.pow_add_r by lia. change (10 ^ 1) with 10.
      apply round_magnitude_scale. lia.
Qed.

Lemma round_decimal_exact (i : Z) :
  0 <= i < infinity_bits -> round_decimal (scaled i * 5 ^ 1074) (-1074) = i.
Proof.
  intros Hi. unfold round_decimal.
  change (0 <=? -1074) with false. cbv iota. change (- -1074) with 1074.
  replace (10 ^ 1074) with (2 ^ 1074 * 5 ^ 1074)
    by (rewrite <- Z.pow_mul_l; reflexivity).
  rewrite round_magnitude_scale by (apply Z.pow_pos_nonneg; lia).
  apply round_magnitude_exact. exact Hi.
Qed.

Lemma uint_digits_all (d : Decimal.uint) :
  forallb is_digit (uint_digits d) = true.
Proof. induction d; cbn [uint_digits forallb]; try rewrite IHd; reflexivity. Qed.

Lemma digits_uint_uint_digits (d : Decimal.uint) :
  digits_uint (uint_digits d) = d.
Proof.
  unfold digits_uint.
  induction d; cbn [uint_digits fold_right]; try rewrite IHd; reflexivity.
Qed.

Lemma decimal_all (s : Z) : forallb is_digit (decimal s) = true.
Proof. apply uint_digits_all. Qed.

Lemma decimal_value (s : Z) : 0 <= s -> digits_value (decimal s) = s.
Proof.
  intros Hs. unfold digits_value, decimal.
  rewrite digits_uint_uint_digits, DecimalN.Unsigned.of_to. lia.
Qed.

Lemma to_uint_normal (n : N) : Decimal.unorm (N.to_uint n) = N.to_uint n.
Proof.
  rewrite <- (DecimalN.Unsigned.of_to n) at 2.
  symmetry. apply DecimalN.Unsigned.to_of.
Qed.

Lemma decimal_head (s : Z) :
  0 < s ->
  exists c t, decimal s = c :: t /\ c <> 48%N /\ is_digit c = true.
Proof.
  intros Hs. unfold decimal.
  pose proof (to_uint_normal (Z.to_N s)) as Hn.
  assert (Hnz : N.to_uint (Z.to_N s) <> Decimal.zero).
  { intros H. assert (Z.to_N s = 0%N); [|lia].
    rewrite <- (DecimalN.Unsigned.of_to (Z.to_N s)), H. reflexivity. }
  pose proof (uint_digits_all (N.to_uint (Z.to_N s))) as Hall.
  destruct (N.to_uint (Z.to_N s)) as [|u|u|u|u|u|u|u|u|u|u] eqn:Hu;
    cbn [uint_digits forallb] in *;
    try (do 2 eexists; split; [reflexivity|]; split; [discriminate|reflexivity]).
  - discriminate Hn.
  - exfalso. rewrite DecimalFacts.unorm_D0 in Hn.
    unfold Decimal.unorm in Hn.
    destruct (Decimal.nzhead u) eqn:Hh; try discriminate Hn.
    + apply Hnz. exact (eq_sym Hn).
    + apply (DecimalFacts.nzhead_nonzero u u0). rewrite Hh. congruence.
Qed.

Lemma digits_value_zero_first (ds : jsstring) :
  digits_value (48%N :: ds) = digits_value ds.
Proof. reflexivity. Qed.

Lemma digits_value_zeros_first (m : nat) (ds : jsstring) :
  digits_value (repeat 48%N m ++ ds) = digits_value ds.
Proof.
  induction m as [|m IH]; [reflexivity|].
  cbn [repeat app]. rewrite digits_value_zero_first. exact IH.
Qed.

Lemma of_uint_acc_zero_last (ds : jsstring) :
  forall acc,
    Pos.of_uint_acc (digits_uint (ds ++ [48%N])) acc
    = (10 * Pos.of_uint_acc (digits_uint ds) acc)%positive.
Proof.
  unfold digits_uint. induction ds as [|c ds IH]; intros acc.
  - reflexivity.
  - cbn [app fold_right]. unfold digit at 1 3.
    repeat match goal with
           | |- context [if ?b then _ else _] => destruct b
           end; cbn [Pos.of_uint_acc]; apply IH.
Qed.

Lemma of_uint_zero_last (ds : jsstring) :
  N.of_uint (digits_uint (ds ++ [48%N]))
  = (10 * N.of_uint (digits_uint ds))%N.
Proof.
  unfold N.of_uint.
  induction ds as [|c ds IH]; [reflexivity|].
  unfold digits_uint in *. cbn [app fold_right].
  pose proof (of_uint_acc_zero_last ds) as Hacc. unfold digits_uint in Hacc.
  unfold digit at 1 3.
  repeat match goal with
         | |- context [if ?b then _ else _] => destruct b
         end; cbn [Pos.of_uint]; try exact IH; rewrite Hacc; reflexivity.
Qed.

Lemma digits_value_zero_last (ds : jsstring) :
  digits_value (ds ++ [48%N]) = digits_value ds * 10.
Proof. unfold digits_value. rewrite of_uint_zero_last. lia. Qed.

Lemma digits_value_zeros_last (m : nat) (ds : jsstring) :
  digits_value (ds ++ repeat 48%N m) = digits_value ds * 10 ^ Z.of_nat m.
Proof.
  revert ds. induction m as [|m IH]; intros ds.
  - cbn [repeat]. rewrite app_nil_r. change (10 ^ Z.of_nat 0) with 1. lia.
  - cbn [repeat]. change (48%N :: repeat 48%N m) with ([48%N] ++ repeat 48%N m).
    rewrite app_assoc, IH, digits_value_zero_last.
    rewrite Nat2Z.inj_succ, Z.pow_succ_r by lia. ring.
Qed.

Lemma span_digits_app (ds rest : jsstring) :
  forallb is_digit ds = true -> no_digit_first rest ->
  span_digits (ds ++ rest) = (ds, rest).
Proof.
  intros Hds Hrest. induction ds as [|c ds IH]; cbn [app].
  - destruct rest as [|c t]; [reflexivity|]. cbn [span_digits].
    cbn in Hrest. rewrite Hrest. reflexivity.
  - cbn [forallb] in Hds. apply andb_true_iff in Hds as [Hc Hds].
    cbn [span_digits]. rewrite Hc, (IH Hds). reflexivity.
Qed.

Lemma span_digits_all (ds : jsstring) :
  forallb is_digit ds = true -> span_digits ds = (ds, []).
Proof.
  intros H. rewrite <- (app_nil_r ds) at 1. apply span_digits_app; [exact H|exact I].
Qed.

Lemma scan_exponent_text (e : option (bool * jsstring)) :
  exponent_ok e ->
  scan_exponent (exponent_text e) = Some (exponent_value e, []).
Proof.
  destruct e as [[minus ds]|]; [|reflexivity].
  intros [Hne Hds]. cbn [exponent_text scan_exponent exponent_value].
  change ((101 =? 101)%N || (101 =? 69)%N) with true. cbv iota.
  destruct minus.
  - change ((45 =? 45)%N) with true. cbv iota.
    rewrite (span_digits_all ds Hds). destruct ds; [congruence | reflexivity].
  - change ((43 =? 45)%N) with false. change ((43 =? 43)%N) with true.
    cbv iota. rewrite (span_digits_all ds Hds).
    destruct ds; [congruence | reflexivity].
Qed.

Lemma exponent_text_no_digit (e : option (bool * jsstring)) :
  no_digit_first (exponent_text e).
Proof. destruct e as [[minus ds]|]; [reflexivity | exact I]. Qed.

Lemma scan_fraction_text (f : jsstring) (e : option (bool * jsstring)) :
  forallb is_digit f = true ->
  scan_fraction (fraction_text f ++ exponent_text e)
  = Some (f, exponent_text e).
Proof.
  intros Hf. destruct f as [|c f].
  - cbn [fraction_text app].
    destruct e as [[minus ds]|]; reflexivity.
  - cbn [fraction_text app scan_fraction].
    change ((46 =? 46)%N) with true. cbv iota.
    change (c :: f ++ exponent_text e) with ((c :: f) ++ exponent_text e).
    rewrite (span_digits_app (c :: f) _ Hf (exponent_text_no_digit e)).
    reflexivity.
Qed.

Lemma is_digit_not_minus (c : N) : is_digit c = true -> (c =? 45)%N = false.
Proof.
  unfold is_digit. rewrite andb_true_iff, !N.leb_le. intros [H _].
  apply N.eqb_neq. lia.
Qed.

(** Scanning a literal gives its parts. *)
Lemma scan_literal (c : N) (more f : jsstring) (e : option (bool * jsstring)) :
  forallb is_digit (c :: more) = true ->
  c <> 48%N \/ more = [] ->
  forallb is_digit f = true ->
  exponent_ok e ->
  scan_number (literal (c :: more) f e)
  = Some (false, c :: more, f, exponent_value e).
Proof.
  intros Hi Hlead Hf He. unfold scan_number, literal.
  assert (Hc : is_digit c = true)
    by (cbn [forallb] in Hi; apply andb_true_iff in Hi; tauto).
  cbn [app scan_sign]. rewrite (is_digit_not_minus c Hc).
  change (c :: more ++ fraction_text f ++ exponent_text e)
    with ((c :: more) ++ fraction_text f ++ exponent_text e).
  rewrite (span_digits_app (c :: more) _ Hi).
  2:{ destruct f as [|d f]; [apply exponent_text_no_digit | reflexivity]. }
  replace ((c =? 48)%N && negb match more with [] => true | _ :: _ => false end)
    with false.
  2:{ destruct Hlead as [H| ->]; [|rewrite andb_false_r; reflexivity].
      apply N.eqb_neq in H. rewrite H. reflexivity. }
  rewrite (scan_fraction_text f e Hf), (scan_exponent_text e He).
  reflexivity.
Qed.

Lemma scan_signed (neg : bool) (c : N) (more f : jsstring)
  (e : option (bool * jsstring)) :
  forallb is_digit (c :: more) = true ->
  c <> 48%N \/ more = [] ->
  forallb is_digit f = true ->
  exponent_ok e ->
  scan_number (sign_text neg ++ literal (c :: more) f e)
  = Some (neg, c :: more, f, exponent_value e).
Proof.
  intros Hi Hlead Hf He. unfold sign_text.
  destruct neg; [|apply scan_literal; assumption].
  pose proof (scan_literal c more f e Hi Hlead Hf He) as H.
  unfold scan_number in H |- *.
  assert (Hc : is_digit c = true)
    by (cbn [forallb] in Hi; apply andb_true_iff in Hi; tauto).
  unfold literal in H |- *. cbn [app scan_sign] in H |- *.
  rewrite (is_digit_not_minus c Hc) in H.
  change ((45 =? 45)%N) with true. cbv iota.
  destruct (span_digits (c :: more ++ fraction_text f ++ exponent_text e))
    as [int_part s2].
  destruct int_part as [|first rest]; [discriminate|].
  destruct ((first =? 48)%N && negb match rest with [] => true | _ => false end);
    [discriminate|].
  destruct (scan_fraction s2) as [[fp s3]|]; [|discriminate].
  destruct (scan_exponent s3) as [[ev [|x r]]|]; try discriminate.
  injection H as <- <- <- <-. reflexivity.
Qed.

Lemma literal_chars (i f : jsstring) (e : option (bool * jsstring)) :
  forallb is_digit i = true -> forallb is_digit f = true -> exponent_ok e ->
  forallb JSON.is_number_char (literal i f e) = true.
Proof.
  intros Hi Hf He.
  assert (Hd : forall ds, forallb is_digit ds = true ->
                          forallb JSON.is_number_char ds = true).
  { intros ds H. rewrite forallb_forall in H |- *. intros x Hx.
    unfold JSON.is_number_char. rewrite (H x Hx). reflexivity. }
  unfold literal. rewrite !forallb_app, (Hd i Hi). cbn [andb].
  apply andb_true_iff. split.
  - destruct f as [|c f]; [reflexivity|]. cbn [fraction_text forallb].
    change (JSON.is_number_char 46) with true. cbn [andb].
    apply (Hd (c :: f) Hf).
  - destruct e as [[minus ds]|]; [|reflexivity].
    destruct He as [_ Hds]. cbn [exponent_text forallb].
    change (JSON.is_number_char 101) with true.
    replace (JSON.is_number_char (if minus then 45%N else 43%N)) with true
      by (destruct minus; reflexivity).
    cbn [andb]. apply (Hd ds Hds).
Qed.

Lemma number_value_literal (neg : bool) (c : N) (more f : jsstring)
  (e : option (bool * jsstring)) :
  forallb is_digit (c :: more) = true ->
  c <> 48%N \/ more = [] ->
  forallb is_digit f = true ->
  exponent_ok e ->
  digits_value ((c :: more) ++ f) <> 0 ->
  number_value (sign_text neg ++ literal (c :: more) f e)
  = Some (mkFloat neg
            (round_decimal (digits_value ((c :: more) ++ f))
               (exponent_value e - Z.of_nat (List.length f)))) /\
  forallb JSON.is_number_char (sign_text neg ++ literal (c :: more) f e) = true.
Proof.
  intros Hi Hlead Hf He Hd. split.
  - unfold number_value.
    rewrite (scan_signed neg c more f e Hi Hlead Hf He).
    apply Z.eqb_neq in Hd. rewrite Hd. reflexivity.
  - rewrite forallb_app, (literal_chars _ f e Hi Hf He), andb_true_r.
    unfold sign_text. destruct neg; reflexivity.
Qed.

Lemma round_decimal_pow (m : nat) (s p : Z) :
  round_decimal (s * 10 ^ Z.of_nat m) p = round_decimal s (p + Z.of_nat m).
Proof.
  revert s p. induction m as [|m IH]; intros s p.
  - change (10 ^ Z.of_nat 0) with 1. f_equal; lia.
  - rewrite Nat2Z.inj_succ, Z.pow_succ_r by lia.
    replace (s * (10 * 10 ^ Z.of_nat m)) with (s * 10 * 10 ^ Z.of_nat m) by ring.
    rewrite IH, round_decimal_tenfold. f_equal. lia.
Qed.

Lemma forallb_firstn_skipn {A} (P : A -> bool) (n : nat) (l : list A) :
  forallb P l = true ->
  forallb P (firstn n l) = true /\ forallb P (skipn n l) = true.
Proof.
  intros H. rewrite <- (firstn_skipn n l), forallb_app in H.
  apply andb_true_iff in H. exact H.
Qed.

Lemma forallb_zeros (m : nat) : forallb is_digit (repeat 48%N m) = true.
Proof. induction m; [reflexivity|]. cbn [repeat forallb]. rewrite IHm. reflexivity. Qed.

Lemma decimal_nonempty (s : Z) : decimal s <> [].
Proof.
  unfold decimal. pose proof (to_uint_normal (Z.to_N s)) as Hn.
  pose proof (DecimalFacts.unorm_nonnil (N.to_uint (Z.to_N s))) as Hnil.
  rewrite Hn in Hnil. destruct (N.to_uint (Z.to_N s)); cbn; congruence.
Qed.

Section Format.

Variables (neg : bool) (s n : Z) (c0 : N) (more0 : jsstring).
Hypothesis Hs : 0 < s.
Hypothesis Hds : decimal s = c0 :: more0.
Hypothesis Hc0 : c0 <> 48%N.

Let k := Z.of_nat (List.length (decimal s)).

Lemma digits_all_parts :
  forallb is_digit (c0 :: more0) = true /\ forallb is_digit more0 = true
  /\ is_digit c0 = true.
Proof.
  pose proof (decimal_all s) as H. rewrite Hds in H.
  cbn [forallb] in H |- *. apply andb_true_iff in H as [Ha Hb].
  rewrite Ha, Hb. auto.
Qed.

Lemma digits_value_parts : digits_value (c0 :: more0) = s.
Proof. rewrite <- Hds. apply decimal_value. lia. Qed.

Lemma k_eq : k = Z.of_nat (S (List.length more0)).
Proof. unfold k. rewrite Hds. reflexivity. Qed.

(** Step 6: the digits, then zeros. *)
Lemma format_integer :
  k <= n ->
  number_value (sign_text neg ++ decimal s ++ zeros (n - k))
  = Some (mkFloat neg (round_decimal s (n - k))) /\
  forallb JSON.is_number_char (sign_text neg ++ decimal s ++ zeros (n - k))
  = true.
Proof.
  intros Hkn. unfold zeros.
  destruct digits_all_parts as (Hall & _ & _).
  set (m := Z.to_nat (n - k)).
  assert (Hlit : decimal s ++ repeat 48%N m
                 = literal (c0 :: more0 ++ repeat 48%N m) [] None).
  { unfold literal. cbn [fraction_text exponent_text]. rewrite !app_nil_r.
    rewrite Hds. reflexivity. }
  rewrite Hlit.
  assert (Hi : forallb is_digit (c0 :: more0 ++ repeat 48%N m) = true).
  { change (c0 :: more0 ++ repeat 48%N m) with ((c0 :: more0) ++ repeat 48%N m).
    rewrite forallb_app, Hall, forallb_zeros. reflexivity. }
  assert (Hd : digits_value ((c0 :: more0 ++ repeat 48%N m) ++ [])
               = s * 10 ^ Z.of_nat m).
  { rewrite app_nil_r.
    change (c0 :: more0 ++ repeat 48%N m) with ((c0 :: more0) ++ repeat 48%N m).
    rewrite digits_value_zeros_last, digits_value_parts. reflexivity. }
  destruct (number_value_literal neg c0 _ [] None Hi (or_introl Hc0)
              eq_refl I) as [Hv Hchars].
  { rewrite Hd. assert (0 < 10 ^ Z.of_nat m)
      by (apply Z.pow_pos_nonneg; lia). nia. }
  split; [|exact Hchars]. rewrite Hv, Hd, round_decimal_pow.
  cbn [exponent_value List.length]. do 2 f_equal. f_equal. unfold m. lia.
Qed.

(** Step 7: a point inside the digits. *)
Lemma format_point_inside :
  0 < n -> n < k ->
  let text :=
    sign_text neg
    ++ firstn (Z.to_nat n) (decimal s) ++ 46%N :: skipn (Z.to_nat n) (decimal s)
  in
  number_value text = Some (mkFloat neg (round_decimal s (n - k))) /\
  forallb JSON.is_number_char text = true.
Proof.
  intros Hn Hnk text. subst text.
  destruct digits_all_parts as (Hall & _ & Hdig0).
  pose proof k_eq as Hk.
  destruct (Z.to_nat n) as [|j] eqn:Hj; [lia|].
  rewrite Hds. cbn [firstn skipn].
  destruct (forallb_firstn_skipn is_digit j more0) as [Hfirst Hskip].
  { cbn [forallb] in Hall. apply andb_true_iff in Hall. tauto. }
  assert (Hlen : (j < List.length more0)%nat) by lia.
  destruct (skipn j more0) as [|f0 frac] eqn:Hfrac.
  { apply (f_equal (@List.length N)) in Hfrac. rewrite length_skipn in Hfrac.
    cbn in Hfrac. lia. }
  assert (Hlit : (c0 :: firstn j more0) ++ 46%N :: f0 :: frac
                 = literal (c0 :: firstn j more0) (f0 :: frac) None).
  { unfold literal. cbn [fraction_text exponent_text]. rewrite app_nil_r.
    reflexivity. }
  change (c0 :: firstn j more0 ++ 46%N :: f0 :: frac)
    with ((c0 :: firstn j more0) ++ 46%N :: f0 :: frac).
  rewrite Hlit.
  assert (Hi : forallb is_digit (c0 :: firstn j more0) = true)
    by (cbn [forallb]; rewrite Hdig0, Hfirst; reflexivity).
  assert (Hd : digits_value ((c0 :: firstn j more0) ++ f0 :: frac) = s).
  { rewrite <- Hfrac. cbn [app]. rewrite firstn_skipn.
    apply digits_value_parts. }
  destruct (number_value_literal neg c0 _ (f0 :: frac) None Hi (or_introl Hc0)
              Hskip I) as [Hv Hchars]; [rewrite Hd; lia|].
  split; [|exact Hchars]. rewrite Hv, Hd. cbn [exponent_value].
  do 2 f_equal. f_equal.
  assert (Hl : List.length (f0 :: frac) = (List.length more0 - j)%nat)
    by (rewrite <- Hfrac; apply length_skipn).
  rewrite Hl. lia.
Qed.

(** Step 8: zero, a point, zeros and the digits. *)
Lemma format_small :
  n <= 0 ->
  let text := sign_text neg ++ 48%N :: 46%N :: zeros (- n) ++ decimal s in
  number_value text = Some (mkFloat neg (round_decimal s (n - k))) /\
  forallb JSON.is_number_char text = true.
Proof.
  intros Hn text. subst text. unfold zeros.
  destruct digits_all_parts as (Hall & _ & _).
  set (m := Z.to_nat (- n)).
  assert (Hf : forallb is_digit (repeat 48%N m ++ decimal s) = true)
    by (rewrite forallb_app, forallb_zeros, Hds, Hall; reflexivity).
  assert (Hne : repeat 48%N m ++ decimal s <> []).
  { rewrite Hds. destruct (repeat 48%N m); discriminate. }
  assert (Hlit : 48%N :: 46%N :: repeat 48%N m ++ decimal s
                 = literal [48%N] (repeat 48%N m ++ decimal s) None).
  { unfold literal. cbn [exponent_text]. rewrite app_nil_r.
    destruct (repeat 48%N m ++ decimal s); [congruence | reflexivity]. }
  rewrite Hlit.
  assert (Hd : digits_value ([48%N] ++ repeat 48%N m ++ decimal s) = s).
  { cbn [app]. rewrite digits_value_zero_first, digits_value_zeros_first.
    apply decimal_value. lia. }
  destruct (number_value_literal neg 48%N [] _ None eq_refl
              (or_intror eq_refl) Hf I) as [Hv Hchars]; [rewrite Hd; lia|].
  split; [|exact Hchars]. rewrite Hv, Hd. cbn [exponent_value].
  do 2 f_equal. f_equal. rewrite length_app, repeat_length.
  unfold k, m. lia.
Qed.

(** Steps 9 and 10: a digit, the others after a point, and the exponent. *)
Lemma format_exponent :
  n <> 1 ->
  let e := n - 1 in
  let exponent :=
    101%N :: (if e <? 0 then 45%N else 43%N) :: decimal (Z.abs e) in
  let text :=
    sign_text neg
    ++ match decimal s with
       | [d] => d :: exponent
       | d :: more => d :: 46%N :: more ++ exponent
       | [] => exponent
       end in
  number_value text = Some (mkFloat neg (round_decimal s (n - k))) /\
  forallb JSON.is_number_char text = true.
Proof.
  intros Hn1 e exponent text. subst text.
  destruct digits_all_parts as (Hall & Hmore & Hdig0).
  pose proof k_eq as Hk.
  set (ex := Some (e <? 0, decimal (Z.abs e))).
  assert (Hex : exponent = exponent_text ex) by reflexivity.
  assert (Hok : exponent_ok ex).
  { split; [apply decimal_nonempty | apply decimal_all]. }
  assert (Hev : exponent_value ex = e).
  { unfold ex. cbn [exponent_value]. rewrite decimal_value by lia.
    destruct (Z.ltb_spec e 0); lia. }
  assert (Hlit : match decimal s with
                 | [d] => d :: exponent
                 | d :: more => d :: 46%N :: more ++ exponent
                 | [] => exponent
                 end = literal [c0] more0 ex).
  { rewrite Hds, Hex. unfold literal. destruct more0; reflexivity. }
  rewrite Hlit.
  assert (Hd : digits_value ([c0] ++ more0) = s) by apply digits_value_parts.
  destruct (number_value_literal neg c0 [] more0 ex
              ltac:(cbn [forallb]; rewrite Hdig0; reflexivity)
              (or_intror eq_refl) Hmore Hok) as [Hv Hchars];
    [rewrite Hd; lia|].
  split; [|exact Hchars]. rewrite Hv, Hd, Hev.
  do 2 f_equal. f_equal. unfold e. lia.
Qed.

End Format.

(** The text [Number::toString] makes of digits and a point is a literal
    that denotes those digits at that point. *)
Lemma number_value_format (neg : bool) (s n : Z) :
  0 < s ->
  let ds := decimal s in
  let text := sign_text neg ++ format_decimal ds n in
  number_value text
  = Some (mkFloat neg (round_decimal s (n - Z.of_nat (List.length ds)))) /\
  forallb JSON.is_number_char text = true.
Proof.
  intros Hs ds text. subst text ds.
  destruct (decimal_head s Hs) as (c0 & more0 & Hds & Hc0 & _).
  unfold format_decimal.
  destruct (Z.leb_spec (Z.of_nat (List.length (decimal s))) n) as [Hkn|Hkn].
  - destruct (Z.leb_spec n 21) as [Hn|Hn]; cbn [andb].
    + apply (format_integer neg s n c0 more0 Hs Hds Hc0 Hkn).
    + replace (0 <? n) with true by (symmetry; apply Z.ltb_lt; lia).
      replace (n <=? 21) with false by (symmetry; apply Z.leb_gt; lia).
      replace (-6 <? n) with true by (symmetry; apply Z.ltb_lt; lia).
      replace (n <=? 0) with false by (symmetry; apply Z.leb_gt; lia).
      cbn [andb].
      apply (format_exponent neg s n c0 more0 Hs Hds Hc0). lia.
  - cbn [andb].
    destruct (Z.ltb_spec 0 n) as [Hpos|Hpos].
    + destruct (Z.leb_spec n 21) as [Hn|Hn]; cbn [andb].
      * apply (format_point_inside neg s n c0 more0 Hs Hds Hc0 Hpos Hkn).
      * replace (-6 <? n) with true by (symmetry; apply Z.ltb_lt; lia).
        replace (n <=? 0) with false by (symmetry; apply Z.leb_gt; lia).
        cbn [andb].
        apply (format_exponent neg s n c0 more0 Hs Hds Hc0). lia.
    + cbn [andb]. replace (n <=? 0) with true by (symmetry; apply Z.leb_le; lia).
      rewrite andb_true_r.
      destruct (Z.ltb_spec (-6) n) as [Hsix|Hsix].
      * apply (format_small neg s n c0 more0 Hs Hds Hc0). lia.
      * apply (format_exponent neg s n c0 more0 Hs Hds Hc0). lia.
Qed.

Lemma candidates_nonnegative (a p s : Z) :
  0 <= a -> In s (candidates a p) -> 0 <= s.
Proof.
  intros Ha. unfold candidates.
  assert (Hlo : 0 <= (if 0 <=? p then a / Z.shiftl (10 ^ p) 1074
                      else Z.shiftr (a * 10 ^ (- p)) 1074)).
  { destruct (Z.leb_spec 0 p).
    - apply Z.div_pos; [exact Ha|]. rewrite Z.shiftl_mul_pow2 by lia.
      apply Z.mul_pos_pos; apply Z.pow_pos_nonneg; lia.
    - apply Z.shiftr_nonneg. apply Z.mul_nonneg_nonneg; [exact Ha|].
      apply Z.pow_nonneg. lia. }
  destruct (0 <=? p);
    match goal with
    | |- context [if ?c then _ else _] => destruct c
    end; cbn [In]; intros [<-|[<-|[]]]; lia.
Qed.

Lemma shortest_sound (ks : list Z) (i a n s p : Z) :
  0 <= a -> shortest ks i a n = Some (s, p) ->
  0 <= s /\ round_decimal s p = i.
Proof.
  intros Ha. induction ks as [|k ks IH]; [discriminate|].
  cbn [shortest].
  destruct (filter (fun s0 => round_decimal s0 (n - k) =? i)
                   (candidates a (n - k))) as [|s0 l] eqn:Hf; [exact IH|].
  intros [= <- <-].
  assert (Hin : In s0 (filter (fun s0 => round_decimal s0 (n - k) =? i)
                              (candidates a (n - k))))
    by (rewrite Hf; left; reflexivity).
  apply filter_In in Hin as [Hin Hr]. split.
  - eapply candidates_nonnegative; eassumption.
  - apply Z.eqb_eq. exact Hr.
Qed.

Lemma strip_zeros_sound (fuel : nat) (i : Z) :
  forall s p,
    0 < s -> round_decimal s p = i ->
    0 < fst (strip_zeros fuel s p)
    /\ round_decimal (fst (strip_zeros fuel s p)) (snd (strip_zeros fuel s p))
       = i.
Proof.
  induction fuel as [|fuel IH]; intros s p Hs Hr; [split; assumption|].
  cbn [strip_zeros]. destruct (Z.eqb_spec (s mod 10) 0) as [Hm|Hm];
    [|split; assumption].
  pose proof (Z.div_mod s 10 ltac:(lia)) as Hdm.
  apply IH; [lia|].
  rewrite <- round_decimal_tenfold. replace (s / 10 * 10) with s by lia.
  exact Hr.
Qed.

Lemma digits_and_point_sound (i : Z) :
  0 < i < infinity_bits ->
  exists s,
    0 < s /\
    fst (digits_and_point i) = decimal s /\
    round_decimal s (snd (digits_and_point i)
                     - Z.of_nat (List.length (decimal s))) = i.
Proof.
  intros Hi. unfold digits_and_point.
  pose proof (scaled_pos i ltac:(lia)) as Ha.
  generalize (decimal_exponent 640 (scaled i) (-323)). intros n.
  assert (Hsp : exists s p,
             match shortest (List.map Z.of_nat (seq 1 17)) i (scaled i) n with
             | Some sp => sp
             | None => (scaled i * 5 ^ 1074, -1074)
             end = (s, p) /\ 0 < s /\ round_decimal s p = i).
  { destruct (shortest (List.map Z.of_nat (seq 1 17)) i (scaled i) n)
      as [[s p]|] eqn:Hsh.
    - exists s, p. split; [reflexivity|].
      destruct (shortest_sound _ i (scaled i) n s p (Z.lt_le_incl _ _ Ha) Hsh)
        as [Hs Hr].
      split; [|exact Hr].
      destruct (Z.eq_dec s 0) as [->|Hne]; [|lia].
      rewrite round_decimal_zero in Hr. lia.
    - exists (scaled i * 5 ^ 1074), (-1074). split; [reflexivity|]. split.
      + apply Z.mul_pos_pos; [exact Ha | apply Z.pow_pos_nonneg; lia].
      + apply round_decimal_exact. lia. }
  destruct Hsp as (s & p & -> & Hs & Hr).
  destruct (strip_zeros_sound 1100 i s p Hs Hr) as [Hs' Hr'].
  destruct (strip_zeros 1100 s p) as [s' p']. cbn [fst snd] in *.
  exists s'. split; [exact Hs'|]. split; [reflexivity|].
  replace (p' + Z.of_nat (List.length (decimal s'))
           - Z.of_nat (List.length (decimal s'))) with p' by lia.
  exact Hr'.
Qed.

(** Every finite number is read back from the digits [Number::toString]
    gives it. *)
Theorem finite_reads_back (x : float64) :
  0 <= magnitude x -> isFinite x = true -> JSON.reads_back x = true.
Proof.
  intros Hm Hfin. unfold isFinite in Hfin. apply Z.ltb_lt in Hfin.
  unfold JSON.reads_back, toString.
  destruct (Z.eqb_spec (magnitude x) 0) as [H0|H0].
  - change (number_value (js "0")) with (Some (mkFloat false 0)).
    cbn [forallb]. unfold JSON.number_equal. rewrite H0. reflexivity.
  - replace (magnitude x <? infinity_bits) with true
      by (symmetry; apply Z.ltb_lt; exact Hfin).
    unfold isFinite.
    replace (magnitude x <? infinity_bits) with true
      by (symmetry; apply Z.ltb_lt; exact Hfin).
    destruct (digits_and_point_sound (magnitude x) ltac:(lia))
      as (s & Hs & Hds & Hr).
    destruct (digits_and_point (magnitude x)) as [ds n]. cbn [fst snd] in *.
    subst ds.
    destruct (number_value_format (negative x) s n Hs) as [Hv Hchars].
    unfold sign_text in Hv, Hchars. rewrite Hr in Hv.
    apply andb_true_iff. split; [exact Hchars|].
    assert (Hmatch : forall o,
               o = Some (mkFloat (negative x) (magnitude x)) ->
               match o with
               | Some y => JSON.number_equal x y
               | None => false
               end = true).
    { intros o ->. unfold JSON.number_equal. cbn [magnitude negative].
      rewrite Z.eqb_refl, Bool.eqb_reflx, orb_true_r. reflexivity. }
    apply Hmatch. exact Hv.
Qed.

End NumberFacts.

(** ** What the JSON compressor writes, for every text that parses *)

Section JsonCompaction.
Import JSON JsonVocabulary JsonFacts.

Lemma number_value_in_range (s : jsstring) (x : Number.float64) :
  Number.number_value s = Some x ->
  0 <= Number.magnitude x <= Number.infinity_bits.
Proof.
  unfold Number.number_value.
  destruct (Number.scan_number s) as [[[[neg i] f] e]|]; [|discriminate].
  destruct (Number.digits_value (i ++ f) =? 0); intros [= <-];
    cbn [Number.magnitude].
  - split; [lia | discriminate].
  - apply NumberFacts.round_decimal_range.
Qed.

(** What holds of every literal and is kept by arrays and objects holds of
    every value that has been parsed. *)
Lemma parse_values_satisfy (P : JsValue -> Prop) :
  P JNull -> (forall b, P (JBool b)) ->
  (forall s x, Number.number_value s = Some x -> P (JNumber x)) ->
  (forall s, P (JString s)) ->
  (forall items, Forall P items -> P (JArray items)) ->
  (forall props, Forall (fun p => P (snd p)) props -> P (JObject props)) ->
  forall fuel,
    (forall s v rest, parse_value fuel s = Some (v, rest) -> P v) /\
    (forall s vs rest, parse_elements fuel s = Some (vs, rest) -> Forall P vs) /\
    (forall s ms rest,
       parse_members fuel s = Some (ms, rest) -> Forall (fun p => P (snd p)) ms).
Proof.
  intros Hnull Hbool Hnum Hstr Harr Hobj.
  induction fuel as [|fuel (IHv & IHe & IHm)];
    [repeat split; intros; discriminate|].
  repeat split.
  - intros s v rest. cbn [parse_value].
    destruct (skip_ws s) as [|c t]; [discriminate|].
    destruct (c =? 34)%N.
    { destruct (parse_chars t) as [[str r]|]; [|discriminate].
      intros [= <- _]. apply Hstr. }
    destruct (c =? 91)%N.
    { destruct (skip_ws t) as [|d r]; [discriminate|].
      destruct (d =? 93)%N; [intros [= <- _]; apply Harr; constructor|].
      destruct (parse_elements fuel t) as [[items r']|] eqn:He; [|discriminate].
      intros [= <- _]. apply Harr. eapply IHe; eassumption. }
    destruct (c =? 123)%N.
    { destruct (skip_ws t) as [|d r]; [discriminate|].
      destruct (d =? 125)%N; [intros [= <- _]; apply Hobj; constructor|].
      destruct (parse_members fuel t) as [[ms r']|] eqn:Hm; [|discriminate].
      intros [= <- _]. apply Hobj.
      apply (Forall_fold_define P); [|constructor].
      eapply IHm; eassumption. }
    destruct ((c =? 45)%N || Number.is_digit c).
    { destruct (span_number (c :: t)) as [tok r].
      destruct (Number.number_value tok) eqn:Hv; [|discriminate].
      intros [= <- _]. eapply Hnum; eassumption. }
    destruct (starts_with (js "null") (c :: t)); [intros [= <- _]; apply Hnull|].
    destruct (starts_with (js "true") (c :: t)); [intros [= <- _]; apply Hbool|].
    destruct (starts_with (js "false") (c :: t)); [intros [= <- _]; apply Hbool|].
    discriminate.
  - intros s vs rest. cbn [parse_elements].
    destruct (parse_value fuel s) as [[v r]|] eqn:Hv; [|discriminate].
    destruct (skip_ws r) as [|c r']; [discriminate|].
    destruct (c =? 44)%N.
    { destruct (parse_elements fuel r') as [[vs' r'']|] eqn:He; [|discriminate].
      intros [= <- _]. constructor; [eapply IHv | eapply IHe]; eassumption. }
    destruct (c =? 93)%N; [|discriminate].
    intros [= <- _]. constructor; [eapply IHv; eassumption | constructor].
  - intros s ms rest. cbn [parse_members].
    destruct (skip_ws s) as [|q t]; [discriminate|].
    destruct (q =? 34)%N; [|discriminate].
    destruct (parse_chars t) as [[key r1]|]; [|discriminate].
    destruct (skip_ws r1) as [|colon r2]; [discriminate|].
    destruct (colon =? 58)%N; [|discriminate].
    destruct (parse_value fuel r2) as [[v r3]|] eqn:Hv; [|discriminate].
    destruct (skip_ws r3) as [|c r4]; [discriminate|].
    destruct (c =? 44)%N.
    { destruct (parse_members fuel r4) as [[ms' r5]|] eqn:Hm; [|discriminate].
      intros [= <- _]. constructor; [eapply IHv | eapply IHm]; eassumption. }
    destruct (c =? 125)%N; [|discriminate].
    intros [= <- _]. constructor; [eapply IHv; eassumption | constructor].
Qed.

Lemma parse_in_range (text : jsstring) (v : JsValue) :
  parse text = Some v -> numbers_in_range v = true.
Proof.
  unfold parse.
  destruct (parse_value (S (List.length text)) text) as [[v' rest]|] eqn:Hp;
    [|discriminate].
  destruct (skip_ws rest); [|discriminate].
  intros [= <-].
  refine (proj1 (parse_values_satisfy (fun v => numbers_in_range v = true)
                   eq_refl (fun _ => eq_refl) _ (fun _ => eq_refl) _ _ _)
            _ _ _ Hp).
  - intros s x Hs. apply number_value_in_range in Hs. cbn [numbers_in_range].
    apply andb_true_iff. split; apply Z.leb_le; lia.
  - intros items H. cbn [numbers_in_range]. apply forallb_forall.
    rewrite Forall_forall in H. exact H.
  - intros props H. cbn [numbers_in_range]. apply forallb_forall.
    rewrite Forall_forall in H. exact H.
Qed.

(** In a parsed value, the numbers that are not infinities are read
    back. *)
Lemma in_range_read_back (v : JsValue) :
  numbers_in_range v = true -> finite_numbers v = true ->
  numbers_read_back v = true.
Proof.
  induction v as [|b|x|s|items IH|props IH] using JsValue_nested_ind;
    cbn [numbers_in_range finite_numbers numbers_read_back];
    intros Hr Hf; try reflexivity.
  - apply andb_true_iff in Hr as [Hr _]. apply Z.leb_le in Hr.
    apply NumberFacts.finite_reads_back; assumption.
  - rewrite forallb_forall in Hr, Hf |- *. rewrite Forall_forall in IH.
    intros v Hv. apply IH; auto.
  - rewrite forallb_forall in Hr, Hf |- *. rewrite Forall_forall in IH.
    intros p Hp. apply IH; auto.
Qed.

(** *** What is written for a value before and after the infinities are
    replaced *)

Lemma stringify_nulled (v : JsValue) : stringify (nulled v) = stringify v.
Proof.
  induction v as [|b|x|s|items IH|props IH] using JsValue_nested_ind;
    try reflexivity.
  - cbn [nulled stringify]. destruct (Number.isFinite x) eqn:Hx; cbn [stringify].
    + rewrite Hx. reflexivity.
    + reflexivity.
  - cbn [nulled stringify]. rewrite map_map. do 3 f_equal.
    apply map_ext_Forall. exact IH.
  - cbn [nulled stringify]. rewrite map_map. do 3 f_equal.
    apply map_ext_Forall. eapply Forall_impl; [|exact IH].
    intros p Hp. cbn [fst snd]. rewrite Hp. reflexivity.
Qed.

Lemma finite_nulled (v : JsValue) : finite_numbers (nulled v) = true.
Proof.
  induction v as [|b|x|s|items IH|props IH] using JsValue_nested_ind;
    try reflexivity.
  - cbn [nulled]. destruct (Number.isFinite x) eqn:Hx; [exact Hx | reflexivity].
  - cbn [nulled finite_numbers]. rewrite forallb_forall. intros v Hv.
    apply in_map_iff in Hv as (v0 & <- & Hv0).
    rewrite Forall_forall in IH. auto.
  - cbn [nulled finite_numbers]. rewrite forallb_forall. intros p Hp.
    apply in_map_iff in Hp as (p0 & <- & Hp0).
    rewrite Forall_forall in IH. apply IH. exact Hp0.
Qed.

Lemma in_range_nulled (v : JsValue) :
  numbers_in_range v = true -> numbers_in_range (nulled v) = true.
Proof.
  induction v as [|b|x|s|items IH|props IH] using JsValue_nested_ind;
    try reflexivity.
  - cbn [nulled]. destruct (Number.isFinite x); auto.
  - cbn [nulled numbers_in_range]. rewrite !forallb_forall. intros H v Hv.
    apply in_map_iff in Hv as (v0 & <- & Hv0).
    rewrite Forall_forall in IH. auto.
  - cbn [nulled numbers_in_range]. rewrite !forallb_forall. intros H p Hp.
    apply in_map_iff in Hp as (p0 & <- & Hp0).
    rewrite Forall_forall in IH. apply IH; auto.
Qed.

Lemma well_formed_nulled (v : JsValue) : well_formed v -> well_formed (nulled v).
Proof.
  induction v as [|b|x|s|items IH|props IH] using JsValue_nested_ind;
    intros Hwf; try exact Hwf.
  - cbn [nulled]. destruct (Number.isFinite x); constructor.
  - cbn [nulled]. inversion Hwf as [| | | |? Hitems|]; subst. constructor.
    rewrite Forall_forall in *. intros v Hv.
    apply in_map_iff in Hv as (v0 & <- & Hv0). auto.
  - cbn [nulled]. inversion Hwf as [| | | | |? Hkeys Hprops]; subst.
    constructor.
    + rewrite map_map. cbn [fst]. exact Hkeys.
    + rewrite Forall_forall in *. intros p Hp.
      apply in_map_iff in Hp as (p0 & <- & Hp0). cbn [snd]. auto.
Qed.

Lemma nulled_finite (v : JsValue) : finite_numbers v = true -> nulled v = v.
Proof.
  induction v as [|b|x|s|items IH|props IH] using JsValue_nested_ind;
    try reflexivity; cbn [finite_numbers nulled].
  - intros ->. reflexivity.
  - intros H. f_equal. rewrite forallb_forall in H.
    rewrite <- (map_id items) at 2. apply map_ext_Forall.
    rewrite Forall_forall in *. auto.
  - intros H. f_equal. rewrite forallb_forall in H.
    rewrite <- (map_id props) at 2. apply map_ext_Forall.
    rewrite Forall_forall in *. intros [k v] Hp. cbn [fst snd].
    f_equal. apply (IH _ Hp), (H _ Hp).
Qed.



Lemma parse_of_what_is_written (text : jsstring) (v : JsValue) :
  parse text = Some v ->
  exists v',
    parse (stringify v) = Some v' /\ deep_equal (nulled v) v' = true.
Proof.
  intros Hparse. rewrite <- stringify_nulled.
  apply parse_stringify.
  - apply well_formed_nulled. eapply parse_is_well_formed. eassumption.
  - apply finite_nulled.
  - apply in_range_read_back; [|apply finite_nulled].
    apply in_range_nulled. eapply parse_in_range. eassumption.
Qed.

(** X14: what [JSON.stringify] writes for a value that [JSON.parse] has
    returned is read by [JSON.parse], to the value with [null] in the place
    of every number that was too large for a double, which was read as an
    infinity. *)
Theorem stringify_then_parse (text : jsstring) (v : JsValue) :
  parse text = Some v ->
  exists v',
    parse (stringify v) = Some v' /\ deep_equal (nulled v) v' = true.
Proof. apply parse_of_what_is_written. Qed.

(** X15: for every file whose text parses as JSON, whatever its numbers, the
    compressor leaves the file as it was; or, after a write that succeeded,
    with the compacted text, which parses to the value with [null] in the
    place of every number that was too large for a double; or, after a
    write that broke off, with the first bytes of the compacted text. *)
Theorem compressJsonFile_leaves
  (filePath : jsstring) (file : File) (w : World) (v : JsValue) :
  parse (f_text file) = Some v ->
  let file' := snd (fst (compressJsonFile parse stringify filePath file w)) in
  file' = file \/
  (write_fails file = false /\ f_text file' = stringify v /\
   exists v',
     parse (f_text file') = Some v' /\ deep_equal (nulled v) v' = true) \/
  (exists k,
     write_fails file = true /\ write_breaks file = Some k /\
     f_text file' = utf8_prefix k (stringify v)).
Proof.
  intros Hparse.
  unfold compressJsonFile, fs_readFile, fs_writeFile.
  destruct (read_fails file); [left; reflexivity|].
  rewrite Hparse.
  destruct (length (stringify v) <? length (f_text file));
    [|left; reflexivity].
  destruct (write_fails file).
  - destruct (write_breaks file) as [k|]; [|left; reflexivity].
    right. right. exists k. auto.
  - right. left. cbn [fst snd f_text holding].
    split; [reflexivity|]. split; [reflexivity|].
    apply (parse_of_what_is_written _ _ Hparse).
Qed.



End JsonCompaction.


(** ** The JSON compressor and the values it preserves *)

Section JsonCompressor.
Import JSON JsonFacts.

(** C8, as the script has it: when the text of a file parses as JSON to a
    value without an infinity, and no write to the file breaks off after
    the open, the text the compressor leaves in the file parses to a value
    deeply equal to that value.  Numbers are compared as [===] compares
    them. *)
Theorem C8_compacted_json_parses_to_an_equal_value
  (filePath : jsstring) (file : File) (w : World) (v : JsValue) :
  parse (f_text file) = Some v ->
  finite_numbers v = true ->
  write_breaks_off file = false ->
  let '(_, file', _) := compressJsonFile parse stringify filePath file w in
  exists v', parse (f_text file') = Some v' /\ deep_equal v v' = true.
Proof.
  intros Hparse Hfin Hwhole.
  assert (Hsame : exists v', parse (f_text file) = Some v'
                             /\ deep_equal v v' = true).
  { exists v. split; [exact Hparse | apply deep_equal_refl]. }
  unfold write_breaks_off in Hwhole.
  unfold compressJsonFile, fs_readFile, fs_writeFile.
  destruct (read_fails file); [exact Hsame|].
  rewrite Hparse.
  destruct (length (stringify v) <? length (f_text file)); [|exact Hsame].
  destruct (write_fails file);
    [destruct (write_breaks file); [discriminate | exact Hsame]|].
  cbn [f_text holding].
  destruct (parse_of_what_is_written _ _ Hparse) as (v' & Hv' & Heq).
  rewrite (nulled_finite v Hfin) in Heq. eauto.
Qed.

End JsonCompressor.

(** C8 fails for a number too large for a double: [1e999] is read as
    Infinity, which is written as [null].  For a value without such a
    number it fails when the write breaks off: of [data.json], ten bytes
    into the write, a text is left that does not parse. *)
Lemma C8_fails_for_an_infinity_and_for_a_broken_write :
  ~ (forall (filePath : jsstring) (file : File) (w : World) (v : JSON.JsValue),
       JSON.parse (f_text file) = Some v ->
       let '(_, file', _) :=
         compressJsonFile JSON.parse JSON.stringify filePath file w in
       exists v',
         JSON.parse (f_text file') = Some v' /\
         JSON.deep_equal v v' = true) /\
  ~ (forall (filePath : jsstring) (file : File) (w : World) (v : JSON.JsValue),
       JSON.parse (f_text file) = Some v ->
       JSON.finite_numbers v = true ->
       let '(_, file', _) :=
         compressJsonFile JSON.parse JSON.stringify filePath file w in
       exists v',
         JSON.parse (f_text file') = Some v' /\
         JSON.deep_equal v v' = true).
Proof.
  split; intros H.
  - specialize (H (js "node_modules/big.json")
                  (mkFile (js "big.json") 5 (js "1e999") false false false false
                          None)
                  world0
                  (JSON.JNumber (Number.mkFloat false Number.infinity_bits))).
    assert (Hparse : JSON.parse (js "1e999")
                     = Some (JSON.JNumber
                               (Number.mkFloat false Number.infinity_bits)))
      by (vm_compute; reflexivity).
    specialize (H Hparse). vm_compute in H.
    destruct H as (v' & Hv' & Heq). injection Hv' as <-. discriminate Heq.
  - specialize (H (js "node_modules/data.json") data_file_on_a_full_disk world0
                  data_value).
    assert (Hparse : JSON.parse (f_text data_file_on_a_full_disk)
                     = Some data_value) by (vm_compute; reflexivity).
    assert (Hfin : JSON.finite_numbers data_value = true)
      by (vm_compute; reflexivity).
    specialize (H Hparse Hfin). vm_compute in H.
    destruct H as (v' & Hv' & _). discriminate Hv'.
Qed.

(** ** The claims at concrete inputs *)

Ltac entry_name_holds :=
  split; [discriminate | vm_compute; intuition discriminate].

Ltac names_hold := repeat (constructor; [entry_name_holds|]); constructor.

(** The scenario of the specification: three files deleted, one JavaScript
    file and one JSON file compressed, [index.js] left alone. *)
Example scenario_of_the_specification :
  let '(w, d) :=
    main sample_minify JSON.parse JSON.stringify
         (mkEnv false Absent None (Present false scenario))
         (Present false []) in
  stats w = mkStats 1 1 3 15 3584 /\
  d = Present false
        [DFile (plain "index.js" 17 (js "export const x=1;"));
         DFile (plain "util.js" 28 (js "function f(a,b){return a+b;}"));
         DFile (plain "data.json" 22 data_json_compacted)].
Proof. vm_compute. split; reflexivity. Qed.

Lemma C5_witness :
  let util := plain "util.js" 29 (js "function f(a,b){return a+b;}") in
  entry_name (f_name util) /\
  (classify (f_name util) = CompressJS <->
   ~ (Path.extname (f_name util) = EXT_MD
      \/ Path.extname (f_name util) = EXT_TS
      \/ In (toLowerCase (f_name util)) ESLINT_FILES)
   /\ Path.extname (f_name util) = EXT_JS).
Proof.
  intros util.
  assert (H : entry_name (f_name util)) by entry_name_holds.
  split; [exact H|].
  apply (C5_decision_is_a_function_of_the_name
           sample_minify JSON.JsValue JSON.parse JSON.stringify
           (js "node_modules") util world0 H).
Defined.

Lemma C9_witness :
  let readme := plain "README.MD" 2048 (js "# readme") in
  entry_name (f_name readme) /\
  classify (f_name readme) = Skip /\
  stats (fst (fst (processFile sample_minify JSON.parse JSON.stringify readme
                     (Path.join (js "node_modules") (f_name readme)) world0)))
  = stats world0.
Proof.
  intros readme.
  assert (H : entry_name (f_name readme)) by entry_name_holds.
  split; [exact H|].
  assert (Hlow : In (toLowerCase (Path.extname (f_name readme)))
                    [EXT_MD; EXT_TS; EXT_JS; EXT_JSON])
    by (left; reflexivity).
  assert (Hcase : Path.extname (f_name readme)
                  <> toLowerCase (Path.extname (f_name readme)))
    by (vm_compute; discriminate).
  assert (Hlint : ~ In (toLowerCase (f_name readme)) ESLINT_FILES)
    by (vm_compute; intuition discriminate).
  destruct (C9_extension_match_is_case_sensitive
              sample_minify JSON.JsValue JSON.parse JSON.stringify
              (js "node_modules") readme world0 H Hlow Hcase Hlint)
    as (Hskip & _ & Hstats).
  split; [exact Hskip | exact Hstats].
Defined.

Lemma C10_witness :
  let blank := plain "blank.js" 3 (js "  " ++ LF) in
  compressJavaScriptFile sample_minify (js "node_modules/blank.js") blank world0
  = (world0, blank, Resolved).
Proof.
  intros blank.
  apply (C10_empty_minified_code_is_not_written sample_minify
           (js "node_modules/blank.js") blank world0);
    [reflexivity | reflexivity | reflexivity | vm_compute; reflexivity].
Defined.

Lemma C6_witness :
  let index := plain "index.js" 17 (js "export const x=1;") in
  has_module_marker (f_text index) /\
  fst (compressJavaScriptFile sample_minify (js "node_modules/index.js")
         index world0)
  = (world0, index).
Proof.
  intros index.
  assert (H : has_module_marker (f_text index)).
  { exists [], 32%N, (js "const x=1;"). split; [reflexivity|].
    right. reflexivity. }
  split; [exact H|].
  apply (proj1 (C6_module_marker_skips_minification sample_minify
                  JSON.JsValue JSON.parse JSON.stringify
                  (js "node_modules") index world0 H)).
Defined.

Lemma C4_witness :
  let data := plain "data.json" 9 (js "[1, 2, 3]") in
  JSON.parse (f_text data) <> None /\
  fst (compressJsonFile JSON.parse JSON.stringify (js "node_modules/data.json")
         (plain "min.json" 7 (js "[1,2,3]")) world0)
  = (world0, plain "min.json" 7 (js "[1,2,3]")).
Proof.
  intros data. split; [vm_compute; discriminate|].
  destruct (C4_write_back_only_when_strictly_shorter sample_minify
              JSON.JsValue JSON.parse JSON.stringify
              (js "node_modules/data.json")
              (plain "min.json" 7 (js "[1,2,3]")) world0)
    as (_ & _ & _ & Htie & _).
  destruct (JSON.parse (js "[1,2,3]")) as [json|] eqn:Hp;
    [|vm_compute in Hp; discriminate].
  apply (Htie json).
  - exact Hp.
  - vm_compute in Hp. injection Hp as <-. vm_compute. discriminate.
Defined.

(** C4 fails as stated for a failure that is a write breaking off after
    the open: of [data.json], ten bytes into the write, the file is left
    with those ten bytes. *)
Lemma C4_broken_write_changes_the_file :
  ~ (forall (filePath : jsstring) (file : File) (w : World),
       write_fails file = true ->
       let '(w', file', _) :=
         compressJsonFile JSON.parse JSON.stringify filePath file w in
       file' = file /\ stats w' = stats w).
Proof.
  intros H.
  specialize (H (js "node_modules/data.json") data_file_on_a_full_disk world0
                eq_refl).
  vm_compute in H. destruct H as [H _]. discriminate H.
Qed.

Lemma C7_witness :
  names_ok (files_of (Present false scenario)) /\
  let '(w', _, _) :=
    processDirectory sample_minify JSON.parse JSON.stringify
      (js "node_modules") (Present false scenario) world0 in
  (deletedFiles (stats w') - deletedFiles (stats world0))
  + (jsFilesCompressed (stats w') - jsFilesCompressed (stats world0))
  + (jsonFilesCompressed (stats w') - jsonFilesCompressed (stats world0))
  <= visited w' - visited world0.
Proof.
  assert (H : names_ok (files_of (Present false scenario))) by names_hold.
  split; [exact H|].
  pose proof (C7_counters_bounded_by_files_visited sample_minify
                JSON.JsValue JSON.parse JSON.stringify
                (js "node_modules") (Present false scenario) world0 H) as T.
  destruct (processDirectory sample_minify JSON.parse JSON.stringify
              (js "node_modules") (Present false scenario) world0)
    as [[w' d'] o].
  exact (proj1 T).
Defined.

Lemma C2_witness :
  let env := mkEnv false Absent
                   (Some (ExecError (js "npm install --omit=dev"))) Absent in
  reinstall_fails env /\
  let '(w, _) :=
    main sample_minify JSON.parse JSON.stringify env (Present false scenario) in
  visited w = 0 /\ stats w = stats0.
Proof.
  intros env.
  assert (H : reinstall_fails env) by (eexists; reflexivity).
  split; [exact H|].
  pose proof (C2_fatal_step_skips_the_walk_and_prints_zeros sample_minify
                JSON.JsValue JSON.parse JSON.stringify
                env (Present false scenario) (or_intror H)) as T.
  destruct (main sample_minify JSON.parse JSON.stringify env
              (Present false scenario)) as [w d'].
  destruct T as (Hv & Hs & _). split; assumption.
Defined.

Lemma C8_witness :
  JSON.parse (f_text data_file) = Some data_value /\
  JSON.finite_numbers data_value = true /\
  write_breaks_off data_file = false /\
  let '(_, file', _) :=
    compressJsonFile JSON.parse JSON.stringify (js "node_modules/data.json")
      data_file world0 in
  exists v',
    JSON.parse (f_text file') = Some v' /\
    JSON.deep_equal data_value v' = true.
Proof.
  assert (Hp : JSON.parse (f_text data_file) = Some data_value)
    by (vm_compute; reflexivity).
  assert (Hfin : JSON.finite_numbers data_value = true)
    by (vm_compute; reflexivity).
  assert (Hwhole : write_breaks_off data_file = false) by reflexivity.
  split; [exact Hp|]. split; [exact Hfin|]. split; [exact Hwhole|].
  exact (C8_compacted_json_parses_to_an_equal_value
           (js "node_modules/data.json") data_file world0 data_value
           Hp Hfin Hwhole).
Defined.

(** C2 fails as stated: after a removal that is refused the summary is
    printed. *)
Lemma C2_summary_is_printed_after_a_fatal_step :
  ~ (forall (env : Env) (d : Disk),
       removal_fails env d \/ reinstall_fails env ->
       let '(w, _) := main sample_minify JSON.parse JSON.stringify env d in
       existsb is_summary (console w) = false).
Proof.
  intros H.
  specialize (H (mkEnv true (Present false scenario) None Absent)
                (Present false scenario)).
  assert (Hfatal : removal_fails
                     (mkEnv true (Present false scenario) None Absent)
                     (Present false scenario)
                   \/ reinstall_fails
                        (mkEnv true (Present false scenario) None Absent))
    by (left; eexists; reflexivity).
  specialize (H Hfatal). vm_compute in H. discriminate H.
Qed.

(** ** The further properties at concrete inputs *)

Lemma X1_witness :
  entry_name (js "util.js") /\
  Path.extname (Path.join (js "node_modules/lib") (js "util.js"))
  = Path.extname (js "util.js").
Proof.
  assert (H : entry_name (js "util.js")) by entry_name_holds.
  split; [exact H|].
  exact (full_path_has_the_extension_of_the_name
           (js "node_modules/lib") (js "util.js") H).
Defined.

Lemma X2_witness :
  let util := plain "util.js" 33 (js "function f(a,b){return a+b;}") in
  classify (f_name util) = CompressJS.
Proof.
  intros util.
  assert (Hstem : js "util" <> []) by discriminate.
  assert (Hslash : ~ In Path.CHAR_FORWARD_SLASH (js "util"))
    by (vm_compute; intuition discriminate).
  assert (Hin : In (".js"%string, CompressJS)
                   [(".md", Delete); (".ts", Delete); (".js", CompressJS);
                    (".json", CompressJSON)]%string)
    by (right; right; left; reflexivity).
  assert (Hname : f_name util = js "util" ++ js ".js") by reflexivity.
  exact (proj1 (known_extension_decides sample_minify JSON.JsValue JSON.parse
                  JSON.stringify (js "node_modules") (js "util") util world0
                  ".js" CompressJS Hstem Hslash Hin Hname)).
Defined.

Lemma X3_witness :
  let ignore := plain ".npmignore" 12 (js "test") in
  Path.extname (f_name ignore) = [] /\ classify (f_name ignore) = Skip.
Proof.
  intros ignore.
  assert (Hslash : ~ In Path.CHAR_FORWARD_SLASH (js "npmignore"))
    by (vm_compute; intuition discriminate).
  assert (Hdot : ~ In Path.CHAR_DOT (js "npmignore"))
    by (vm_compute; intuition discriminate).
  assert (Hname : f_name ignore = Path.CHAR_DOT :: js "npmignore")
    by reflexivity.
  pose proof (dot_file_has_no_extension sample_minify JSON.JsValue JSON.parse
                JSON.stringify (js "node_modules") (js "npmignore") ignore
                world0 Hslash Hdot Hname) as T.
  exact (conj (proj1 T) (proj1 (proj2 T))).
Defined.

Lemma X4_witness :
  let readme := plain "readme.md" 2048 (js "# readme") in
  processFile sample_minify JSON.parse JSON.stringify readme
    (js "node_modules/readme.md") world0
  = (mkWorld (mkStats 0 0 1 0 2048)
             [Log_Deleted (js "node_modules/readme.md") 2048] 1,
     None, Resolved).
Proof.
  intros readme.
  assert (Hdel : deletable (f_name readme) = true) by (vm_compute; reflexivity).
  exact (processFile_removes sample_minify JSON.JsValue JSON.parse
           JSON.stringify readme (js "node_modules/readme.md") world0
           Hdel eq_refl eq_refl).
Defined.

Lemma X7_witness :
  let text := js "function f(a,b){" ++ LF ++ js "  return a+b;" ++ LF
              ++ js "}" ++ LF in
  let util := plain "util.js" 33 text in
  fst (processFile sample_minify JSON.parse JSON.stringify util
         (Path.join (js "node_modules") (f_name util)) world0)
  = (mkWorld (add_spaceSaved (length text - length (join_lines true text))
                (incr_jsFilesCompressed stats0))
             [Log_Compressing (Path.join (js "node_modules") (f_name util))]
             1,
     Some (plain "util.js" (utf8_length (join_lines true text))
             (join_lines true text))).
Proof.
  intros text util.
  assert (Hname : entry_name (f_name util)) by entry_name_holds.
  assert (Hclass : classify (f_name util) = CompressJS)
    by (vm_compute; reflexivity).
  assert (Hre : module_regex_test (f_text util) = false)
    by (vm_compute; reflexivity).
  assert (Hcode : join_lines true text <> []) by (vm_compute; discriminate).
  assert (Hlt : length (join_lines true text) < length (f_text util))
    by (vm_compute; reflexivity).
  exact (f_equal fst
           (processFile_minifies sample_minify JSON.JsValue JSON.parse
              JSON.stringify (js "node_modules") util world0
              (join_lines true text) Hname Hclass eq_refl eq_refl Hre eq_refl
              Hcode Hlt)).
Defined.

Lemma X8_witness :
  JSON.parse (f_text data_file) = Some data_value /\
  snd (fst (processFile sample_minify JSON.parse JSON.stringify data_file
              (Path.join (js "node_modules") (f_name data_file)) world0))
  = Some (plain "data.json" (utf8_length (JSON.stringify data_value))
            (JSON.stringify data_value)).
Proof.
  assert (Hname : entry_name (f_name data_file)) by entry_name_holds.
  assert (Hclass : classify (f_name data_file) = CompressJSON)
    by (vm_compute; reflexivity).
  assert (Hp : JSON.parse (f_text data_file) = Some data_value)
    by (vm_compute; reflexivity).
  assert (Hlt : length (JSON.stringify data_value) < length (f_text data_file))
    by (vm_compute; reflexivity).
  split; [exact Hp|].
  exact (f_equal (fun r => snd (fst r))
           (processFile_compacts sample_minify JSON.JsValue JSON.parse
              JSON.stringify (js "node_modules") data_file world0 data_value
              Hname Hclass eq_refl eq_refl Hp Hlt)).
Defined.

Lemma X5_witness :
  let readme :=
    mkFile (js "README.md") 2048 (js "# readme") true false false false None
  in
  let path := Path.join (js "node_modules") (f_name readme) in
  entry_name (f_name readme) /\ stat_refused readme = true /\
  processFile sample_minify JSON.parse JSON.stringify readme path world0
  = (visit world0, Some readme, Rejected (FsError "stat" path)).
Proof.
  intros readme path.
  assert (Hname : entry_name (f_name readme)) by entry_name_holds.
  assert (Hs : stat_refused readme = true) by (vm_compute; reflexivity).
  split; [exact Hname|]. split; [exact Hs|].
  exact (proj1 (processFile_rejects_only_at_stat sample_minify JSON.JsValue
                  JSON.parse JSON.stringify (js "node_modules") readme world0
                  Hname) Hs).
Defined.

Lemma X6_witness :
  let locked :=
    mkFile (js "locked.json") 2 (js "{}") false false true false None in
  compressFile sample_minify JSON.parse JSON.stringify
    (js "node_modules/locked.json") locked world0
  = (print (Err_Compressing (js "node_modules/locked.json")
              (FsError "open" (js "node_modules/locked.json")))
       (print (Log_Compressing (js "node_modules/locked.json")) world0),
     locked, Resolved).
Proof.
  intros locked.
  assert (Hext : Path.extname (js "node_modules/locked.json") = EXT_JS
                 \/ Path.extname (js "node_modules/locked.json") = EXT_JSON)
    by (right; vm_compute; reflexivity).
  exact (proj2 (compressFile_never_rejects sample_minify JSON.JsValue
                  JSON.parse JSON.stringify (js "node_modules/locked.json")
                  locked world0) eq_refl Hext).
Defined.

Lemma X9_witness :
  names_ok (flat_map files_of_dirent scenario) /\
  exists files',
    snd (fst (processDirectory sample_minify JSON.parse JSON.stringify
                (js "node_modules") (Present false scenario) world0))
    = Present false files' /\
    entries_after scenario files'.
Proof.
  assert (H : names_ok (flat_map files_of_dirent scenario)) by names_hold.
  split; [exact H|].
  exact (walk_touches_only_what_it_should sample_minify JSON.JsValue JSON.parse
           JSON.stringify (js "node_modules") false scenario world0 H).
Defined.

Lemma X10_witness :
  names_ok (files_of (Present false scenario)) /\
  walkable (Present false scenario) = true /\
  snd (processDirectory sample_minify JSON.parse JSON.stringify
         (js "node_modules") (Present false scenario) world0)
  = Resolved.
Proof.
  assert (H : names_ok (files_of (Present false scenario))) by names_hold.
  assert (Hw : walkable (Present false scenario) = true)
    by (vm_compute; reflexivity).
  split; [exact H|]. split; [exact Hw|].
  exact (proj2 (proj1 (walk_resolves_exactly_on_walkable_trees sample_minify
                         JSON.JsValue JSON.parse JSON.stringify
                         (js "node_modules") (Present false scenario) world0 H))
           Hw).
Defined.

Lemma X11_witness :
  names_ok (files_of (Present false scenario)) /\
  deletedFiles
    (stats (fst (fst (processDirectory sample_minify JSON.parse JSON.stringify
                        (js "node_modules") (Present false scenario) world0))))
  - deletedFiles (stats world0)
  <= count_class Delete (files_of (Present false scenario)).
Proof.
  assert (H : names_ok (files_of (Present false scenario))) by names_hold.
  split; [exact H|].
  exact (proj1 (statistics_bounded_class_by_class sample_minify JSON.JsValue
                  JSON.parse JSON.stringify (js "node_modules")
                  (Present false scenario) world0 H)).
Defined.

Lemma X13_witness :
  let env := mkEnv false Absent None (Present false scenario) in
  names_ok (files_of (npm_disk env)) /\ walkable (npm_disk env) = true /\
  visited (fst (main sample_minify JSON.parse JSON.stringify env
                  (Present false [])))
  = Z.of_nat (List.length (files_of (npm_disk env))).
Proof.
  intros env.
  assert (H : names_ok (files_of (npm_disk env))) by names_hold.
  assert (Hw : walkable (npm_disk env) = true) by (vm_compute; reflexivity).
  split; [exact H|]. split; [exact Hw|].
  exact (proj1 (run_without_fatal_step sample_minify JSON.JsValue JSON.parse
                  JSON.stringify env false [] eq_refl eq_refl H Hw)).
Defined.

Lemma X14_witness :
  JSON.parse data_json = Some data_value /\
  exists v',
    JSON.parse (JSON.stringify data_value) = Some v' /\
    JSON.deep_equal (JsonVocabulary.nulled data_value) v' = true.
Proof.
  assert (Hp : JSON.parse data_json = Some data_value)
    by (vm_compute; reflexivity).
  split; [exact Hp|].
  exact (stringify_then_parse data_json data_value Hp).
Defined.

Lemma X15_witness :
  JSON.parse (f_text data_file_on_a_full_disk) = Some data_value /\
  f_text (snd (fst (compressJsonFile JSON.parse JSON.stringify
                      (js "node_modules/data.json") data_file_on_a_full_disk
                      world0)))
  = utf8_prefix 10 (JSON.stringify data_value).
Proof.
  assert (Hp : JSON.parse (f_text data_file_on_a_full_disk) = Some data_value)
    by (vm_compute; reflexivity).
  split; [exact Hp|].
  destruct (compressJsonFile_leaves (js "node_modules/data.json")
              data_file_on_a_full_disk world0 data_value Hp)
    as [Hsame|[(Hw & _)|(k & _ & Hk & Htext)]].
  - apply (f_equal f_text) in Hsame. vm_compute in Hsame. discriminate Hsame.
  - discriminate Hw.
  - injection Hk as <-. exact Htext.
Defined.

(** After a write that broke off, a second call can change the file again:
    of [1e+21], four bytes into the write, [1e+2] is left, which the second
    call reads as 100 and writes as [100]. *)
Example compressJsonFile_again_after_a_broken_write :
  let big :=
    mkFile (js "big.json") 6 (js " 1e+21") false false false true (Some 4) in
  let path := js "node_modules/big.json" in
  let '(w1, file1, _) :=
    compressJsonFile JSON.parse JSON.stringify path big world0 in
  let '(_, file2, _) :=
    compressJsonFile JSON.parse JSON.stringify path file1 w1 in
  f_text file1 = js "1e+2" /\ f_text file2 = js "100".
Proof. vm_compute. split; reflexivity. Qed.
